(** * RWKV inference runtime ([rwkv/model.py]): strategy planner, loader
      gates, 8-bit quantization codec and the recurrent forward pass.

    The development follows the layout of the Python source:
    - [Py]        the Python string, list and integer primitives the source
                  calls, and the exceptions they raise;
    - [Re]        the regular expression [STRATEGY_REGEX] and [re.match];
    - [Strategy]  class [RWKVStrategy];
    - [Loader]    the strategy and parameter-count gates of [RWKV.__init__];
    - [Quant]     [fixup_tensor_int8] and the dequantization of [mm8_*];
    - [Engine]    [att_*], [ffn_*] and [forward] over exact reals;
    - [Alias]     tensor identity in [forward]: which tensors are written.

    Strings are sequences of code points below 256 ([ascii]). *)

From Stdlib Require Import String Ascii List ZArith Bool Lia Arith.
From Stdlib Require Import Reals Lra.
Import ListNotations.

Set Implicit Arguments.

(* ================================================================== *)
(** * Python primitives                                                 *)
(* ================================================================== *)

Module Py.

Local Open Scope string_scope.
Local Open Scope nat_scope.

(** Exceptions raised by the modelled code. *)
Inductive exn : Type :=
| ValueError (msg : string)
| IndexError
| KeyError (key : string)
| TypeError
| AttributeError
| ZeroDivisionError
| RuntimeError
| AssertionError.

(** A computation either returns or raises. *)
Inductive result (A : Type) : Type :=
| Ok (a : A)
| Raise (e : exn).

Arguments Ok {A} a.
Arguments Raise {A} e.

Definition bind {A B} (m : result A) (f : A -> result B) : result B :=
  match m with
  | Ok a => f a
  | Raise e => Raise e
  end.

Definition is_ok {A} (m : result A) : bool :=
  match m with Ok _ => true | Raise _ => false end.

Declare Scope py_scope.
Delimit Scope py_scope with py.
Notation "x <- m ;; k" := (bind m (fun x => k))
  (at level 61, m at next level, right associativity) : py_scope.
Notation "' pat <- m ;; k" := (bind m (fun x => match x with pat => k end))
  (at level 61, pat pattern, m at next level, right associativity) : py_scope.

(** [str.isspace] on one code point below 256. *)
Definition isspace (c : ascii) : bool :=
  let n := nat_of_ascii c in
  ((9 <=? n) && (n <=? 13)) || ((28 <=? n) && (n <=? 32))
  || (n =? 133) || (n =? 160).

Fixpoint lstrip (s : string) : string :=
  match s with
  | EmptyString => EmptyString
  | String c s' => if isspace c then lstrip s' else s
  end.

Fixpoint rev_onto (s acc : string) : string :=
  match s with
  | EmptyString => acc
  | String c s' => rev_onto s' (String c acc)
  end.

Definition srev (s : string) : string := rev_onto s EmptyString.

Definition rstrip (s : string) : string := srev (lstrip (srev s)).

(** [s.strip()] *)
Definition strip (s : string) : string := rstrip (lstrip s).

(** [s.startswith(p)] *)
Definition startswith (s p : string) : bool := String.prefix p s.

(** [s.endswith(p)] *)
Definition endswith (s p : string) : bool := String.prefix (srev p) (srev s).

(** [p in s] for strings *)
Fixpoint contains (s p : string) : bool :=
  String.prefix p s ||
  match s with
  | EmptyString => false
  | String _ s' => contains s' p
  end.

(** [s.split(sep)] for a non-empty separator: cut at every occurrence of
    [sep], scanning left to right without overlap.  [skip] counts the
    characters of a separator still to be passed over, [cur] is the current
    piece in reverse. *)
Fixpoint split_aux (sep : string) (skip : nat) (cur : string) (s : string)
  : list string :=
  match s with
  | EmptyString => [srev cur]
  | String c s' =>
      match skip with
      | S k => split_aux sep k cur s'
      | O =>
          if String.prefix sep s
          then srev cur :: split_aux sep (String.length sep - 1) EmptyString s'
          else split_aux sep 0 (String c cur) s'
      end
  end.

Definition split (s sep : string) : list string :=
  split_aux sep 0 EmptyString s.

(** [s.split(sep, maxsplit)]: at most [maxsplit] cuts. *)
Fixpoint splitn_aux (sep : string) (skip : nat) (cuts : nat) (cur : string)
  (s : string) : list string :=
  match s with
  | EmptyString => [srev cur]
  | String c s' =>
      match skip with
      | S k => splitn_aux sep k cuts cur s'
      | O =>
          match cuts with
          | O => [rev_onto cur s]
          | S cuts' =>
              if String.prefix sep s
              then srev cur ::
                   splitn_aux sep (String.length sep - 1) cuts' EmptyString s'
              else splitn_aux sep 0 cuts (String c cur) s'
          end
      end
  end.

Definition splitn (s sep : string) (maxsplit : nat) : list string :=
  splitn_aux sep 0 maxsplit EmptyString s.

(** [s[1:]] *)
Definition slice_from1 (s : string) : string :=
  match s with
  | EmptyString => EmptyString
  | String _ s' => s'
  end.

(** [s[:-1]] *)
Fixpoint slice_to_m1 (s : string) : string :=
  match s with
  | EmptyString => EmptyString
  | String c EmptyString => EmptyString
  | String c s' => String c (slice_to_m1 s')
  end.

(** [s[1:-1]] *)
Definition slice_1_m1 (s : string) : string := slice_to_m1 (slice_from1 s).

Definition digit_val (c : ascii) : option Z :=
  let n := nat_of_ascii c in
  if (48 <=? n) && (n <=? 57) then Some (Z.of_nat (n - 48)) else None.

(** Decimal digits with single underscores allowed between digits, as
    [int] accepts them.  [prev] tells whether the previous character was a
    digit (an underscore needs a digit on both sides). *)
Fixpoint int_digits (prev : bool) (acc : Z) (s : string) : option Z :=
  match s with
  | EmptyString => if prev then Some acc else None
  | String c s' =>
      match digit_val c with
      | Some d => int_digits true (10 * acc + d) s'
      | None =>
          if (Ascii.eqb c "_") && prev then int_digits false acc s' else None
      end
  end.

(** [int(s)] in base 10: surrounding whitespace, an optional sign, digits. *)
Definition int (s : string) : result Z :=
  let t := strip s in
  let '(neg, body) :=
    match t with
    | String "-" r => (true, r)
    | String "+" r => (false, r)
    | _ => (false, t)
    end in
  match int_digits false 0 body with
  | Some n => Ok (if neg then (- n)%Z else n)
  | None => Raise (ValueError "invalid literal for int() with base 10")
  end.

(** [l[i]] for a Python list, negative indices counting from the end. *)
Definition getitem {A} (l : list A) (i : Z) : result A :=
  let n := Z.of_nat (List.length l) in
  let j := if (i <? 0)%Z then (i + n)%Z else i in
  if (j <? 0)%Z then Raise IndexError
  else match nth_error l (Z.to_nat j) with
       | Some a => Ok a
       | None => Raise IndexError
       end.

(** [l[i] = v] for an index known to be in [range(len(l))]. *)
Fixpoint setitem {A} (l : list A) (i : nat) (v : A) : list A :=
  match l, i with
  | [], _ => []
  | _ :: l', O => v :: l'
  | a :: l', S i' => a :: setitem l' i' v
  end.

(** [str(n)] for an integer. *)
Fixpoint pos_digits (fuel : nat) (n : Z) (acc : string) : string :=
  match fuel with
  | O => acc
  | S fuel' =>
      let d := ascii_of_nat (48 + Z.to_nat (n mod 10)) in
      if (n <? 10)%Z then String d acc
      else pos_digits fuel' (n / 10) (String d acc)
  end.

Definition str_of_int (n : Z) : string :=
  if (n <? 0)%Z
  then String "-" (pos_digits (S (Z.to_nat (Z.log2 (- n)))) (- n) EmptyString)
  else pos_digits (S (Z.to_nat (Z.log2 n))) n EmptyString.

End Py.

(* ================================================================== *)
(** * Regular expressions and [STRATEGY_REGEX]                          *)
(* ================================================================== *)

Module Re.

(** The fragment of [re] syntax the pattern uses.  [Bol] is [^],
    [Digit] is [[\d]]; the trailing [$] is handled by [re_match]. *)
Inductive re : Type :=
| Void
| Eps
| Bol
| Chr (c : ascii)
| Digit
| Cat (r1 r2 : re)
| Alt (r1 r2 : re)
| Opt (r : re)
| Star (r : re)
| Plus (r : re).

Fixpoint lit (s : string) : re :=
  match s with
  | EmptyString => Eps
  | String c EmptyString => Chr c
  | String c s' => Cat (Chr c) (lit s')
  end.

(** Does [r] match the empty string here?  [bol] tells whether the
    position is the start of the subject. *)
Fixpoint nullable (bol : bool) (r : re) : bool :=
  match r with
  | Void => false
  | Eps => true
  | Bol => bol
  | Chr _ => false
  | Digit => false
  | Cat r1 r2 => nullable bol r1 && nullable bol r2
  | Alt r1 r2 => nullable bol r1 || nullable bol r2
  | Opt _ => true
  | Star _ => true
  | Plus r1 => nullable bol r1
  end.

Definition is_digit (c : ascii) : bool :=
  let n := nat_of_ascii c in (48 <=? n) && (n <=? 57).

(** Brzozowski derivative: what remains to be matched after reading [c]
    at a position whose start-of-subject status is [bol]. *)
Fixpoint deriv (bol : bool) (c : ascii) (r : re) : re :=
  match r with
  | Void => Void
  | Eps => Void
  | Bol => Void
  | Chr a => if Ascii.eqb a c then Eps else Void
  | Digit => if is_digit c then Eps else Void
  | Cat r1 r2 =>
      if nullable bol r1
      then Alt (Cat (deriv bol c r1) r2) (deriv bol c r2)
      else Cat (deriv bol c r1) r2
  | Alt r1 r2 => Alt (deriv bol c r1) (deriv bol c r2)
  | Opt r1 => deriv bol c r1
  | Star r1 => Cat (deriv bol c r1) (Star r1)
  | Plus r1 => Cat (deriv bol c r1) (Star r1)
  end.

(** Drop branches that can no longer match, to keep derivatives small. *)
Fixpoint dead (r : re) : bool :=
  match r with
  | Void => true
  | Cat r1 r2 => dead r1 || dead r2
  | Alt r1 r2 => dead r1 && dead r2
  | Plus r1 => dead r1
  | _ => false
  end.

Fixpoint prune (r : re) : re :=
  match r with
  | Cat r1 r2 => if dead r1 || dead r2 then Void else Cat (prune r1) r2
  | Alt r1 r2 =>
      if dead r1 then prune r2
      else if dead r2 then prune r1 else Alt (prune r1) (prune r2)
  | _ => r
  end.

Fixpoint fullmatch_from (bol : bool) (r : re) (s : string) : bool :=
  match s with
  | EmptyString => nullable bol r
  | String c s' => fullmatch_from false (prune (deriv bol c r)) s'
  end.

Definition fullmatch (r : re) (s : string) : bool := fullmatch_from true r s.

(** [re.match(r"^...$", s)] without flags: the body matches from the
    start up to the end of [s], or up to a final newline. *)
Definition re_match (body : re) (s : string) : bool :=
  fullmatch body s
  || (Py.endswith s (String (ascii_of_nat 10) EmptyString)
      && fullmatch body (Py.slice_to_m1 s)).

Local Open Scope string_scope.

(** The pattern of [RWKV.__init__] between its leading [^] and its
    trailing [$]: one or more repetitions of the group
    - [(?:^|->)] then spaces,
    - [(?:cuda(?::[\d]+)?|cpu)] then one space,
    - [(?:fp(?:16|32)|bf16)] then [(?:i8|i4|i3)?],
    - [(?: \*[\d]+\+?)?] then spaces. *)
Definition STRATEGY_REGEX : re :=
  Cat Bol
    (Plus
      (Cat (Alt Bol (lit "->"))
      (Cat (Star (Chr " "))
      (Cat (Alt (Cat (lit "cuda") (Opt (Cat (Chr ":") (Plus Digit))))
                (lit "cpu"))
      (Cat (Chr " ")
      (Cat (Alt (Cat (lit "fp") (Alt (lit "16") (lit "32"))) (lit "bf16"))
      (Cat (Opt (Alt (lit "i8") (Alt (lit "i4") (lit "i3"))))
      (Cat (Opt (Cat (lit " *") (Cat (Plus Digit) (Opt (Chr "+")))))
           (Star (Chr " ")))))))))).

End Re.

(* ================================================================== *)
(** * class [RWKVStrategy]                                              *)
(* ================================================================== *)

Module Strategy.

Import Py.
Local Open Scope string_scope.
Local Open Scope Z_scope.
Local Open Scope py_scope.

(** The torch dtypes the source names ([torch.float] is [torch.float32]). *)
Inductive dtype : Type := float32 | float16 | bfloat16 | uint8.

Definition dtype_eqb (a b : dtype) : bool :=
  match a, b with
  | float32, float32 | float16, float16
  | bfloat16, bfloat16 | uint8, uint8 => true
  | _, _ => false
  end.

(** [str(d).replace("torch.", "")] *)
Definition dtype_name (d : dtype) : string :=
  match d with
  | float32 => "float32"
  | float16 => "float16"
  | bfloat16 => "bfloat16"
  | uint8 => "uint8"
  end.

(** One element [s[i]] of the segment list: the words of the segment as
    [split(' ')] returned them and, once the first loop has handled the
    segment, the list of dtypes that replaced [si[1]]. *)
Record seg : Type := mkSeg {
  words : list string;
  types : option (list dtype)
}.

(** What ends up in [atype] / [wtype]: [s[i][1][k]] is a dtype when
    [s[i][1]] was replaced by a list and a character of the word otherwise. *)
Inductive tyval : Type :=
| TyD (d : dtype)
| TyC (c : ascii).

Definition tyval_eqb (a b : tyval) : bool :=
  match a, b with
  | TyD x, TyD y => dtype_eqb x y
  | TyC x, TyC y => Ascii.eqb x y
  | _, _ => false
  end.

Definition tyval_name (v : tyval) : string :=
  match v with
  | TyD d => dtype_name d
  | TyC c => String c EmptyString
  end.

(** [types.SimpleNamespace] with the four attributes set in [__init__]. *)
Record slot : Type := mkSlot {
  device : string;
  atype : tyval;
  wtype : tyval;
  stream : bool
}.

Record RWKVStrategy : Type := mkStrategy {
  strategy_string : string;
  report : string;
  n_layer : Z;
  strategy : list (option slot);
  plan : list Z
}.

(** The locals of [__init__] that its loops update. *)
Record locals : Type := mkLocals {
  l_s : list seg;
  l_plan : list Z;
  l_stream_i : Z;
  l_allocated : Z;
  l_free_slots : Z
}.

(** [s[i][1]] *)
Definition seg1 (si : seg) : result (string + list dtype) :=
  match types si with
  | Some l => Ok (inr l)
  | None => w <- getitem (words si) 1 ;; Ok (inl w)
  end.

(** [s[i][1][k]] *)
Definition seg1_at (si : seg) (k : Z) : result tyval :=
  v <- seg1 si ;;
  match v with
  | inr l => d <- getitem l k ;; Ok (TyD d)
  | inl w => c <- getitem (list_ascii_of_string w) k ;; Ok (TyC c)
  end.

(** [str(s[i][1]).replace("torch.", "")] *)
Fixpoint join (sep : string) (l : list string) : string :=
  match l with
  | [] => EmptyString
  | [x] => x
  | x :: l' => x ++ sep ++ join sep l'
  end.

Definition replace (s old new : string) : string := join new (split s old).

Definition seg1_str (si : seg) : result string :=
  v <- seg1 si ;;
  match v with
  | inr l => Ok ("[" ++ join ", " (map dtype_name l) ++ "]")
  | inl w => Ok (replace w "torch." EmptyString)
  end.

(** Lines 98-106: the dtype word of segment [si]. *)
Definition parse_dtype (si : seg) : result seg :=
  si1 <- getitem (words si) 1 ;;
  let first :=
    if startswith si1 "fp32" then Some [float32]
    else if startswith si1 "fp16" then Some [float16]
    else if startswith si1 "bf16" then Some [bfloat16]
    else None in
  if endswith si1 "i8" then
    match first with
    | Some l => Ok (mkSeg (words si) (Some (l ++ [uint8])%list))
    | None => Raise TypeError
    end
  else
    match first with
    | Some l => d <- getitem l 0 ;; Ok (mkSeg (words si) (Some (l ++ [d])%list))
    | None => _ <- getitem (list_ascii_of_string si1) 0 ;; Raise TypeError
    end.

(** Lines 98-122: one turn of the first loop; the boolean is [break]. *)
Definition alloc_body (to_allocate : Z) (i : nat) (st : locals)
  : result (locals * bool) :=
  si <- getitem (l_s st) (Z.of_nat i) ;;
  si' <- parse_dtype si ;;
  let s' := setitem (l_s st) i si' in
  if (2 <? Z.of_nat (List.length (words si'))) then
    ss <- getitem (words si') 2 ;;
    if negb (startswith ss "*") then Raise (ValueError "Expected * in strategy")
    else
      '(p, stream_i') <-
        (if endswith ss "+"
         then p <- int (slice_1_m1 ss) ;; Ok (p, Z.of_nat i)
         else p <- int (slice_from1 ss) ;; Ok (p, l_stream_i st)) ;;
      let allocated' := l_allocated st + p in
      if (allocated' >=? to_allocate) then
        Ok (mkLocals s' (setitem (l_plan st) i (p + (to_allocate - allocated')))
                     stream_i' allocated' (l_free_slots st), true)
      else
        Ok (mkLocals s' (setitem (l_plan st) i p)
                     stream_i' allocated' (l_free_slots st), false)
  else
    Ok (mkLocals s' (l_plan st) (l_stream_i st) (l_allocated st)
                 (l_free_slots st + 1), false).

(** [for i in range(len(s))] of lines 97-122, over the indices [idx]. *)
Fixpoint alloc_loop (to_allocate : Z) (idx : list nat) (st : locals)
  : result locals :=
  match idx with
  | [] => Ok st
  | i :: rest =>
      '(st', brk) <- alloc_body to_allocate i st ;;
      if (brk : bool) then Ok st' else alloc_loop to_allocate rest st'
  end.

(** Python's [a // b]. *)
Definition floordiv (a b : Z) : result Z :=
  if (b =? 0) then Raise ZeroDivisionError else Ok (a / b).

(** Lines 125-129: share the remainder among the segments whose plan
    entry is 0. *)
Fixpoint share_loop (to_allocate : Z) (idx : list nat) (st : locals)
  : result locals :=
  match idx with
  | [] => Ok st
  | i :: rest =>
      p <- getitem (l_plan st) (Z.of_nat i) ;;
      if (p =? 0) then
        q <- floordiv (to_allocate - l_allocated st) (l_free_slots st) ;;
        share_loop to_allocate rest
          (mkLocals (l_s st) (setitem (l_plan st) i q) (l_stream_i st)
                    (l_allocated st + q) (l_free_slots st - 1))
      else share_loop to_allocate rest st
  end.

(** Lines 123-135: the plan once the remainder is placed, and
    [stream_count]. *)
Definition place_rest (to_allocate : Z) (st : locals)
  : result (list Z * Z) :=
  let n := List.length (l_s st) in
  if (l_stream_i st <? 0) then
    st1 <- (if (l_free_slots st >? 0) && (to_allocate >? l_allocated st)
            then share_loop to_allocate (seq 0 n) st else Ok st) ;;
    if (to_allocate >? l_allocated st1) then
      last <- getitem (l_plan st1) (Z.of_nat n - 1) ;;
      Ok (setitem (l_plan st1) (n - 1)
            (last + (to_allocate - l_allocated st1)), 0)
    else Ok (l_plan st1, 0)
  else
    if (to_allocate >? l_allocated st) then
      let stream_count := to_allocate - l_allocated st in
      cur <- getitem (l_plan st) (l_stream_i st) ;;
      Ok (setitem (l_plan st) (Z.to_nat (l_stream_i st)) (cur + stream_count),
          stream_count)
    else Ok (l_plan st, 0).

(** The number of layers line 140 or 142 reports as stored by segment [i]. *)
Definition stored_count (stream_i stream_count : Z) (i : nat) (p : Z) : Z :=
  if (Z.of_nat i =? stream_i) then p - stream_count else p.

(** Lines 137-143: the report line of each segment, and the plan turned
    into running totals. *)
Fixpoint report_loop (s : list seg) (stream_i stream_count : Z)
  (idx : list nat) (plan : list Z) (chunks : string)
  : result (list Z * string) :=
  match idx with
  | [] => Ok (plan, chunks)
  | i :: rest =>
      ss <- getitem s (Z.of_nat i) ;;
      dev <- getitem (words ss) 0 ;;
      ty <- seg1_str ss ;;
      p <- getitem plan (Z.of_nat i) ;;
      let line :=
        if negb (Z.of_nat i =? stream_i) then
          "* " ++ dev ++ " " ++ ty ++ ", store " ++ str_of_int p
            ++ " layers" ++ String (ascii_of_nat 10) EmptyString
        else
          "* " ++ dev ++ " " ++ ty ++ ", store "
            ++ str_of_int (stored_count stream_i stream_count i p)
            ++ " layers, stream " ++ str_of_int stream_count
            ++ " layers" ++ String (ascii_of_nat 10) EmptyString in
      prev <- (if (i =? 0)%nat then Ok 0
               else getitem plan (Z.of_nat i - 1)) ;;
      report_loop s stream_i stream_count rest
        (setitem plan i (p + prev)) (chunks ++ line)
  end.

(** Lines 146-153: the slot of layer [n], from the first segment whose
    running total exceeds [n]; [None] when there is none. *)
Fixpoint find_slot (s : list seg) (plan : list Z) (stream_i stream_count : Z)
  (n : Z) (idx : list nat) : result (option slot) :=
  match idx with
  | [] => Ok None
  | i :: rest =>
      p <- getitem plan (Z.of_nat i) ;;
      if (n <? p) then
        si <- getitem s (Z.of_nat i) ;;
        dev <- getitem (words si) 0 ;;
        a <- seg1_at si 0 ;;
        w <- seg1_at si 1 ;;
        Ok (Some (mkSlot dev a w
                    ((Z.of_nat i =? stream_i) && (n >=? p - stream_count))))
      else find_slot s plan stream_i stream_count n rest
  end.

(** Line 154: the report chunk of layer [n]. *)
Definition slot_chunk (n : Z) (o : option slot) : result string :=
  match o with
  | None => Raise AttributeError
  | Some d =>
      Ok (str_of_int n ++ "-" ++ device d ++ "-" ++ tyval_name (atype d)
            ++ "-" ++ tyval_name (wtype d)
            ++ (if stream d then "-stream" else EmptyString))
  end.

(** Lines 145-154: [for n in range(n_layer + 1)]. *)
Fixpoint strategy_loop (s : list seg) (plan : list Z)
  (stream_i stream_count : Z) (ns : list nat) (chunks : string)
  : result (list (option slot) * string) :=
  match ns with
  | [] => Ok ([], chunks)
  | n :: rest =>
      o <- find_slot s plan stream_i stream_count (Z.of_nat n)
             (seq 0 (List.length s)) ;;
      c <- slot_chunk (Z.of_nat n) o ;;
      '(l, chunks') <- strategy_loop s plan stream_i stream_count rest
                         (chunks ++ c) ;;
      Ok (o :: l, chunks')
  end.

(** Line 90: [[x.strip().split(' ') for x in strategy_string.split('->')]] *)
Definition segments (strategy_string : string) : list seg :=
  map (fun x => mkSeg (split (strip x) " ") None)
      (split strategy_string "->").

(** [RWKVStrategy.__init__(strategy_string, n_layer)] *)
Definition init (strategy_string0 : string) (n_layer0 : Z)
  : result RWKVStrategy :=
  let strategy_string1 := strip strategy_string0 in
  let s := segments strategy_string1 in
  let plan0 := repeat 0 (List.length s) in
  let to_allocate := n_layer0 + 1 in
  st <- alloc_loop to_allocate (seq 0 (List.length s))
          (mkLocals s plan0 (-1) 0 0) ;;
  '(plan1, stream_count) <- place_rest to_allocate st ;;
  let head := "Strategy: (total " ++ str_of_int n_layer0 ++ "+1="
              ++ str_of_int (n_layer0 + 1) ++ " layers)"
              ++ String (ascii_of_nat 10) EmptyString in
  '(plan2, chunks) <- report_loop (l_s st) (l_stream_i st) stream_count
                        (seq 0 (List.length s)) plan1 head ;;
  '(strat, chunks') <- strategy_loop (l_s st) plan2 (l_stream_i st)
                         stream_count (seq 0 (Z.to_nat (n_layer0 + 1)))
                         chunks ;;
  Ok (mkStrategy strategy_string1 chunks' n_layer0 strat plan2).

(** [getattr(strat, 'atype', None)] and [getattr(strat, 'wtype', None)] *)
Definition getattr_atype (o : option slot) : option tyval :=
  option_map atype o.
Definition getattr_wtype (o : option slot) : option tyval :=
  option_map wtype o.

(** [a is b] on the values these attributes hold. *)
Definition is_same (a b : option tyval) : bool :=
  match a, b with
  | None, None => true
  | Some x, Some y => tyval_eqb x y
  | _, _ => false
  end.

(** The loop of [is_compatible], lines 164-170; [other[i]] is
    [other.strategy[i]]. *)
Fixpoint compatible_loop (self_strategy other_strategy : list (option slot))
  : bool :=
  match self_strategy, other_strategy with
  | strat :: l1, ostrat :: l2 =>
      if negb (is_same (getattr_atype strat) (getattr_atype ostrat))
         || negb (is_same (getattr_wtype strat) (getattr_wtype ostrat))
      then false
      else compatible_loop l1 l2
  | _, _ => true
  end.

(** [self.is_compatible(other)] *)
Definition is_compatible (self other : RWKVStrategy) : bool :=
  if negb (n_layer self =? n_layer other)
     || negb (List.length (strategy self) =? List.length (strategy other))%nat
  then false
  else compatible_loop (strategy self) (strategy other).

(** The (activation dtype, weight dtype) pair of every layer. *)
Definition dtype_pairs (S : RWKVStrategy) : list (option (tyval * tyval)) :=
  map (option_map (fun d => (atype d, wtype d))) (strategy S).

(** Three strategy objects used as test inputs. *)
Definition cpu_fp32_slot : slot :=
  mkSlot "cpu" (TyD float32) (TyD float32) false.
Definition cuda_fp32_slot : slot :=
  mkSlot "cuda" (TyD float32) (TyD float32) true.
Definition cuda_fp16_slot : slot :=
  mkSlot "cuda" (TyD float16) (TyD float16) false.

Definition strategy_on_cpu : RWKVStrategy :=
  mkStrategy "cpu fp32" EmptyString 1
    [Some cpu_fp32_slot; Some cpu_fp32_slot] [2].
Definition strategy_on_cuda : RWKVStrategy :=
  mkStrategy "cuda fp32 *0+" EmptyString 1
    [Some cuda_fp32_slot; Some cuda_fp32_slot] [2].
Definition strategy_cuda_fp16 : RWKVStrategy :=
  mkStrategy "cuda fp16" EmptyString 1
    [Some cuda_fp16_slot; Some cuda_fp16_slot] [2].
Definition strategy_three_layers : RWKVStrategy :=
  mkStrategy "cpu fp32" EmptyString 2
    [Some cpu_fp32_slot; Some cpu_fp32_slot; Some cpu_fp32_slot] [3].

(** What the planner builds from ["cpu fp16"] for six blocks. *)
Definition cpu_fp16_slot : slot :=
  mkSlot "cpu" (TyD float16) (TyD float16) false.
Definition strategy_six_layers : RWKVStrategy :=
  mkStrategy "cpu fp16" EmptyString 6 (repeat (Some cpu_fp16_slot) 7) [7].

End Strategy.

(* ================================================================== *)
(** * [RWKV.__init__]: the gates of the loader                          *)
(* ================================================================== *)

Module Loader.

Import Py.
Local Open Scope string_scope.
Local Open Scope Z_scope.
Local Open Scope py_scope.

(** What [torch.load] holds under a key: a tensor, or the string of the
    [preconverted_for_strategy] marker.  The gates below look at keys only;
    the tensors themselves are handled in [Quant] and [Engine], and every
    tensor operation of the loading loop is taken to succeed. *)
Inductive value : Type :=
| Tensor
| Str (s : string).

(** The dict [w], in insertion order. *)
Definition checkpoint : Type := list (string * value).

Definition keys (w : checkpoint) : list string := map fst w.

(** [w.get(k)] *)
Fixpoint get (w : checkpoint) (k : string) : option value :=
  match w with
  | [] => None
  | (k', v) :: w' => if String.eqb k' k then Some v else get w' k
  end.

(** [w[k]] *)
Definition lookup (w : checkpoint) (k : string) : result value :=
  match get w k with
  | Some v => Ok v
  | None => Raise (KeyError k)
  end.

(** [del w[k]] for a key that is present. *)
Fixpoint del (w : checkpoint) (k : string) : checkpoint :=
  match w with
  | [] => []
  | (k', v) :: w' => if String.eqb k' k then w' else (k', v) :: del w' k
  end.

Definition RWKV_PRECONVERT_FORMAT : Z := 1.

(** [RWKV.get_nlayer(keys)] *)
Fixpoint get_nlayer_from (n_layer : Z) (ks : list string) : result Z :=
  match ks with
  | [] => Ok n_layer
  | x :: rest =>
      layer_id <- (if startswith x "blocks."
                   then w1 <- getitem (splitn x "." 2) 1 ;; int w1
                   else Ok 0) ;;
      get_nlayer_from (Z.max n_layer (layer_id + 1)) rest
  end.

Definition get_nlayer (ks : list string) : result Z := get_nlayer_from 0 ks.

Definition invalid_strategy_msg : string :=
  "Invalid strategy. Please read https://pypi.org/project/rwkv/".

Definition incompatible_version_msg : string :=
  "Preconverted model saved for an incompatible version!".

(** The message of line 223. *)
Definition incompatible_strategy_msg (pstrategy : Strategy.RWKVStrategy)
  (pnlayer : Z) (strategy : Strategy.RWKVStrategy) (n_layer : Z) : string :=
  "Loading preconverted module with incompatible strategy. Preconverted strategy: ["
  ++ Strategy.strategy_string pstrategy ++ "](" ++ str_of_int pnlayer
  ++ "), requested strategy: [" ++ Strategy.strategy_string strategy
  ++ "](" ++ str_of_int n_layer ++ ")".

Definition not_rwkv4_msg : string :=
  "Error: not a RWKV-4 model (4a and 4b models are not supported as of now)".

(** Lines 209-227: the strategy in force, the dict without its marker and
    the flag [preconverted]. *)
Definition choose_strategy (strategy : string) (n_layer : Z) (w : checkpoint)
  : result (Strategy.RWKVStrategy * checkpoint * bool) :=
  match get w "preconverted_for_strategy" with
  | Some v =>
      preconverted_strategy <-
        (match v with Str s => Ok s | Tensor => Raise AttributeError end) ;;
      if negb (startswith preconverted_strategy
                 (str_of_int RWKV_PRECONVERT_FORMAT ++ "|"))
      then Raise (ValueError incompatible_version_msg)
      else
        match split preconverted_strategy "|" with
        | [_; pnlayer; pstrategystr] =>
            pnlayer <- int pnlayer ;;
            pstrategy <- Strategy.init pstrategystr pnlayer ;;
            let w' := del w "preconverted_for_strategy" in
            if String.eqb strategy "preconverted" then Ok (pstrategy, w', true)
            else
              st <- Strategy.init strategy n_layer ;;
              if negb (Strategy.is_compatible st pstrategy)
              then Raise (ValueError
                     (incompatible_strategy_msg pstrategy pnlayer st n_layer))
              else Ok (st, w', true)
        | _ => Raise (ValueError "wrong number of values to unpack")
        end
  | None =>
      st <- Strategy.init strategy n_layer ;;
      Ok (st, w, false)
  end.

(** Lines 236-243: [emb.weight] is read, and for a fresh set the two
    [ln0] parameters are folded into it and deleted. *)
Definition fold_embedding (preconverted : bool) (w : checkpoint)
  : result checkpoint :=
  _ <- lookup w "emb.weight" ;;
  if negb preconverted then
    _ <- lookup w "blocks.0.ln0.weight" ;;
    _ <- lookup w "blocks.0.ln0.bias" ;;
    Ok (del (del w "blocks.0.ln0.weight") "blocks.0.ln0.bias")
  else Ok w.

(** Lines 251-254: the layer a key belongs to. *)
Definition key_layer_id (n_layer : Z) (x : string) : result Z :=
  layer_id <- (if contains x "blocks."
               then w1 <- getitem (split x ".") 1 ;; int w1
               else Ok 0) ;;
  Ok (if contains x "ln_out." || contains x "head." then n_layer
      else layer_id).

(** Lines 249-300 for one key: the plan entry [dd] of its layer must
    exist and be a namespace. *)
Definition load_key (st : Strategy.RWKVStrategy) (n_layer : Z)
  (kv : string * value) : result unit :=
  _ <- (match snd kv with
        | Tensor => Ok tt
        | Str _ => Raise AttributeError
        end) ;;
  layer_id <- key_layer_id n_layer (fst kv) ;;
  dd <- getitem (Strategy.strategy st) layer_id ;;
  match dd with
  | Some _ => Ok tt
  | None => Raise AttributeError
  end.

Fixpoint load_keys (st : Strategy.RWKVStrategy) (n_layer : Z)
  (kvs : checkpoint) : result unit :=
  match kvs with
  | [] => Ok tt
  | kv :: rest => _ <- load_key st n_layer kv ;; load_keys st n_layer rest
  end.

(** What [__init__] leaves in [self]. *)
Record loaded : Type := mkLoaded {
  ld_strategy : Strategy.RWKVStrategy;
  ld_n_layer : Z;
  ld_preconverted : bool;
  ld_RESCALE_LAYER : Z;
  ld_keys : list string
}.

(** Everything [__init__] does before the count check of line 301. *)
Definition prepare (strategy0 : string) (w0 : checkpoint) : result loaded :=
  let strategy := strip strategy0 in
  if negb (Re.re_match Re.STRATEGY_REGEX strategy)
  then Raise (ValueError invalid_strategy_msg)
  else
    n_layer <- get_nlayer (keys w0) ;;
    '(st, w1, preconverted) <- choose_strategy strategy n_layer w0 ;;
    let RESCALE_LAYER :=
      if contains (Strategy.strategy_string st) "fp16" then 6 else 0 in
    w2 <- fold_embedding preconverted w1 ;;
    _ <- load_keys st n_layer w2 ;;
    Ok (mkLoaded st n_layer preconverted RESCALE_LAYER (keys w2)).

(** Lines 301-302. *)
Definition check_count (l : loaded) : result loaded :=
  if negb (ld_preconverted l)
     && negb (Z.of_nat (List.length (ld_keys l))
              =? 4 + (4 + 9 + 5) * ld_n_layer l)
  then Raise (ValueError not_rwkv4_msg)
  else Ok l.

(** [RWKV.__init__(model, strategy)] on the dict [w] read from [model]. *)
Definition init (strategy : string) (w : checkpoint) : result loaded :=
  l <- prepare strategy w ;; check_count l.

(** The parameter names of a fresh RWKV-4 checkpoint with [n] blocks. *)
Definition block_keys (i : nat) : list string :=
  let b := "blocks." ++ str_of_int (Z.of_nat i) ++ "." in
  map (fun suffix => b ++ suffix)
    ["ln1.weight"; "ln1.bias"; "ln2.weight"; "ln2.bias";
     "att.time_decay"; "att.time_first";
     "att.time_mix_k"; "att.time_mix_v"; "att.time_mix_r";
     "att.key.weight"; "att.value.weight"; "att.receptance.weight";
     "att.output.weight";
     "ffn.time_mix_k"; "ffn.time_mix_r";
     "ffn.key.weight"; "ffn.receptance.weight"; "ffn.value.weight"].

Definition fresh_keys (n : nat) : list string :=
  (["emb.weight"; "blocks.0.ln0.weight"; "blocks.0.ln0.bias"]
   ++ flat_map block_keys (seq 0 n)
   ++ ["ln_out.weight"; "ln_out.bias"; "head.weight"])%list.

Definition fresh_checkpoint (n : nat) : checkpoint :=
  map (fun k => (k, Tensor)) (fresh_keys n).

(** A weight set saved for ["cpu fp32"] with one block. *)
Definition preconverted_checkpoint : checkpoint :=
  ("preconverted_for_strategy", Str "1|1|cpu fp32")
  :: del (del (fresh_checkpoint 1) "blocks.0.ln0.weight")
       "blocks.0.ln0.bias".

End Loader.

(* ================================================================== *)
(** * Tensors over exact reals                                          *)
(* ================================================================== *)

Module Tensor.

Local Open Scope R_scope.

(** A 1-D tensor, and a 2-D tensor as the list of its rows.  Casts between
    dtypes and moves between devices are the identity on exact reals. *)
Definition vec : Type := list R.
Definition mat : Type := list vec.

(** Elementwise operation on two tensors of the same shape. *)
Fixpoint zipWith {A B C} (f : A -> B -> C) (a : list A) (b : list B)
  : list C :=
  match a, b with
  | x :: a', y :: b' => f x y :: zipWith f a' b'
  | _, _ => []
  end.

Definition vadd (a b : vec) : vec := zipWith Rplus a b.
Definition vsub (a b : vec) : vec := zipWith Rminus a b.
Definition vmul (a b : vec) : vec := zipWith Rmult a b.
Definition vdiv (a b : vec) : vec := zipWith Rdiv a b.
Definition vmax (a b : vec) : vec := zipWith Rmax a b.
Definition vexp (a : vec) : vec := map exp a.

(** [a / c] and [1 - a] for a scalar [c]. *)
Definition vdivc (a : vec) (c : R) : vec := map (fun x => x / c) a.
Definition vone_minus (a : vec) : vec := map (fun x => 1 - x) a.
Definition mdivc (m : mat) (c : R) : mat := map (fun r => vdivc r c) m.

Definition sigmoid (x : R) : R := 1 / (1 + exp (- x)).
Definition relu (x : R) : R := Rmax 0 x.
Definition square (x : R) : R := x * x.

Definition vsum (a : vec) : R := fold_right Rplus 0 a.

(** [torch.zeros(n)] *)
Definition zeros (n : nat) : vec := repeat 0 n.

(** Sum of two row combinations; the empty tensor is the empty sum. *)
Fixpoint vacc (a b : vec) : vec :=
  match a, b with
  | [], _ => b
  | _, [] => a
  | x :: a', y :: b' => x + y :: vacc a' b'
  end.

(** [x @ w] for a 1-D [x] of length N and [w] of shape [N, M]:
    the combination of the rows of [w] with the coefficients [x]. *)
Fixpoint vecmat (x : vec) (w : mat) : vec :=
  match x, w with
  | xi :: x', row :: w' => vacc (map (fun a => xi * a) row) (vecmat x' w')
  | _, _ => []
  end.

(** [x @ w] for a 2-D [x]: row by row. *)
Definition matmat (x : mat) (w : mat) : mat := map (fun r => vecmat r w) x.

Definition ncols (m : mat) : nat := length (hd [] m).

(** [m.t()] *)
Definition transpose (m : mat) : mat :=
  map (fun j => map (fun row => nth j row 0) m) (seq 0 (ncols m)).

(** [F.layer_norm(x, (C,), weight=w, bias=b)] on one row, with torch's
    [eps] argument (the source leaves it at its default, [torch_eps]). *)
Definition mean (x : vec) : R := vsum x / INR (length x).

Definition variance (x : vec) : R :=
  vsum (map (fun a => square (a - mean x)) x) / INR (length x).

Definition layer_norm (eps : R) (x w b : vec) : vec :=
  let mu := mean x in
  let sd := sqrt (variance x + eps) in
  vadd (vmul (map (fun a => (a - mu) / sd) x) w) b.

Definition torch_eps : R := 1 / 100000.

(** [m[i][j]], and the matrix of shape [N, C] with entries [f i j]. *)
Definition entry (m : mat) (i j : nat) : R := nth j (nth i m []) 0.

Definition tabulate (N C : nat) (f : nat -> nat -> R) : mat :=
  map (fun i => map (fun j => f i j) (seq 0 C)) (seq 0 N).

(** A 2-D tensor of shape [N, C]. *)
Definition has_shape (m : mat) (N C : nat) : Prop :=
  length m = N /\ Forall (fun row => length row = C) m.

(** [xx[:-1,:]] and [xx[-1,:]] *)
Definition all_but_last (m : mat) : mat := removelast m.
Definition last_row (m : mat) : vec := last m [].

End Tensor.

(* ================================================================== *)
(** * 8-bit quantization: [fixup_tensor_int8], [mm8_one], [mm8_seq]     *)
(* ================================================================== *)

Module Quant.

Import Tensor.
Local Open Scope R_scope.

(** [torch.amin] / [torch.amax] along a non-empty axis. *)
Definition amin (l : vec) : R :=
  match l with
  | [] => 0
  | a :: l' => fold_left Rmin l' a
  end.

Definition amax (l : vec) : R :=
  match l with
  | [] => 0
  | a :: l' => fold_left Rmax l' a
  end.

(** [torch.amin(w, dim=1)] is per row, [torch.amin(w, dim=0)] per column. *)
Definition amin_dim1 (w : mat) : vec := map amin w.
Definition amin_dim0 (w : mat) : vec := map amin (transpose w).
Definition amax_dim1 (w : mat) : vec := map amax w.
Definition amax_dim0 (w : mat) : vec := map amax (transpose w).

(** [w - c] and [w / c] for a column [c] of shape [N, 1] (one entry per
    row) and for a row [r] of shape [M] (one entry per column). *)
Definition sub_col (w : mat) (c : vec) : mat :=
  zipWith (fun row ci => map (fun a => a - ci) row) w c.
Definition sub_row (w : mat) (r : vec) : mat :=
  map (fun row => vsub row r) w.
Definition div_col (w : mat) (c : vec) : mat :=
  zipWith (fun row ci => map (fun a => a / ci) row) w c.
Definition div_row (w : mat) (r : vec) : mat :=
  map (fun row => vdiv row r) w.

(** [torch.clip(torch.floor(a * 256), min=0, max=255).to(dtype=torch.uint8)] *)
Definition to_uint8 (a : R) : Z :=
  Z.min 255 (Z.max 0 (Zfloor (a * 256))).

(** A quantized matrix: [w[k]] with [w[k+'_mx']], [w[k+'_rx']],
    [w[k+'_my']], [w[k+'_ry']]. *)
Record mm8w : Type := mkMm8 {
  q_w : list (list Z);
  q_mx : vec;
  q_rx : vec;
  q_my : vec;
  q_ry : vec
}.

(** The minima and ranges of lines 367-384 before the division by 16,
    and the matrix scaled into [[0, 1]]. *)
Record ranges : Type := mkRanges {
  r_mx : vec;
  r_rx : vec;
  r_my : vec;
  r_ry : vec;
  r_unit : mat
}.

Definition axis_ranges (w : mat) : ranges :=
  if (ncols w <? length w)%nat then
    let my := amin_dim1 w in
    let w1 := sub_col w my in
    let mx := amin_dim0 w1 in
    let w2 := sub_row w1 mx in
    let rx := amax_dim0 w2 in
    let w3 := div_row w2 rx in
    let ry := amax_dim1 w3 in
    let w4 := div_col w3 ry in
    mkRanges mx rx my ry w4
  else
    let mx := amin_dim0 w in
    let w1 := sub_row w mx in
    let my := amin_dim1 w1 in
    let w2 := sub_col w1 my in
    let rx := amax_dim0 w2 in
    let w3 := div_row w2 rx in
    let ry := amax_dim1 w3 in
    let w4 := div_col w3 ry in
    mkRanges mx rx my ry w4.

(** [fixup_tensor_int8(k, ATYPE)] on the matrix [w[k]]. *)
Definition fixup_tensor_int8 (w : mat) : mm8w :=
  let r := axis_ranges w in
  mkMm8 (map (map to_uint8) (r_unit r))
        (r_mx r)
        (vdivc (r_rx r) 16)
        (r_my r)
        (vdivc (r_ry r) 16).

(** [(w.to(dtype=x.dtype) + 0.5) * ry * rx + my + mx] *)
Definition dequant (w : list (list Z)) (mx rx my ry : vec) : mat :=
  zipWith (fun row '(ryi, myi) =>
             zipWith (fun q '(rxj, mxj) =>
                        (IZR q + 0.5) * ryi * rxj + myi + mxj)
                     row (combine rx mx))
          w (combine ry my).

Definition dequantize (m : mm8w) : mat :=
  dequant (q_w m) (q_mx m) (q_rx m) (q_my m) (q_ry m).

(** [mm8_one] and [mm8_seq] without the CUDA extension. *)
Definition mm8_one (x : vec) (w : list (list Z)) (mx rx my ry : vec) : vec :=
  vecmat x (dequant w mx rx my ry).

Definition mm8_seq (x : mat) (w : list (list Z)) (mx rx my ry : vec) : mat :=
  matmat x (dequant w mx rx my ry).

(** A 2 x 2 test matrix. *)
Definition example_matrix : mat := [[0; 1]; [1; 0]].

End Quant.

(* ================================================================== *)
(** * The recurrent layer engine and [RWKV.forward]                     *)
(* ================================================================== *)

Module Engine.

Import Py Tensor Quant.
Local Open Scope string_scope.
Local Open Scope R_scope.
Local Open Scope py_scope.

(** A projection matrix of the placed weight set: a float matrix, or a
    [uint8] matrix with its four correction tensors. *)
Inductive linear : Type :=
| Dense (m : mat)
| Quant (q : mm8w).

(** The entries [blocks.<i>.*] of the dict [w] after loading. *)
Record block : Type := mkBlock {
  ln1_weight : vec;
  ln1_bias : vec;
  att_time_mix_k : vec;
  att_time_mix_v : vec;
  att_time_mix_r : vec;
  att_time_decay : vec;
  att_time_first : vec;
  att_key_weight : linear;
  att_value_weight : linear;
  att_receptance_weight : linear;
  att_output_weight : linear;
  ln2_weight : vec;
  ln2_bias : vec;
  ffn_time_mix_k : vec;
  ffn_time_mix_r : vec;
  ffn_key_weight : linear;
  ffn_value_weight : linear;
  ffn_receptance_weight : linear
}.

(** The dict [self.w] after loading. *)
Record weights : Type := mkWeights {
  emb_weight : mat;
  blocks : list block;
  ln_out_weight : vec;
  ln_out_bias : vec;
  head_weight : linear
}.

(** [self]: the module constants, [self.args], [self.strategy], [self.w]. *)
Record RWKV : Type := mkRWKV {
  RWKV_CUDA_ON : bool;
  RESCALE_LAYER : nat;
  n_embd : nat;
  strategy : Strategy.RWKVStrategy;
  w : weights
}.

Definition n_layer (self : RWKV) : nat := length (blocks (w self)).

(** The activation [x] of [forward]: 1-D for one token, 2-D for several. *)
Inductive act : Type :=
| One (x : vec)
| Seq (x : mat).

Section WithEps.

(** The [eps] of every [F.layer_norm] call; the source uses torch's
    default, [torch_eps]. *)
Variable eps : R.

(** [xx * mix + sx * (1 - mix)] *)
Definition token_shift (xx sx mix : vec) : vec :=
  vadd (vmul xx mix) (vmul sx (vone_minus mix)).

(** Lines 474-478 (and 498-502, 529-533, 560-564): the output step. *)
Definition wkv_out (t_first k v aa bb pp : vec) : vec :=
  let ww := vadd t_first k in
  let p := vmax pp ww in
  let e1 := vexp (vsub pp p) in
  let e2 := vexp (vsub ww p) in
  vdiv (vadd (vmul e1 aa) (vmul e2 v)) (vadd (vmul e1 bb) e2).

(** Lines 479-485 (and 503-509, 534-540, 565-571): the state advance,
    returning the new [aa], [bb], [pp]. *)
Definition wkv_next (t_decay k v aa bb pp : vec) : vec * vec * vec :=
  let ww := vadd t_decay pp in
  let p := vmax ww k in
  let e1 := vexp (vsub ww p) in
  let e2 := vexp (vsub k p) in
  (vadd (vmul e1 aa) (vmul e2 v), vadd (vmul e1 bb) e2, p).

(** [ffn_one] *)
Definition ffn_one (x sx ln_w ln_b k_mix r_mix : vec) (kw vw rw : mat)
  : vec * vec :=
  let xx := layer_norm eps x ln_w ln_b in
  let kx := token_shift xx sx k_mix in
  let rx := token_shift xx sx r_mix in
  let r := map sigmoid (vecmat rx rw) in
  let vx := map square (map relu (vecmat kx kw)) in
  let out := vmul r (vecmat vx vw) in
  (vadd x out, xx).

(** [ffn_one_i8] *)
Definition ffn_one_i8 (x sx ln_w ln_b k_mix r_mix : vec)
  (kw vw rw : list (list Z))
  (kmx krx kmy kry vmx vrx vmy vry rmx rrx rmy rry : vec) : vec * vec :=
  let xx := layer_norm eps x ln_w ln_b in
  let kx := token_shift xx sx k_mix in
  let rx := token_shift xx sx r_mix in
  let r := map sigmoid (mm8_one rx rw rmx rrx rmy rry) in
  let vx := map square (map relu (mm8_one kx kw kmx krx kmy kry)) in
  let out := vmul r (mm8_one vx vw vmx vrx vmy vry) in
  (vadd x out, xx).

(** [ffn_seq] *)
Definition ffn_seq (x : mat) (sx ln_w ln_b k_mix r_mix : vec)
  (kw vw rw : mat) : mat * vec :=
  let xx := map (fun row => layer_norm eps row ln_w ln_b) x in
  let sx := sx :: all_but_last xx in
  let kx := zipWith (fun a s => token_shift a s k_mix) xx sx in
  let rx := zipWith (fun a s => token_shift a s r_mix) xx sx in
  let r := map (map sigmoid) (matmat rx rw) in
  let vx := map (map square) (map (map relu) (matmat kx kw)) in
  let out := zipWith vmul r (matmat vx vw) in
  (zipWith vadd x out, last_row xx).

(** [ffn_seq_i8] *)
Definition ffn_seq_i8 (x : mat) (sx ln_w ln_b k_mix r_mix : vec)
  (kw vw rw : list (list Z))
  (kmx krx kmy kry vmx vrx vmy vry rmx rrx rmy rry : vec) : mat * vec :=
  let xx := map (fun row => layer_norm eps row ln_w ln_b) x in
  let sx := sx :: all_but_last xx in
  let kx := zipWith (fun a s => token_shift a s k_mix) xx sx in
  let rx := zipWith (fun a s => token_shift a s r_mix) xx sx in
  let r := map (map sigmoid) (mm8_seq rx rw rmx rrx rmy rry) in
  let vx := map (map square)
              (map (map relu) (mm8_seq kx kw kmx krx kmy kry)) in
  let out := zipWith vmul r (mm8_seq vx vw vmx vrx vmy vry) in
  (zipWith vadd x out, last_row xx).

(** [att_one]; the sixteen correction arguments, unused here and filled
    with [x] by [forward], are left out. *)
Definition att_one (x sx aa bb pp ln_w ln_b k_mix v_mix r_mix
  t_decay t_first : vec) (kw vw rw ow : mat)
  : vec * vec * vec * vec * vec :=
  let xx := layer_norm eps x ln_w ln_b in
  let kx := token_shift xx sx k_mix in
  let vx := token_shift xx sx v_mix in
  let rx := token_shift xx sx r_mix in
  let r := map sigmoid (vecmat rx rw) in
  let k := vecmat kx kw in
  let v := vecmat vx vw in
  let wkv := wkv_out t_first k v aa bb pp in
  let '(aa', bb', p) := wkv_next t_decay k v aa bb pp in
  let out := vecmat (vmul r wkv) ow in
  (vadd x out, xx, aa', bb', p).

(** [att_one_i8] *)
Definition att_one_i8 (x sx aa bb pp ln_w ln_b k_mix v_mix r_mix
  t_decay t_first : vec) (kw vw rw ow : list (list Z))
  (kmx krx kmy kry vmx vrx vmy vry rmx rrx rmy rry omx orx omy ory : vec)
  : vec * vec * vec * vec * vec :=
  let xx := layer_norm eps x ln_w ln_b in
  let kx := token_shift xx sx k_mix in
  let vx := token_shift xx sx v_mix in
  let rx := token_shift xx sx r_mix in
  let r := map sigmoid (mm8_one rx rw rmx rrx rmy rry) in
  let k := mm8_one kx kw kmx krx kmy kry in
  let v := mm8_one vx vw vmx vrx vmy vry in
  let wkv := wkv_out t_first k v aa bb pp in
  let '(aa', bb', p) := wkv_next t_decay k v aa bb pp in
  let out := mm8_one (vmul r wkv) ow omx orx omy ory in
  (vadd x out, xx, aa', bb', p).

(** The loop [for t in range(T)] of [att_seq], lines 526-540: row [t] of
    the buffer [sx] is overwritten, and [aa], [bb], [pp] are rebound. *)
Fixpoint wkv_loop (t_decay t_first : vec) (k v : mat) (ts : list nat)
  (st : mat * vec * vec * vec) : mat * vec * vec * vec :=
  match ts with
  | [] => st
  | t :: rest =>
      let '(sx, aa, bb, pp) := st in
      let kk := nth t k [] in
      let vv := nth t v [] in
      let sx' := setitem sx t (wkv_out t_first kk vv aa bb pp) in
      let '(aa', bb', p) := wkv_next t_decay kk vv aa bb pp in
      wkv_loop t_decay t_first k v rest (sx', aa', bb', p)
  end.

(** [att_seq] *)
Definition att_seq (x : mat) (sx aa bb pp ln_w ln_b k_mix v_mix r_mix
  t_decay t_first : vec) (kw vw rw ow : mat)
  : mat * vec * vec * vec * vec :=
  let xx := map (fun row => layer_norm eps row ln_w ln_b) x in
  let sx := sx :: all_but_last xx in
  let kx := zipWith (fun a s => token_shift a s k_mix) xx sx in
  let vx := zipWith (fun a s => token_shift a s v_mix) xx sx in
  let rx := zipWith (fun a s => token_shift a s r_mix) xx sx in
  let r := map (map sigmoid) (matmat rx rw) in
  let k := matmat kx kw in
  let v := matmat vx vw in
  let T := length x in
  let '(sx, aa, bb, pp) :=
    wkv_loop t_decay t_first k v (seq 0 T) (sx, aa, bb, pp) in
  let out := matmat (zipWith vmul r sx) ow in
  (zipWith vadd x out, last_row xx, aa, bb, pp).

(** [att_seq_i8] *)
Definition att_seq_i8 (x : mat) (sx aa bb pp ln_w ln_b k_mix v_mix r_mix
  t_decay t_first : vec) (kw vw rw ow : list (list Z))
  (kmx krx kmy kry vmx vrx vmy vry rmx rrx rmy rry omx orx omy ory : vec)
  : mat * vec * vec * vec * vec :=
  let xx := map (fun row => layer_norm eps row ln_w ln_b) x in
  let sx := sx :: all_but_last xx in
  let kx := zipWith (fun a s => token_shift a s k_mix) xx sx in
  let vx := zipWith (fun a s => token_shift a s v_mix) xx sx in
  let rx := zipWith (fun a s => token_shift a s r_mix) xx sx in
  let r := map (map sigmoid) (mm8_seq rx rw rmx rrx rmy rry) in
  let k := mm8_seq kx kw kmx krx kmy kry in
  let v := mm8_seq vx vw vmx vrx vmy vry in
  let T := length x in
  let '(sx, aa, bb, pp) :=
    wkv_loop t_decay t_first k v (seq 0 T) (sx, aa, bb, pp) in
  let out := mm8_seq (zipWith vmul r sx) ow omx orx omy ory in
  (zipWith vadd x out, last_row xx, aa, bb, pp).

(** Modelled from the spec: the fused operator [torch.ops.rwkv.wkv_forward]
    behind [cuda_wkv] is not part of the Python source; the specification
    requires it to reproduce the per-step semantics of the loop of
    [att_seq] given (decay, bias, key, value, aa, bb, pp).  [y] starts as
    [torch.empty((T, C))]. *)
Definition cuda_wkv (T C : nat) (w u : vec) (k v : mat) (aa bb pp : vec)
  : mat * vec * vec * vec :=
  let y := repeat (zeros C) T in
  wkv_loop w u k v (seq 0 T) (y, aa, bb, pp).

(** [cuda_att_seq] *)
Definition cuda_att_seq (x : mat) (sx aa bb pp ln_w ln_b k_mix v_mix r_mix
  t_decay t_first : vec) (kw vw rw ow : mat)
  : mat * vec * vec * vec * vec :=
  let T := length x in
  let C := ncols x in
  let xx := map (fun row => layer_norm eps row ln_w ln_b) x in
  let sx := sx :: all_but_last xx in
  let kx := zipWith (fun a s => token_shift a s k_mix) xx sx in
  let vx := zipWith (fun a s => token_shift a s v_mix) xx sx in
  let rx := zipWith (fun a s => token_shift a s r_mix) xx sx in
  let r := map (map sigmoid) (matmat rx rw) in
  let k := matmat kx kw in
  let v := matmat vx vw in
  let '(y, aa, bb, pp) := cuda_wkv T C t_decay t_first k v aa bb pp in
  let out := matmat (zipWith vmul r y) ow in
  (zipWith vadd x out, last_row xx, aa, bb, pp).

(** [cuda_att_seq_i8] *)
Definition cuda_att_seq_i8 (x : mat) (sx aa bb pp ln_w ln_b k_mix v_mix
  r_mix t_decay t_first : vec) (kw vw rw ow : list (list Z))
  (kmx krx kmy kry vmx vrx vmy vry rmx rrx rmy rry omx orx omy ory : vec)
  : mat * vec * vec * vec * vec :=
  let T := length x in
  let C := ncols x in
  let xx := map (fun row => layer_norm eps row ln_w ln_b) x in
  let sx := sx :: all_but_last xx in
  let kx := zipWith (fun a s => token_shift a s k_mix) xx sx in
  let vx := zipWith (fun a s => token_shift a s v_mix) xx sx in
  let rx := zipWith (fun a s => token_shift a s r_mix) xx sx in
  let r := map (map sigmoid) (mm8_seq rx rw rmx rrx rmy rry) in
  let k := mm8_seq kx kw kmx krx kmy kry in
  let v := mm8_seq vx vw vmx vrx vmy vry in
  let '(y, aa, bb, pp) := cuda_wkv T C t_decay t_first k v aa bb pp in
  let out := mm8_seq (zipWith vmul r y) ow omx orx omy ory in
  (zipWith vadd x out, last_row xx, aa, bb, pp).

(** [w[key + '_mx']] and its companions exist only for a quantized
    matrix. *)
Definition corrections (key : string) (l : linear) : result mm8w :=
  match l with
  | Quant q => Ok q
  | Dense _ => Raise (KeyError (key ++ "_mx"))
  end.

(** The right operand of [@] must be a float matrix. *)
Definition float_matrix (l : linear) : result mat :=
  match l with
  | Dense m => Ok m
  | Quant _ => Raise RuntimeError
  end.

Definition is_uint8 (t : Strategy.tyval) : bool :=
  Strategy.tyval_eqb t (Strategy.TyD Strategy.uint8).

(** [state[i*5+k]] *)
Definition slot_index (i k : nat) : nat := i * 5 + k.

(** Lines 655-692 of [forward]: the attention call of layer [i] and the
    assignment of [x] and of the state slots 0-3. *)
Definition att_stage (self : RWKV) (i : nat) (dd : Strategy.slot)
  (b : block) (x : act) (state : list vec) : result (act * list vec) :=
  let att := "blocks." ++ str_of_int (Z.of_nat i) ++ ".att." in
  if is_uint8 (Strategy.wtype dd) then
    kq <- corrections (att ++ "key.weight") (att_key_weight b) ;;
    vq <- corrections (att ++ "value.weight") (att_value_weight b) ;;
    rq <- corrections (att ++ "receptance.weight")
            (att_receptance_weight b) ;;
    oq <- corrections (att ++ "output.weight") (att_output_weight b) ;;
    s0 <- getitem state (Z.of_nat (slot_index i 0)) ;;
    s1 <- getitem state (Z.of_nat (slot_index i 1)) ;;
    s2 <- getitem state (Z.of_nat (slot_index i 2)) ;;
    s3 <- getitem state (Z.of_nat (slot_index i 3)) ;;
    let '(x', n0, n1, n2, n3) :=
      match x with
      | One xv =>
          let '(y, n0, n1, n2, n3) :=
            att_one_i8 xv s0 s1 s2 s3 (ln1_weight b) (ln1_bias b)
              (att_time_mix_k b) (att_time_mix_v b) (att_time_mix_r b)
              (att_time_decay b) (att_time_first b)
              (q_w kq) (q_w vq) (q_w rq) (q_w oq)
              (q_mx kq) (q_rx kq) (q_my kq) (q_ry kq)
              (q_mx vq) (q_rx vq) (q_my vq) (q_ry vq)
              (q_mx rq) (q_rx rq) (q_my rq) (q_ry rq)
              (q_mx oq) (q_rx oq) (q_my oq) (q_ry oq) in
          (One y, n0, n1, n2, n3)
      | Seq xm =>
          let ATT :=
            if contains (Strategy.device dd) "cuda" && RWKV_CUDA_ON self
            then cuda_att_seq_i8 else att_seq_i8 in
          let '(y, n0, n1, n2, n3) :=
            ATT xm s0 s1 s2 s3 (ln1_weight b) (ln1_bias b)
              (att_time_mix_k b) (att_time_mix_v b) (att_time_mix_r b)
              (att_time_decay b) (att_time_first b)
              (q_w kq) (q_w vq) (q_w rq) (q_w oq)
              (q_mx kq) (q_rx kq) (q_my kq) (q_ry kq)
              (q_mx vq) (q_rx vq) (q_my vq) (q_ry vq)
              (q_mx rq) (q_rx rq) (q_my rq) (q_ry rq)
              (q_mx oq) (q_rx oq) (q_my oq) (q_ry oq) in
          (Seq y, n0, n1, n2, n3)
      end in
    Ok (x', setitem (setitem (setitem (setitem state
              (slot_index i 0) n0) (slot_index i 1) n1)
              (slot_index i 2) n2) (slot_index i 3) n3)
  else
    s0 <- getitem state (Z.of_nat (slot_index i 0)) ;;
    s1 <- getitem state (Z.of_nat (slot_index i 1)) ;;
    s2 <- getitem state (Z.of_nat (slot_index i 2)) ;;
    s3 <- getitem state (Z.of_nat (slot_index i 3)) ;;
    kw <- float_matrix (att_key_weight b) ;;
    vw <- float_matrix (att_value_weight b) ;;
    rw <- float_matrix (att_receptance_weight b) ;;
    ow <- float_matrix (att_output_weight b) ;;
    let '(x', n0, n1, n2, n3) :=
      match x with
      | One xv =>
          let '(y, n0, n1, n2, n3) :=
            att_one xv s0 s1 s2 s3 (ln1_weight b) (ln1_bias b)
              (att_time_mix_k b) (att_time_mix_v b) (att_time_mix_r b)
              (att_time_decay b) (att_time_first b) kw vw rw ow in
          (One y, n0, n1, n2, n3)
      | Seq xm =>
          let ATT :=
            if contains (Strategy.device dd) "cuda" && RWKV_CUDA_ON self
            then cuda_att_seq else att_seq in
          let '(y, n0, n1, n2, n3) :=
            ATT xm s0 s1 s2 s3 (ln1_weight b) (ln1_bias b)
              (att_time_mix_k b) (att_time_mix_v b) (att_time_mix_r b)
              (att_time_decay b) (att_time_first b) kw vw rw ow in
          (Seq y, n0, n1, n2, n3)
      end in
    Ok (x', setitem (setitem (setitem (setitem state
              (slot_index i 0) n0) (slot_index i 1) n1)
              (slot_index i 2) n2) (slot_index i 3) n3).

(** Lines 694-723 of [forward]: the FFN call of layer [i] and the
    assignment of [x] and of the state slot 4. *)
Definition ffn_stage (self : RWKV) (i : nat) (dd : Strategy.slot)
  (b : block) (x : act) (state : list vec) : result (act * list vec) :=
  let ffn := "blocks." ++ str_of_int (Z.of_nat i) ++ ".ffn." in
  if is_uint8 (Strategy.wtype dd) then
    kq <- corrections (ffn ++ "key.weight") (ffn_key_weight b) ;;
    vq <- corrections (ffn ++ "value.weight") (ffn_value_weight b) ;;
    rq <- corrections (ffn ++ "receptance.weight")
            (ffn_receptance_weight b) ;;
    s4 <- getitem state (Z.of_nat (slot_index i 4)) ;;
    let '(x', n4) :=
      match x with
      | One xv =>
          let '(y, n4) :=
            ffn_one_i8 xv s4 (ln2_weight b) (ln2_bias b)
              (ffn_time_mix_k b) (ffn_time_mix_r b)
              (q_w kq) (q_w vq) (q_w rq)
              (q_mx kq) (q_rx kq) (q_my kq) (q_ry kq)
              (q_mx vq) (q_rx vq) (q_my vq) (q_ry vq)
              (q_mx rq) (q_rx rq) (q_my rq) (q_ry rq) in
          (One y, n4)
      | Seq xm =>
          let '(y, n4) :=
            ffn_seq_i8 xm s4 (ln2_weight b) (ln2_bias b)
              (ffn_time_mix_k b) (ffn_time_mix_r b)
              (q_w kq) (q_w vq) (q_w rq)
              (q_mx kq) (q_rx kq) (q_my kq) (q_ry kq)
              (q_mx vq) (q_rx vq) (q_my vq) (q_ry vq)
              (q_mx rq) (q_rx rq) (q_my rq) (q_ry rq) in
          (Seq y, n4)
      end in
    Ok (x', setitem state (slot_index i 4) n4)
  else
    s4 <- getitem state (Z.of_nat (slot_index i 4)) ;;
    kw <- float_matrix (ffn_key_weight b) ;;
    vw <- float_matrix (ffn_value_weight b) ;;
    rw <- float_matrix (ffn_receptance_weight b) ;;
    let '(x', n4) :=
      match x with
      | One xv =>
          let '(y, n4) :=
            ffn_one xv s4 (ln2_weight b) (ln2_bias b)
              (ffn_time_mix_k b) (ffn_time_mix_r b) kw vw rw in
          (One y, n4)
      | Seq xm =>
          let '(y, n4) :=
            ffn_seq xm s4 (ln2_weight b) (ln2_bias b)
              (ffn_time_mix_k b) (ffn_time_mix_r b) kw vw rw in
          (Seq y, n4)
      end in
    Ok (x', setitem state (slot_index i 4) n4).

(** [x / 2] *)
Definition halve (x : act) : act :=
  match x with
  | One v => One (vdivc v 2)
  | Seq m => Seq (mdivc m 2)
  end.

(** Lines 725-727. *)
Definition rescale (self : RWKV) (i : nat) (x : act) : act :=
  if (0 <? RESCALE_LAYER self)%nat then
    if ((i + 1) mod RESCALE_LAYER self =? 0)%nat then halve x else x
  else x.

(** [self.strategy[i]] followed by an attribute access. *)
Definition plan_entry (self : RWKV) (i : nat) : result Strategy.slot :=
  dd <- getitem (Strategy.strategy (strategy self)) (Z.of_nat i) ;;
  match dd with
  | Some d => Ok d
  | None => Raise AttributeError
  end.

(** Lines 635-727: [for i in range(args.n_layer)], over the blocks from
    index [i] on. *)
Fixpoint layers (self : RWKV) (i : nat) (bs : list block) (x : act)
  (state : list vec) : result (act * list vec) :=
  match bs with
  | [] => Ok (x, state)
  | b :: rest =>
      dd <- plan_entry self i ;;
      '(x1, state1) <- att_stage self i dd b x state ;;
      '(x2, state2) <- ffn_stage self i dd b x1 state1 ;;
      layers self (S i) rest (rescale self i x2) state2
  end.

(** Lines 619-629: the state created when the caller passes [None]. *)
Fixpoint init_state (self : RWKV) (idx : list nat) : result (list vec) :=
  match idx with
  | [] => Ok []
  | i :: rest =>
      _ <- plan_entry self i ;;
      tl <- init_state self rest ;;
      Ok ([zeros (n_embd self); zeros (n_embd self); zeros (n_embd self);
           map (fun z => z - 10 ^ 30) (zeros (n_embd self));
           zeros (n_embd self)] ++ tl)%list
  end.

Fixpoint lookup_rows (m : mat) (tokens : list Z) : result mat :=
  match tokens with
  | [] => Ok []
  | t :: rest =>
      r <- getitem m t ;; rs <- lookup_rows m rest ;; Ok (r :: rs)
  end.

(** Lines 729-742: final normalization and output projection. *)
Definition head (self : RWKV) (x : act) (full_output : bool) : act :=
  let x :=
    match x with
    | Seq m => if negb full_output then One (last_row m) else Seq m
    | One v => One v
    end in
  let ln := fun v => layer_norm eps v (ln_out_weight (w self))
                       (ln_out_bias (w self)) in
  match x, head_weight (w self) with
  | One v, Dense hw => One (vecmat (ln v) hw)
  | Seq m, Dense hw => Seq (matmat (map ln m) hw)
  | One v, Quant q =>
      One (mm8_one (ln v) (q_w q) (q_mx q) (q_rx q) (q_my q) (q_ry q))
  | Seq m, Quant q =>
      Seq (mm8_seq (map ln m) (q_w q) (q_mx q) (q_rx q) (q_my q) (q_ry q))
  end.

(** [forward(self, tokens, state, full_output)] *)
Definition forward (self : RWKV) (tokens : list Z)
  (state : option (list vec)) (full_output : bool)
  : result (act * list vec) :=
  state <- (match state with
            | None => init_state self (seq 0 (n_layer self))
            | Some s => Ok s
            end) ;;
  let seq_mode := (1 <? length tokens)%nat in
  x <- (if seq_mode
        then m <- lookup_rows (emb_weight (w self)) tokens ;; Ok (Seq m)
        else t0 <- getitem tokens 0 ;;
             r <- getitem (emb_weight (w self)) t0 ;; Ok (One r)) ;;
  '(x, state) <- layers self 0 (blocks (w self)) x state ;;
  _ <- plan_entry self (n_layer self) ;;
  Ok (head self x full_output, state).

(** ** The value side of the loading loop, lines 237-282 *)

(** The tensors of a fresh checkpoint; 2-D projections have shape
    [out, in], and the [time_mix_*] vectors are shown squeezed. *)
Record raw_block : Type := mkRawBlock {
  raw_ln1_weight : vec;
  raw_ln1_bias : vec;
  raw_att_time_mix_k : vec;
  raw_att_time_mix_v : vec;
  raw_att_time_mix_r : vec;
  raw_att_time_decay : vec;
  raw_att_time_first : vec;
  raw_att_key_weight : mat;
  raw_att_value_weight : mat;
  raw_att_receptance_weight : mat;
  raw_att_output_weight : mat;
  raw_ln2_weight : vec;
  raw_ln2_bias : vec;
  raw_ffn_time_mix_k : vec;
  raw_ffn_time_mix_r : vec;
  raw_ffn_key_weight : mat;
  raw_ffn_value_weight : mat;
  raw_ffn_receptance_weight : mat
}.

Record raw_weights : Type := mkRawWeights {
  raw_emb_weight : mat;
  raw_ln0_weight : vec;
  raw_ln0_bias : vec;
  raw_blocks : list raw_block;
  raw_ln_out_weight : vec;
  raw_ln_out_bias : vec;
  raw_head_weight : mat
}.

(** Lines 263-282 for a 2-D projection of layer [layer_id]; [rescaled]
    is ['att.output.weight' in x or 'ffn.value.weight' in x]. *)
Definition place_matrix (RESCALE : nat) (layer_id : nat) (rescaled : bool)
  (WTYPE : Strategy.tyval) (m : mat) : linear :=
  let m1 :=
    if (0 <? RESCALE)%nat && rescaled
    then mdivc m (2 ^ (layer_id / RESCALE)) else m in
  let m2 := transpose m1 in
  if is_uint8 WTYPE then Quant (fixup_tensor_int8 m2) else Dense m2.

(** Lines 260-282 for the eighteen parameters of block [i]. *)
Definition place_block (RESCALE : nat) (i : nat) (dd : Strategy.slot)
  (b : raw_block) : block :=
  let W := Strategy.wtype dd in
  mkBlock
    (raw_ln1_weight b) (raw_ln1_bias b)
    (raw_att_time_mix_k b) (raw_att_time_mix_v b) (raw_att_time_mix_r b)
    (map (fun a => - exp a) (raw_att_time_decay b))
    (raw_att_time_first b)
    (place_matrix RESCALE i false W (raw_att_key_weight b))
    (place_matrix RESCALE i false W (raw_att_value_weight b))
    (place_matrix RESCALE i false W (raw_att_receptance_weight b))
    (place_matrix RESCALE i true W (raw_att_output_weight b))
    (raw_ln2_weight b) (raw_ln2_bias b)
    (raw_ffn_time_mix_k b) (raw_ffn_time_mix_r b)
    (place_matrix RESCALE i false W (raw_ffn_key_weight b))
    (place_matrix RESCALE i true W (raw_ffn_value_weight b))
    (place_matrix RESCALE i false W (raw_ffn_receptance_weight b)).

Fixpoint place_blocks (RESCALE : nat) (st : Strategy.RWKVStrategy)
  (i : nat) (bs : list raw_block) : result (list block) :=
  match bs with
  | [] => Ok []
  | b :: rest =>
      o <- getitem (Strategy.strategy st) (Z.of_nat i) ;;
      dd <- (match o with Some d => Ok d | None => Raise AttributeError end) ;;
      tl <- place_blocks RESCALE st (S i) rest ;;
      Ok (place_block RESCALE i dd b :: tl)
  end.

(** The placed weight set: the embedding folded through [ln0]
    (line 239), every block, [ln_out] and the head. *)
Definition place (RESCALE : nat) (st : Strategy.RWKVStrategy)
  (raw : raw_weights) : result weights :=
  let n := length (raw_blocks raw) in
  bs <- place_blocks RESCALE st 0 (raw_blocks raw) ;;
  o <- getitem (Strategy.strategy st) (Z.of_nat n) ;;
  dd <- (match o with Some d => Ok d | None => Raise AttributeError end) ;;
  Ok (mkWeights
        (map (fun row => layer_norm eps row (raw_ln0_weight raw)
                           (raw_ln0_bias raw)) (raw_emb_weight raw))
        bs
        (raw_ln_out_weight raw) (raw_ln_out_bias raw)
        (place_matrix RESCALE n false (Strategy.wtype dd)
           (raw_head_weight raw))).

(** [self] after loading with the rescale interval [RESCALE]
    (line 230 sets it to 6 or 0). *)
Definition model (cuda_on : bool) (RESCALE : nat)
  (st : Strategy.RWKVStrategy) (raw : raw_weights) : result RWKV :=
  ws <- place RESCALE st raw ;;
  Ok (mkRWKV cuda_on RESCALE (ncols (raw_emb_weight raw)) st ws).

(** ** Notions used to state and prove the theorems about [forward] *)

(** The attention recurrence of lines 526-540 by recursion on the rows of
    [k] and [v]. *)
Fixpoint wkv_rows (t_decay t_first : vec) (k v : mat) (aa bb pp : vec)
  : mat * vec * vec * vec :=
  match k, v with
  | kk :: k', vv :: v' =>
      let out := wkv_out t_first kk vv aa bb pp in
      let '(aa', bb', p) := wkv_next t_decay kk vv aa bb pp in
      let '(outs, a, b, p') := wkv_rows t_decay t_first k' v' aa' bb' p in
      (out :: outs, a, b, p')
  | _, _ => ([], aa, bb, pp)
  end.

(** The float matrix a placed projection stands for. *)
Definition effective (l : linear) : mat :=
  match l with
  | Dense m => m
  | Quant q => dequantize q
  end.

(** The five state tensors of one layer. *)
Definition cell : Type := (vec * vec * vec * vec * vec)%type.

Definition flatten (cs : list cell) : list vec :=
  flat_map (fun c : cell =>
              let '(s0, s1, s2, s3, s4) := c in [s0; s1; s2; s3; s4]) cs.

(** The rescaling of lines 725-727 on one row. *)
Definition rescale_row (self : RWKV) (i : nat) (x : vec) : vec :=
  if (0 <? RESCALE_LAYER self)%nat then
    if ((i + 1) mod RESCALE_LAYER self =? 0)%nat then vdivc x 2 else x
  else x.

(** One layer on one token: attention, FFN and rescaling on the float
    matrices the placed projections stand for. *)
Definition layer_one (self : RWKV) (i : nat) (b : block) (x : vec) (c : cell)
  : vec * cell :=
  let '(s0, s1, s2, s3, s4) := c in
  let '(x1, n0, n1, n2, n3) :=
    att_one x s0 s1 s2 s3 (ln1_weight b) (ln1_bias b)
      (att_time_mix_k b) (att_time_mix_v b) (att_time_mix_r b)
      (att_time_decay b) (att_time_first b)
      (effective (att_key_weight b)) (effective (att_value_weight b))
      (effective (att_receptance_weight b))
      (effective (att_output_weight b)) in
  let '(x2, n4) :=
    ffn_one x1 s4 (ln2_weight b) (ln2_bias b)
      (ffn_time_mix_k b) (ffn_time_mix_r b)
      (effective (ffn_key_weight b)) (effective (ffn_value_weight b))
      (effective (ffn_receptance_weight b)) in
  (rescale_row self i x2, (n0, n1, n2, n3, n4)).

(** A function on one row and a state, run along the rows. *)
Fixpoint map_accum {X Y S} (f : X -> S -> Y * S) (xs : list X) (s : S)
  : list Y * S :=
  match xs with
  | [] => ([], s)
  | x :: xs' =>
      let '(y, s1) := f x s in
      let '(ys, s2) := map_accum f xs' s1 in
      (y :: ys, s2)
  end.

(** The layers from index [i] on, over the cells of those layers. *)
Fixpoint stack_one (self : RWKV) (i : nat) (bs : list block)
  (x : vec) (cs : list cell) : vec * list cell :=
  match bs, cs with
  | b :: bs', c :: cs' =>
      let '(x1, c1) := layer_one self i b x c in
      let '(x2, cs1) := stack_one self (S i) bs' x1 cs' in
      (x2, c1 :: cs1)
  | _, _ => (x, cs)
  end.

(** The same layers on a sequence, layer by layer. *)
Fixpoint stack_rows (self : RWKV) (i : nat) (bs : list block)
  (x : mat) (cs : list cell) : mat * list cell :=
  match bs, cs with
  | b :: bs', c :: cs' =>
      let '(x1, c1) := map_accum (layer_one self i b) x c in
      let '(x2, cs1) := stack_rows self (S i) bs' x1 cs' in
      (x2, c1 :: cs1)
  | _, _ => (x, cs)
  end.

(** The kind of every projection of a block agrees with the weight dtype
    of its plan entry. *)
Definition is_quant (l : linear) : bool :=
  match l with Quant _ => true | Dense _ => false end.

Definition block_ok (dd : Strategy.slot) (b : block) : bool :=
  let u := is_uint8 (Strategy.wtype dd) in
  Bool.eqb (is_quant (att_key_weight b)) u
  && Bool.eqb (is_quant (att_value_weight b)) u
  && Bool.eqb (is_quant (att_receptance_weight b)) u
  && Bool.eqb (is_quant (att_output_weight b)) u
  && Bool.eqb (is_quant (ffn_key_weight b)) u
  && Bool.eqb (is_quant (ffn_value_weight b)) u
  && Bool.eqb (is_quant (ffn_receptance_weight b)) u.

(** The plan has an entry for every block and for the head, and every
    block was placed according to its entry. *)
Fixpoint blocks_ok (self : RWKV) (i : nat) (bs : list block) : bool :=
  match bs with
  | [] => true
  | b :: bs' =>
      match plan_entry self i with
      | Ok dd => block_ok dd b && blocks_ok self (S i) bs'
      | Raise _ => false
      end
  end.

Definition model_ok (self : RWKV) : bool :=
  blocks_ok self 0 (blocks (w self))
  && is_ok (plan_entry self (n_layer self)).

(** Every token indexes a row of the embedding table. *)
Definition tokens_ok (self : RWKV) (tokens : list Z) : bool :=
  forallb (fun t => is_ok (getitem (emb_weight (w self)) t)) tokens.

(** [att_one] as a step on a row and the four attention state tensors. *)
Definition att_step (ln_w ln_b k_mix v_mix r_mix t_decay t_first : vec)
  (kw vw rw ow : mat) (x : vec) (s : vec * vec * vec * vec)
  : vec * (vec * vec * vec * vec) :=
  let '(s0, aa, bb, pp) := s in
  let '(y, n0, n1, n2, n3) :=
    att_one x s0 aa bb pp ln_w ln_b k_mix v_mix r_mix t_decay t_first
      kw vw rw ow in
  (y, (n0, n1, n2, n3)).

(** The body of [att_seq] after its first two lines, on the normalized
    rows [xx] and the shifted rows [sxs]. *)
Definition att_body (k_mix v_mix r_mix t_decay t_first : vec)
  (kw vw rw ow : mat) (x xx sxs : mat) (aa bb pp : vec)
  : mat * vec * vec * vec :=
  let kx := zipWith (fun a s => token_shift a s k_mix) xx sxs in
  let vx := zipWith (fun a s => token_shift a s v_mix) xx sxs in
  let rx := zipWith (fun a s => token_shift a s r_mix) xx sxs in
  let r := map (map sigmoid) (matmat rx rw) in
  let k := matmat kx kw in
  let v := matmat vx vw in
  let '(outs, a, b, p) := wkv_rows t_decay t_first k v aa bb pp in
  (zipWith vadd x (matmat (zipWith vmul r outs) ow), a, b, p).

(** [ffn_one] as a step on a row and the FFN state tensor. *)
Definition ffn_step (ln_w ln_b k_mix r_mix : vec) (kw vw rw : mat)
  (x s : vec) : vec * vec :=
  ffn_one x s ln_w ln_b k_mix r_mix kw vw rw.

(** An activation that holds at least one row. *)
Definition act_nonempty (x : act) : Prop :=
  match x with
  | One _ => True
  | Seq m => m <> []
  end.

(** The attention functions on an activation of either shape. *)
Definition att_act (b : block) (x : act) (s0 s1 s2 s3 : vec)
  : act * vec * vec * vec * vec :=
  match x with
  | One v =>
      let '(y, n0, n1, n2, n3) :=
        att_one v s0 s1 s2 s3 (ln1_weight b) (ln1_bias b)
          (att_time_mix_k b) (att_time_mix_v b) (att_time_mix_r b)
          (att_time_decay b) (att_time_first b)
          (effective (att_key_weight b)) (effective (att_value_weight b))
          (effective (att_receptance_weight b))
          (effective (att_output_weight b)) in
      (One y, n0, n1, n2, n3)
  | Seq m =>
      let '(y, n0, n1, n2, n3) :=
        att_seq m s0 s1 s2 s3 (ln1_weight b) (ln1_bias b)
          (att_time_mix_k b) (att_time_mix_v b) (att_time_mix_r b)
          (att_time_decay b) (att_time_first b)
          (effective (att_key_weight b)) (effective (att_value_weight b))
          (effective (att_receptance_weight b))
          (effective (att_output_weight b)) in
      (Seq y, n0, n1, n2, n3)
  end.

(** The FFN functions on an activation of either shape. *)
Definition ffn_act (b : block) (x : act) (s4 : vec) : act * vec :=
  match x with
  | One v =>
      let '(y, n4) :=
        ffn_one v s4 (ln2_weight b) (ln2_bias b)
          (ffn_time_mix_k b) (ffn_time_mix_r b)
          (effective (ffn_key_weight b)) (effective (ffn_value_weight b))
          (effective (ffn_receptance_weight b)) in
      (One y, n4)
  | Seq m =>
      let '(y, n4) :=
        ffn_seq m s4 (ln2_weight b) (ln2_bias b)
          (ffn_time_mix_k b) (ffn_time_mix_r b)
          (effective (ffn_key_weight b)) (effective (ffn_value_weight b))
          (effective (ffn_receptance_weight b)) in
      (Seq y, n4)
  end.

(** One layer on an activation of either shape. *)
Definition layer_act (self : RWKV) (i : nat) (b : block) (x : act) (c : cell)
  : act * cell :=
  match x with
  | One v => let '(y, c') := layer_one self i b v c in (One y, c')
  | Seq m =>
      let '(y, c') := map_accum (layer_one self i b) m c in (Seq y, c')
  end.

(** The whole stack on an activation of either shape. *)
Definition stack_act (self : RWKV) (i : nat) (bs : list block) (x : act) (cs : list cell)
  : act * list cell :=
  match x with
  | One v => let '(y, cs') := stack_one self i bs v cs in (One y, cs')
  | Seq m => let '(y, cs') := stack_rows self i bs m cs in (Seq y, cs')
  end.

(** The divisor [2 ** int(layer_id // RESCALE_LAYER)] of line 264; with
    the interval [K] it is also the factor by which the residual stream
    has been divided when it enters layer [i]. *)
Definition scale (K i : nat) : R := 2 ^ (i / K).

(** Layer normalization does not see a division of its input by [s]. *)
Definition ln_invariant (s : R) : Prop :=
  forall v w b : vec, layer_norm eps (vdivc v s) w b = layer_norm eps v w b.

(** The scores of the last position of an output of [forward]. *)
Definition final_scores (x : act) : vec :=
  match x with
  | One v => v
  | Seq m => last_row m
  end.

(** Single-token decoding: [forward] on one token at a time, each call
    given the state the previous one returned; the scores are those of
    the last call. *)
Fixpoint decode (self : RWKV) (tokens : list Z) (state : list vec)
  : result (act * list vec) :=
  match tokens with
  | [] => Raise IndexError
  | [t] => forward self [t] (Some state) false
  | t :: rest =>
      '(_, state') <- forward self [t] (Some state) false ;;
      decode self rest state'
  end.

End WithEps.

(** A model with one block, one channel and a vocabulary of two
    tokens, used as a test input. *)
Definition tiny_block : block :=
  mkBlock [1] [0] [0] [0] [0] [0] [0]
    (Dense [[0]]) (Dense [[0]]) (Dense [[0]]) (Dense [[0]])
    [1] [0] [0] [0]
    (Dense [[0]]) (Dense [[0]]) (Dense [[0]]).

Definition tiny_model : RWKV :=
  mkRWKV false 0 1 Strategy.strategy_on_cpu
    (mkWeights [[1]; [2]] [tiny_block] [1] [0] (Dense [[1]])).

(** The same weights with the CUDA extension on, under ["cuda fp16"]
    (loaded with the rescale interval 6, as every fp16 strategy is). *)
Definition tiny_cuda_model : RWKV :=
  mkRWKV true 6 1 Strategy.strategy_cuda_fp16
    (mkWeights [[1]; [2]] [tiny_block] [1] [0] (Dense [[1]])).

(** A checkpoint of six blocks with two channels and one token, whose
    attention-output and FFN-value projections are zero, so that every
    block adds nothing to the residual stream; the head is the identity. *)
Definition zero2 : mat := [[0; 0]; [0; 0]].

Definition flat_raw_block : raw_block :=
  mkRawBlock [1; 1] [0; 0] [0; 0] [0; 0] [0; 0] [0; 0] [0; 0]
    zero2 zero2 zero2 zero2
    [1; 1] [0; 0] [0; 0] [0; 0]
    zero2 zero2 zero2.

Definition six_layer_raw : raw_weights :=
  mkRawWeights [[1; -1]] [0; 0] [1; -1] (repeat flat_raw_block 6)
    [1; 1] [0; 0] [[1; 0]; [0; 1]].

End Engine.

(* ================================================================== *)
(** * Tensor objects: what [forward] creates and what it writes         *)
(* ================================================================== *)

Module Alias.

Import Py Tensor Quant Engine.
Local Open Scope string_scope.
Local Open Scope nat_scope.

(** A tensor object is named by its location in the store, which holds
    the current value of every tensor object created so far, in order
    of creation.  The state is a Python list of tensor objects: a list
    of locations.  The activations [x] and the temporaries of a call are
    neither written in place nor kept in the state, and are carried as
    values. *)
Definition loc : Type := nat.
Definition heap : Type := list act.

(** A computation on the store that returns or raises. *)
Definition M (A : Type) : Type := heap -> result A * heap.

Definition ret {A} (a : A) : M A := fun h => (Ok a, h).

Definition bind {A B} (m : M A) (k : A -> M B) : M B :=
  fun h => match m h with
           | (Ok a, h') => k a h'
           | (Raise e, h') => (Raise e, h')
           end.

Definition lift {A} (r : result A) : M A := fun h => (r, h).

Declare Scope alias_scope.
Delimit Scope alias_scope with alias.
Notation "x <- m ;; k" := (bind m (fun x => k))
  (at level 61, m at next level, right associativity) : alias_scope.
Notation "' pat <- m ;; k" := (bind m (fun x => match x with pat => k end))
  (at level 61, pat pattern, m at next level, right associativity)
  : alias_scope.
Local Open Scope alias_scope.

(** A torch operation that returns a new tensor. *)
Definition alloc (t : act) : M loc :=
  fun h => (Ok (length h), (h ++ [t])%list).

Definition read (l : loc) : M act :=
  fun h => match nth_error h l with
           | Some t => (Ok t, h)
           | None => (Raise RuntimeError, h)
           end.

Definition read_vec (l : loc) : M vec :=
  t <- read l ;;
  match t with
  | One v => ret v
  | Seq _ => lift (Raise RuntimeError)
  end.

Definition read_mat (l : loc) : M mat :=
  t <- read l ;;
  match t with
  | Seq m => ret m
  | One _ => lift (Raise RuntimeError)
  end.

(** [buf[t] = row]: the row is stored into the tensor object [buf]. *)
Definition write_row (buf : loc) (t : nat) (row : vec) : M unit :=
  fun h => match nth_error h buf with
           | Some (Seq m) => (Ok tt, setitem h buf (Seq (setitem m t row)))
           | _ => (Raise RuntimeError, h)
           end.

(** The content of the tensor object [l] is replaced. *)
Definition write (l : loc) (t : act) : M unit :=
  fun h => match nth_error h l with
           | Some _ => (Ok tt, setitem h l t)
           | None => (Raise RuntimeError, h)
           end.

(** The signature of [torch.ops.rwkv.wkv_forward(B, T, C, w, u, k, v, y,
    aa, bb, pp)]: the operator is given the tensor objects [y], [aa],
    [bb], [pp]. *)
Definition kernel : Type :=
  nat -> nat -> nat -> vec -> vec -> mat -> mat ->
  loc -> loc -> loc -> loc -> M unit.

Section WithKernel.

Variable eps : R.

(** The operator of the compiled extension; the Python source does not
    say what it does to the store. *)
Variable wkv_forward : kernel.

(** [att_one] and [att_one_i8], lines 463-510: [f] is their arithmetic
    on the values; each of [xx], [e1 * aa + e2 * v], [e1 * bb + e2] and
    [p] is the result of an operation, a new tensor. *)
Definition att_one
  (f : vec -> vec -> vec -> vec -> vec * vec * vec * vec * vec)
  (sx aa bb pp : loc) : M (vec * loc * loc * loc * loc) :=
  s0 <- read_vec sx ;;
  s1 <- read_vec aa ;;
  s2 <- read_vec bb ;;
  s3 <- read_vec pp ;;
  let '(y, n0, n1, n2, n3) := f s0 s1 s2 s3 in
  xx <- alloc (One n0) ;;
  p <- alloc (One n3) ;;
  aa' <- alloc (One n1) ;;
  bb' <- alloc (One n2) ;;
  ret (y, xx, aa', bb', p).

(** Lines 525-540: the loop of [att_seq]; [sx[t] = ...] writes into the
    tensor object [sx], and [aa], [bb], [pp] are rebound to new tensors
    at every step. *)
Fixpoint wkv_loop (t_decay t_first : vec) (k v : mat) (sx : loc)
  (ts : list nat) (st : loc * loc * loc) : M (loc * loc * loc) :=
  match ts with
  | [] => ret st
  | t :: rest =>
      let '(aa, bb, pp) := st in
      a <- read_vec aa ;;
      b <- read_vec bb ;;
      p <- read_vec pp ;;
      let kk := nth t k [] in
      let vv := nth t v [] in
      _ <- write_row sx t (wkv_out t_first kk vv a b p) ;;
      let '(a', b', p') := wkv_next t_decay kk vv a b p in
      pp' <- alloc (One p') ;;
      aa' <- alloc (One a') ;;
      bb' <- alloc (One b') ;;
      wkv_loop t_decay t_first k v sx rest (aa', bb', pp')
  end.

(** [att_seq] and [att_seq_i8], lines 513-570: [by_k x] is [x @ kw] or
    [mm8_seq(x, kw, ...)], and so on.  [torch.cat] returns a new tensor,
    to which [sx] is rebound; [xx[-1,:]] is a view of the new [xx]. *)
Definition att_seq (by_k by_v by_r by_o : mat -> mat) (x : mat)
  (sx aa bb pp : loc)
  (ln_w ln_b k_mix v_mix r_mix t_decay t_first : vec)
  : M (mat * loc * loc * loc * loc) :=
  s0 <- read_vec sx ;;
  let xx := map (fun row => layer_norm eps row ln_w ln_b) x in
  let cat := s0 :: all_but_last xx in
  sx <- alloc (Seq cat) ;;
  let kx := zipWith (fun a s => token_shift a s k_mix) xx cat in
  let vx := zipWith (fun a s => token_shift a s v_mix) xx cat in
  let rx := zipWith (fun a s => token_shift a s r_mix) xx cat in
  let r := map (map sigmoid) (by_r rx) in
  let k := by_k kx in
  let v := by_v vx in
  let T := length x in
  '(aa, bb, pp) <- wkv_loop t_decay t_first k v sx (seq 0 T) (aa, bb, pp) ;;
  sxm <- read_mat sx ;;
  let out := by_o (zipWith vmul r sxm) in
  last <- alloc (One (last_row xx)) ;;
  ret (zipWith vadd x out, last, aa, bb, pp).

(** [cuda_wkv], lines 41-51; [k_dtype] is the dtype of [k].  The
    tensors returned as [aa], [bb], [pp] are the arguments. *)
Definition cuda_wkv (k_dtype : Strategy.tyval) (T C : nat) (w u : vec)
  (k v : mat) (aa bb pp : loc) : M (loc * loc * loc * loc) :=
  _ <- lift (if (Nat.min C 32 =? 0) then Raise ZeroDivisionError
             else if ((1 * C) mod Nat.min C 32 =? 0) then Ok tt
                  else Raise AssertionError) ;;
  _ <- lift (if Strategy.tyval_eqb k_dtype (Strategy.TyD Strategy.float16)
             then Ok tt else Raise AssertionError) ;;
  y <- alloc (Seq (repeat (zeros C) T)) ;;
  _ <- wkv_forward 1 T C w u k v y aa bb pp ;;
  ret (y, aa, bb, pp).

(** [cuda_att_seq] and [cuda_att_seq_i8], lines 575-607. *)
Definition cuda_att_seq (k_dtype : Strategy.tyval)
  (by_k by_v by_r by_o : mat -> mat) (x : mat) (sx aa bb pp : loc)
  (ln_w ln_b k_mix v_mix r_mix t_decay t_first : vec)
  : M (mat * loc * loc * loc * loc) :=
  let T := length x in
  let C := ncols x in
  s0 <- read_vec sx ;;
  let xx := map (fun row => layer_norm eps row ln_w ln_b) x in
  let cat := s0 :: all_but_last xx in
  let kx := zipWith (fun a s => token_shift a s k_mix) xx cat in
  let vx := zipWith (fun a s => token_shift a s v_mix) xx cat in
  let rx := zipWith (fun a s => token_shift a s r_mix) xx cat in
  let r := map (map sigmoid) (by_r rx) in
  let k := by_k kx in
  let v := by_v vx in
  '(y, aa, bb, pp) <- cuda_wkv k_dtype T C t_decay t_first k v aa bb pp ;;
  ym <- read_mat y ;;
  let out := by_o (zipWith vmul r ym) in
  last <- alloc (One (last_row xx)) ;;
  ret (zipWith vadd x out, last, aa, bb, pp).

(** [ffn_one], [ffn_seq] and their [_i8] forms, lines 413-458: [f] is
    their arithmetic; the second result is [xx] or a view of it. *)
Definition ffn {X} (f : vec -> X * vec) (sx : loc) : M (X * loc) :=
  s4 <- read_vec sx ;;
  let '(y, n4) := f s4 in
  xx <- alloc (One n4) ;;
  ret (y, xx).

(** The attention call of lines 655-692 once the operands are at hand:
    [one] is the arithmetic of the single-token form, [by_k] ... [by_o]
    the products of the sequence forms. *)
Definition att_call (self : RWKV) (dd : Strategy.slot)
  (one : vec -> vec -> vec -> vec -> vec -> vec * vec * vec * vec * vec)
  (by_k by_v by_r by_o : mat -> mat) (b : block) (x : act)
  (s0 s1 s2 s3 : loc) : M (act * loc * loc * loc * loc) :=
  match x with
  | One xv =>
      '(y, n0, n1, n2, n3) <- att_one (one xv) s0 s1 s2 s3 ;;
      ret (One y, n0, n1, n2, n3)
  | Seq xm =>
      let ATT :=
        if contains (Strategy.device dd) "cuda" && RWKV_CUDA_ON self
        then cuda_att_seq (Strategy.atype dd) else att_seq in
      '(y, n0, n1, n2, n3) <-
        ATT by_k by_v by_r by_o xm s0 s1 s2 s3
          (ln1_weight b) (ln1_bias b)
          (att_time_mix_k b) (att_time_mix_v b) (att_time_mix_r b)
          (att_time_decay b) (att_time_first b) ;;
      ret (Seq y, n0, n1, n2, n3)
  end.

Definition by_int8 (q : mm8w) (x : mat) : mat :=
  mm8_seq x (q_w q) (q_mx q) (q_rx q) (q_my q) (q_ry q).

Definition by_float (m : mat) (x : mat) : mat := matmat x m.

(** Lines 655-692 of [forward]: the attention call of layer [i] and the
    assignment of the state slots 0-3. *)
Definition att_stage (self : RWKV) (i : nat) (dd : Strategy.slot)
  (b : block) (x : act) (state : list loc) : M (act * list loc) :=
  let att := "blocks." ++ str_of_int (Z.of_nat i) ++ ".att." in
  if is_uint8 (Strategy.wtype dd) then
    kq <- lift (corrections (att ++ "key.weight") (att_key_weight b)) ;;
    vq <- lift (corrections (att ++ "value.weight")
                  (att_value_weight b)) ;;
    rq <- lift (corrections (att ++ "receptance.weight")
                  (att_receptance_weight b)) ;;
    oq <- lift (corrections (att ++ "output.weight")
                  (att_output_weight b)) ;;
    s0 <- lift (getitem state (Z.of_nat (slot_index i 0))) ;;
    s1 <- lift (getitem state (Z.of_nat (slot_index i 1))) ;;
    s2 <- lift (getitem state (Z.of_nat (slot_index i 2))) ;;
    s3 <- lift (getitem state (Z.of_nat (slot_index i 3))) ;;
    '(x', n0, n1, n2, n3) <-
      att_call self dd
        (fun xv v0 v1 v2 v3 =>
           att_one_i8 eps xv v0 v1 v2 v3 (ln1_weight b) (ln1_bias b)
             (att_time_mix_k b) (att_time_mix_v b) (att_time_mix_r b)
             (att_time_decay b) (att_time_first b)
             (q_w kq) (q_w vq) (q_w rq) (q_w oq)
             (q_mx kq) (q_rx kq) (q_my kq) (q_ry kq)
             (q_mx vq) (q_rx vq) (q_my vq) (q_ry vq)
             (q_mx rq) (q_rx rq) (q_my rq) (q_ry rq)
             (q_mx oq) (q_rx oq) (q_my oq) (q_ry oq))
        (by_int8 kq) (by_int8 vq) (by_int8 rq) (by_int8 oq)
        b x s0 s1 s2 s3 ;;
    ret (x', setitem (setitem (setitem (setitem state
              (slot_index i 0) n0) (slot_index i 1) n1)
              (slot_index i 2) n2) (slot_index i 3) n3)
  else
    s0 <- lift (getitem state (Z.of_nat (slot_index i 0))) ;;
    s1 <- lift (getitem state (Z.of_nat (slot_index i 1))) ;;
    s2 <- lift (getitem state (Z.of_nat (slot_index i 2))) ;;
    s3 <- lift (getitem state (Z.of_nat (slot_index i 3))) ;;
    kw <- lift (float_matrix (att_key_weight b)) ;;
    vw <- lift (float_matrix (att_value_weight b)) ;;
    rw <- lift (float_matrix (att_receptance_weight b)) ;;
    ow <- lift (float_matrix (att_output_weight b)) ;;
    '(x', n0, n1, n2, n3) <-
      att_call self dd
        (fun xv v0 v1 v2 v3 =>
           Engine.att_one eps xv v0 v1 v2 v3 (ln1_weight b) (ln1_bias b)
             (att_time_mix_k b) (att_time_mix_v b) (att_time_mix_r b)
             (att_time_decay b) (att_time_first b) kw vw rw ow)
        (by_float kw) (by_float vw) (by_float rw) (by_float ow)
        b x s0 s1 s2 s3 ;;
    ret (x', setitem (setitem (setitem (setitem state
              (slot_index i 0) n0) (slot_index i 1) n1)
              (slot_index i 2) n2) (slot_index i 3) n3).

(** Lines 694-723 of [forward]: the FFN call of layer [i] and the
    assignment of the state slot 4. *)
Definition ffn_stage (self : RWKV) (i : nat) (dd : Strategy.slot)
  (b : block) (x : act) (state : list loc) : M (act * list loc) :=
  let ffn_key := "blocks." ++ str_of_int (Z.of_nat i) ++ ".ffn." in
  if is_uint8 (Strategy.wtype dd) then
    kq <- lift (corrections (ffn_key ++ "key.weight")
                  (ffn_key_weight b)) ;;
    vq <- lift (corrections (ffn_key ++ "value.weight")
                  (ffn_value_weight b)) ;;
    rq <- lift (corrections (ffn_key ++ "receptance.weight")
                  (ffn_receptance_weight b)) ;;
    s4 <- lift (getitem state (Z.of_nat (slot_index i 4))) ;;
    '(x', n4) <-
      match x with
      | One xv =>
          '(y, n4) <-
            ffn (fun v4 =>
                   ffn_one_i8 eps xv v4 (ln2_weight b) (ln2_bias b)
                     (ffn_time_mix_k b) (ffn_time_mix_r b)
                     (q_w kq) (q_w vq) (q_w rq)
                     (q_mx kq) (q_rx kq) (q_my kq) (q_ry kq)
                     (q_mx vq) (q_rx vq) (q_my vq) (q_ry vq)
                     (q_mx rq) (q_rx rq) (q_my rq) (q_ry rq)) s4 ;;
          ret (One y, n4)
      | Seq xm =>
          '(y, n4) <-
            ffn (fun v4 =>
                   ffn_seq_i8 eps xm v4 (ln2_weight b) (ln2_bias b)
                     (ffn_time_mix_k b) (ffn_time_mix_r b)
                     (q_w kq) (q_w vq) (q_w rq)
                     (q_mx kq) (q_rx kq) (q_my kq) (q_ry kq)
                     (q_mx vq) (q_rx vq) (q_my vq) (q_ry vq)
                     (q_mx rq) (q_rx rq) (q_my rq) (q_ry rq)) s4 ;;
          ret (Seq y, n4)
      end ;;
    ret (x', setitem state (slot_index i 4) n4)
  else
    s4 <- lift (getitem state (Z.of_nat (slot_index i 4))) ;;
    kw <- lift (float_matrix (ffn_key_weight b)) ;;
    vw <- lift (float_matrix (ffn_value_weight b)) ;;
    rw <- lift (float_matrix (ffn_receptance_weight b)) ;;
    '(x', n4) <-
      match x with
      | One xv =>
          '(y, n4) <-
            ffn (fun v4 =>
                   ffn_one eps xv v4 (ln2_weight b) (ln2_bias b)
                     (ffn_time_mix_k b) (ffn_time_mix_r b) kw vw rw) s4 ;;
          ret (One y, n4)
      | Seq xm =>
          '(y, n4) <-
            ffn (fun v4 =>
                   ffn_seq eps xm v4 (ln2_weight b) (ln2_bias b)
                     (ffn_time_mix_k b) (ffn_time_mix_r b) kw vw rw) s4 ;;
          ret (Seq y, n4)
      end ;;
    ret (x', setitem state (slot_index i 4) n4).

(** Lines 635-727: [for i in range(args.n_layer)]. *)
Fixpoint layers (self : RWKV) (i : nat) (bs : list block) (x : act)
  (state : list loc) : M (act * list loc) :=
  match bs with
  | [] => ret (x, state)
  | b :: rest =>
      dd <- lift (plan_entry self i) ;;
      '(x1, state1) <- att_stage self i dd b x state ;;
      '(x2, state2) <- ffn_stage self i dd b x1 state1 ;;
      layers self (S i) rest (rescale self i x2) state2
  end.

(** Lines 619-629: the state created when the caller passes [None];
    every slot is a new tensor. *)
Fixpoint init_state (self : RWKV) (idx : list nat) : M (list loc) :=
  match idx with
  | [] => ret []
  | i :: rest =>
      _ <- lift (plan_entry self i) ;;
      l0 <- alloc (One (zeros (n_embd self))) ;;
      l1 <- alloc (One (zeros (n_embd self))) ;;
      l2 <- alloc (One (zeros (n_embd self))) ;;
      l3 <- alloc (One (map (fun z => (z - 10 ^ 30)%R)
                          (zeros (n_embd self)))) ;;
      l4 <- alloc (One (zeros (n_embd self))) ;;
      tl <- init_state self rest ;;
      ret ([l0; l1; l2; l3; l4] ++ tl)%list
  end.

(** [forward(self, tokens, state, full_output)] on a state of tensor
    objects; the slots of the list [state] are assigned one by one, and
    the list is returned. *)
Definition forward (self : RWKV) (tokens : list Z)
  (state : option (list loc)) (full_output : bool)
  : M (act * list loc) :=
  state <- (match state with
            | None => init_state self (seq 0 (n_layer self))
            | Some s => ret s
            end) ;;
  let seq_mode := (1 <? length tokens)%nat in
  x <- lift (if seq_mode
             then Py.bind (lookup_rows (emb_weight (w self)) tokens)
                    (fun m => Ok (Seq m))
             else Py.bind (getitem tokens 0)
                    (fun t0 =>
                       Py.bind (getitem (emb_weight (w self)) t0)
                         (fun r => Ok (One r)))) ;;
  '(x, state) <- layers self 0 (blocks (w self)) x state ;;
  _ <- lift (plan_entry self (n_layer self)) ;;
  ret (head eps self x full_output, state).

End WithKernel.

(** Modelled from the spec: the fused operator is not part of the Python
    source; the specification requires it to reproduce the per-step
    semantics of the loop of [att_seq] given (decay, bias, key, value,
    aa, bb, pp), and [cuda_wkv] returns the tensors it passed as the
    results: the operator leaves its results in [y], [aa], [bb], [pp]. *)
Definition wkv_forward_spec : kernel :=
  fun B T C w u k v y aa bb pp =>
    ym <- read_mat y ;;
    a <- read_vec aa ;;
    b <- read_vec bb ;;
    p <- read_vec pp ;;
    let '(ym', a', b', p') :=
      Engine.wkv_loop w u k v (seq 0 T) (ym, a, b, p) in
    _ <- write y (Seq ym') ;;
    _ <- write aa (One a') ;;
    _ <- write bb (One b') ;;
    write pp (One p').

(** ** Notions used to state and prove the theorems about tensor objects *)

(** The run of [m] from the store [h] leaves every tensor object below
    [n0] as it was, whether it returns or raises, and what it returns
    satisfies [Q]. *)
Definition wp {A} (n0 : nat) (m : M A) (Q : A -> heap -> Prop) (h : heap)
  : Prop :=
  let '(r, h') := m h in
  length h <= length h'
  /\ (forall l, l < n0 -> nth_error h' l = nth_error h l)
  /\ match r with
     | Ok a => Q a h'
     | Raise _ => True
     end.

(** The slots [lo .. hi-1] of a state hold tensor objects created at or
    after [n0]. *)
Definition fresh_slots (n0 : nat) (state : list loc) (lo hi : nat) : Prop :=
  forall j, lo <= j < hi ->
            exists l, nth_error state j = Some l /\ n0 <= l.

(** [l] holds a 2-D tensor of [T] rows. *)
Definition rows_at (h : heap) (l : loc) (T : nat) : Prop :=
  exists m, nth_error h l = Some (Seq m) /\ length m = T.

(** The number of positions of an activation. *)
Definition positions (x : act) : nat :=
  match x with
  | One _ => 1
  | Seq m => length m
  end.

Definition same_mode (x y : act) : Prop :=
  match x, y with
  | One _, One _ => True
  | Seq a, Seq b => length a = length b
  | _, _ => False
  end.

(** The single-token call, or a sequence call without the extension. *)
Definition plain_call (self : RWKV) (x : act) : Prop :=
  RWKV_CUDA_ON self = false \/ exists v, x = One v.

(** A store holding the five state tensors of a model of one layer and
    one channel, and the state listing them; used as a test input. *)
Definition caller_store : heap :=
  [One [0]; One [0]; One [0]; One [-1]; One [0]]%R.

Definition caller_state : list loc := [0; 1; 2; 3; 4].

End Alias.

(* ================================================================== *)
(** * Notions used to state further properties of the engine            *)
(* ================================================================== *)

Module Wkv.

Import Tensor Engine.
Local Open Scope R_scope.

(** One channel of lines 474-478, the output step [wkv_out]. *)
Definition out1 (u k v a b p : R) : R :=
  let ww := u + k in
  let q := Rmax p ww in
  let e1 := exp (p - q) in
  let e2 := exp (ww - q) in
  (e1 * a + e2 * v) / (e1 * b + e2).

(** One channel of lines 479-485, the state advance [wkv_next]. *)
Definition next1 (w k v a b p : R) : R * R * R :=
  let ww := w + p in
  let q := Rmax ww k in
  let e1 := exp (ww - q) in
  let e2 := exp (k - q) in
  (e1 * a + e2 * v, e1 * b + e2, q).

(** Every tensor of the list has [C] channels. *)
Definition channels (C : nat) (l : list vec) : Prop :=
  Forall (fun x => length x = C) l.

(** Channel [j] of a 1-D tensor. *)
Definition ch (j : nat) (x : vec) : R := nth j x 0.

End Wkv.

(* ================================================================== *)
(** * Notions used to state further properties of the planner           *)
(* ================================================================== *)

Module Planned.

Import Py Strategy.
Local Open Scope string_scope.

(** The device words of the segments of a descriptor. *)
Definition devices (descriptor : string) : list string :=
  flat_map (fun si => match words si with
                      | dev :: _ => [dev]
                      | [] => []
                      end)
           (segments (strip descriptor)).

(** The dtypes a dtype word can start with. *)
Definition float_dtype (d : dtype) : bool :=
  match d with
  | uint8 => false
  | _ => true
  end.

(** The dtype list that lines 101-106 put in place of a dtype word. *)
Definition parsed (si : seg) : Prop :=
  exists a x, types si = Some [a; x]
              /\ float_dtype a = true /\ (x = a \/ x = uint8).

(** A slot whose activation dtype is a float dtype and whose weight
    dtype is that dtype or [uint8]. *)
Definition well_typed (d : slot) : Prop :=
  exists a, atype d = TyD a /\ float_dtype a = true
            /\ (wtype d = TyD a \/ wtype d = TyD uint8).

End Planned.

(* ================================================================== *)
(** * [RWKV.save_preconverted]                                          *)
(* ================================================================== *)

Module Preconvert.

Import Py Loader.
Local Open Scope string_scope.
Local Open Scope py_scope.

(** [w[k] = v] on a dict: the value of a key that is present is
    replaced where it stands, a new key goes to the end. *)
Fixpoint set (w : checkpoint) (k : string) (v : value) : checkpoint :=
  match w with
  | [] => [(k, v)]
  | (k', v') :: w' =>
      if String.eqb k' k then (k', v) :: w' else (k', v') :: set w' k v
  end.

Definition valid_formats : list string := ["pt"].

Definition invalid_format_msg (format : string) : string :=
  "Invalid format " ++ format ++ " - cannot save".

(** The marker of line 356:
    [f'{RWKV_PRECONVERT_FORMAT}|{self.strategy.n_layer}|{self.strategy.strategy_string.strip()}'] *)
Definition marker (self_strategy : Strategy.RWKVStrategy) : string :=
  str_of_int RWKV_PRECONVERT_FORMAT ++ "|"
  ++ str_of_int (Strategy.n_layer self_strategy) ++ "|"
  ++ strip (Strategy.strategy_string self_strategy).

(** [self.save_preconverted(filename, format)], lines 350-357: the dict
    handed to [torch.save], or [None] when nothing is written. *)
Definition save_preconverted (self_w : checkpoint)
  (self_strategy : Strategy.RWKVStrategy) (format : string)
  : result (option checkpoint) :=
  if negb (existsb (String.eqb format) valid_formats)
  then Raise (ValueError (invalid_format_msg format))
  else if String.eqb format "pt"
       then Ok (Some (set self_w "preconverted_for_strategy"
                        (Str (marker self_strategy))))
       else Ok None.

End Preconvert.

(* ================================================================== *)
(** * Notions used to state and prove facts about strings               *)
(* ================================================================== *)

Module Chars.

(** Every character of [s] satisfies [P]. *)
Fixpoint all_chars (P : ascii -> bool) (s : string) : bool :=
  match s with
  | EmptyString => true
  | String c s' => P c && all_chars P s'
  end.

(** The character [c] does not occur in [s]. *)
Definition lacks (c : ascii) (s : string) : bool :=
  all_chars (fun a => negb (Ascii.eqb a c)) s.

(** No string the expression [r] matches holds the character [c]. *)
Fixpoint avoids (c : ascii) (r : Re.re) : bool :=
  match r with
  | Re.Chr a => negb (Ascii.eqb a c)
  | Re.Digit => negb (Re.is_digit c)
  | Re.Cat r1 r2 => avoids c r1 && avoids c r2
  | Re.Alt r1 r2 => avoids c r1 && avoids c r2
  | Re.Opt r1 => avoids c r1
  | Re.Star r1 => avoids c r1
  | Re.Plus r1 => avoids c r1
  | _ => true
  end.

End Chars.

(* ================================================================== *)
(** * Theorems: the strategy planner                                    *)
(* ================================================================== *)

Section PlannerFacts.

Import Py Strategy.
Local Open Scope string_scope.
Local Open Scope Z_scope.

Lemma dtype_eqb_refl (d : dtype) : dtype_eqb d d = true.
Proof. destruct d; reflexivity. Qed.

Lemma tyval_eqb_refl (v : tyval) : tyval_eqb v v = true.
Proof. destruct v; simpl; [apply dtype_eqb_refl | apply Ascii.eqb_refl]. Qed.

Lemma dtype_eqb_eq (a b : dtype) : dtype_eqb a b = true <-> a = b.
Proof. split; [destruct a, b; simpl; congruence | intros ->; apply dtype_eqb_refl]. Qed.

Lemma tyval_eqb_eq (a b : tyval) : tyval_eqb a b = true <-> a = b.
Proof.
  split.
  - destruct a, b; simpl; try discriminate.
    + intros H; apply dtype_eqb_eq in H; congruence.
    + intros H; apply Ascii.eqb_eq in H; congruence.
  - intros ->; apply tyval_eqb_refl.
Qed.

Lemma is_same_eq (a b : option tyval) : is_same a b = true <-> a = b.
Proof.
  destruct a, b; simpl; try (split; congruence).
  rewrite tyval_eqb_eq. split; congruence.
Qed.

Lemma compatible_loop_pairs (l1 l2 : list (option slot)) :
  map (option_map (fun d => (atype d, wtype d))) l1
  = map (option_map (fun d => (atype d, wtype d))) l2 ->
  compatible_loop l1 l2 = true.
Proof.
  revert l2; induction l1 as [|a l1 IH]; intros [|b l2] H; simpl in *;
    try reflexivity; try discriminate.
  injection H as Hab Hl.
  assert (Ha : is_same (getattr_atype a) (getattr_atype b) = true).
  { apply is_same_eq. destruct a, b; simpl in *; congruence. }
  assert (Hw : is_same (getattr_wtype a) (getattr_wtype b) = true).
  { apply is_same_eq. destruct a, b; simpl in *; congruence. }
  rewrite Ha, Hw. simpl. apply IH, Hl.
Qed.

Lemma compatible_loop_sound (l1 l2 : list (option slot)) :
  length l1 = length l2 ->
  compatible_loop l1 l2 = true ->
  map (option_map (fun d => (atype d, wtype d))) l1
  = map (option_map (fun d => (atype d, wtype d))) l2.
Proof.
  revert l2; induction l1 as [|a l1 IH]; intros [|b l2] Hlen H; simpl in *;
    try reflexivity; try discriminate.
  destruct (is_same (getattr_atype a) (getattr_atype b)) eqn:Ha;
    [|discriminate].
  destruct (is_same (getattr_wtype a) (getattr_wtype b)) eqn:Hw;
    [|discriminate].
  simpl in H. apply is_same_eq in Ha, Hw.
  f_equal; [| apply IH; [lia | exact H]].
  destruct a, b; simpl in *; congruence.
Qed.

(** [is_compatible] is decided by the layer counts and the dtype pairs. *)
Lemma is_compatible_iff (S T : RWKVStrategy) :
  is_compatible S T = true <->
  n_layer S = n_layer T /\ Strategy.dtype_pairs S = Strategy.dtype_pairs T.
Proof.
  unfold is_compatible, Strategy.dtype_pairs. split.
  - destruct (n_layer S =? n_layer T) eqn:Hn; simpl; [|discriminate].
    destruct (Nat.eqb (length (strategy S)) (length (strategy T))) eqn:Hl;
      simpl; [|discriminate].
    apply Z.eqb_eq in Hn. apply Nat.eqb_eq in Hl.
    intros H. split; [exact Hn | apply compatible_loop_sound; assumption].
  - intros [Hn Hp]. rewrite Hn, Z.eqb_refl. simpl.
    assert (Hl : length (strategy S) = length (strategy T)).
    { rewrite <- (length_map (option_map (fun d => (atype d, wtype d)))
                    (strategy S)), Hp. apply length_map. }
    rewrite Hl, Nat.eqb_refl. simpl. apply compatible_loop_pairs, Hp.
Qed.

End PlannerFacts.

(** C8 -- [is_compatible(S, S)] holds for every strategy [S]; strategies
    with different layer counts are never compatible; and the answer
    depends only on the layer counts and the per-layer (activation dtype,
    weight dtype) pairs, so that strategies which agree on those and differ
    in the per-layer device (or stream flag) are compatible. *)
Theorem C8_is_compatible (S T S' T' : Strategy.RWKVStrategy) :
  Strategy.is_compatible S S = true
  /\ (Strategy.n_layer S <> Strategy.n_layer T ->
      Strategy.is_compatible S T = false)
  /\ (Strategy.n_layer S = Strategy.n_layer T ->
      Strategy.dtype_pairs S = Strategy.dtype_pairs T ->
      Strategy.is_compatible S T = true)
  /\ (Strategy.n_layer S = Strategy.n_layer S' ->
      Strategy.n_layer T = Strategy.n_layer T' ->
      Strategy.dtype_pairs S = Strategy.dtype_pairs S' ->
      Strategy.dtype_pairs T = Strategy.dtype_pairs T' ->
      Strategy.is_compatible S T = Strategy.is_compatible S' T').
Proof.
  repeat split.
  - apply is_compatible_iff; split; reflexivity.
  - intros Hn. unfold Strategy.is_compatible.
    destruct (Z.eqb_spec (Strategy.n_layer S) (Strategy.n_layer T));
      [contradiction | reflexivity].
  - intros Hn Hp. apply is_compatible_iff; split; assumption.
  - intros HS HT HpS HpT.
    destruct (Strategy.is_compatible S T) eqn:E1;
      destruct (Strategy.is_compatible S' T') eqn:E2; try reflexivity.
    + apply is_compatible_iff in E1 as [E1 E1'].
      assert (Strategy.is_compatible S' T' = true) as E
        by (apply is_compatible_iff; split; congruence).
      congruence.
    + apply is_compatible_iff in E2 as [E2 E2'].
      assert (Strategy.is_compatible S T = true) as E
        by (apply is_compatible_iff; split; congruence).
      congruence.
Qed.

Lemma C8_is_compatible_witness :
  Strategy.is_compatible Strategy.strategy_on_cpu Strategy.strategy_on_cpu = true
  /\ Strategy.is_compatible Strategy.strategy_on_cpu Strategy.strategy_three_layers = false
  /\ Strategy.is_compatible Strategy.strategy_on_cpu Strategy.strategy_on_cuda = true
  /\ Strategy.is_compatible Strategy.strategy_on_cpu Strategy.strategy_on_cuda
     = Strategy.is_compatible Strategy.strategy_on_cuda Strategy.strategy_on_cpu.
Proof.
  destruct (C8_is_compatible Strategy.strategy_on_cpu Strategy.strategy_on_cuda
              Strategy.strategy_on_cuda Strategy.strategy_on_cpu) as (H1 & _ & H3 & H4).
  destruct (C8_is_compatible Strategy.strategy_on_cpu Strategy.strategy_three_layers
              Strategy.strategy_on_cpu Strategy.strategy_three_layers) as (_ & H2 & _).
  split; [exact H1|].
  split; [apply H2; simpl; lia|].
  split; [apply H3; reflexivity|].
  apply H4; reflexivity.
Defined.

(** C4 -- the specification's example read literally fails: for the
    descriptor ["cpu fp32 *2 -> cuda fp16 *3+"] and [n_layer = 4] no layer
    carries the streamed flag. *)
Lemma C4_no_layer_is_streamed :
  exists r,
    Strategy.init "cpu fp32 *2 -> cuda fp16 *3+" 4 = Py.Ok r
    /\ map (option_map Strategy.stream) (Strategy.strategy r)
       = [Some false; Some false; Some false; Some false; Some false].
Proof. eexists; split; [vm_compute; reflexivity | reflexivity]. Qed.

(** C4 (amended) -- for the descriptor ["cpu fp32 *2 -> cuda fp16 *3+"]
    and [n_layer = 4] the planner assigns layers 0 and 1 to cpu with fp32
    and layers 2, 3 and 4 to cuda with fp16; the three cuda layers fill the
    stored count of the segment, the stream overflow count is 0 and no
    layer is streamed. *)
Theorem C4_example_plan :
  exists r,
    Strategy.init "cpu fp32 *2 -> cuda fp16 *3+" 4 = Py.Ok r
    /\ Strategy.strategy r
       = [Some (Strategy.mkSlot "cpu" (Strategy.TyD Strategy.float32)
                  (Strategy.TyD Strategy.float32) false);
          Some (Strategy.mkSlot "cpu" (Strategy.TyD Strategy.float32)
                  (Strategy.TyD Strategy.float32) false);
          Some (Strategy.mkSlot "cuda" (Strategy.TyD Strategy.float16)
                  (Strategy.TyD Strategy.float16) false);
          Some (Strategy.mkSlot "cuda" (Strategy.TyD Strategy.float16)
                  (Strategy.TyD Strategy.float16) false);
          Some (Strategy.mkSlot "cuda" (Strategy.TyD Strategy.float16)
                  (Strategy.TyD Strategy.float16) false)]
    /\ Strategy.plan r = [2; 5]%Z
    /\ Py.contains (Strategy.report r)
         "* cuda [float16, float16], store 3 layers, stream 0 layers" = true.
Proof.
  eexists; split; [vm_compute; reflexivity |].
  repeat split; reflexivity.
Qed.

(** C2 -- the planner does not return a plan for every descriptor the
    validation pattern accepts: a counted segment with count 0 next to an
    uncounted one makes the sharing loop divide by zero, and a descriptor
    that starts with ["->"] makes the first loop index past the end of an
    empty segment. *)
Theorem C2_accepted_descriptors_that_raise :
  Re.re_match Re.STRATEGY_REGEX "cuda fp16 -> cpu fp32 *0" = true
  /\ Strategy.init "cuda fp16 -> cpu fp32 *0" 1 = Py.Raise Py.ZeroDivisionError
  /\ Re.re_match Re.STRATEGY_REGEX "->cpu fp32" = true
  /\ Strategy.init "->cpu fp32" 1 = Py.Raise Py.IndexError.
Proof. repeat split; vm_compute; reflexivity. Qed.

Section SingleSegment.

Import Py Strategy.
Local Open Scope string_scope.
Local Open Scope Z_scope.

Lemma strategy_loop_single (si : seg) (dev : string) (a w : tyval) (q : Z)
  (ns : list nat) (chunks : string) :
  getitem (words si) 0 = Ok dev ->
  seg1_at si 0 = Ok a ->
  seg1_at si 1 = Ok w ->
  Forall (fun n => Z.of_nat n < q) ns ->
  exists chunks',
    strategy_loop [si] [q] (-1) 0 ns chunks
    = Ok (map (fun _ => Some (mkSlot dev a w false)) ns, chunks').
Proof.
  intros Hd Ha Hw. revert chunks.
  induction ns as [|n ns IH]; intros chunks Hall.
  - eexists; reflexivity.
  - inversion Hall as [|? ? Hn Hns]; subst.
    destruct (IH (chunks ++ str_of_int (Z.of_nat n) ++ "-" ++ dev ++ "-"
                    ++ tyval_name a ++ "-" ++ tyval_name w ++ EmptyString)
                 Hns) as [c' Hc'].
    exists c'.
    cbn [strategy_loop find_slot seq List.length].
    assert (Hg : getitem [q] (Z.of_nat 0) = Ok q) by reflexivity.
    assert (Hs : getitem [si] (Z.of_nat 0) = Ok si) by reflexivity.
    unfold bind at 1. unfold bind at 1. rewrite Hg.
    apply Z.ltb_lt in Hn. rewrite Hn.
    rewrite Hs. unfold bind at 1. rewrite Hd, Ha, Hw.
    cbn [bind slot_chunk device atype wtype stream Z.of_nat Z.eqb andb].
    rewrite Hc'. reflexivity.
Qed.

Lemma place_rest_single (si : seg) (n : Z) :
  0 <= n ->
  place_rest (n + 1) (mkLocals [si] [0] (-1) 0 (0 + 1)) = Ok ([n + 1], 0).
Proof.
  intros Hn. unfold place_rest.
  cbn [l_s l_plan l_stream_i l_allocated l_free_slots List.length seq
       share_loop].
  replace (-1 <? 0) with true by reflexivity.
  replace (0 + 1 >? 0) with true by reflexivity.
  replace (n + 1 >? 0) with true by (symmetry; apply Z.gtb_lt; lia).
  cbn [andb].
  replace (getitem [0] (Z.of_nat 0)) with (Ok 0) by reflexivity.
  cbn [bind]. replace (0 =? 0) with true by reflexivity.
  unfold floordiv. replace (0 + 1 =? 0) with false by reflexivity.
  cbn [bind l_s l_plan l_stream_i l_allocated l_free_slots setitem].
  rewrite Z.sub_0_r, Z.div_1_r, Z.add_0_l.
  replace (n + 1 >? n + 1) with false
    by (symmetry; rewrite Z.gtb_ltb; apply Z.ltb_irrefl).
  reflexivity.
Qed.

Lemma report_loop_single (si : seg) (dev ty : string) (q : Z) (head : string) :
  getitem (words si) 0 = Ok dev ->
  seg1_str si = Ok ty ->
  exists chunks,
    report_loop [si] (-1) 0 [0%nat] [q] head = Ok ([q], chunks).
Proof.
  intros Hd Hty. eexists. cbn [report_loop].
  replace (getitem [si] (Z.of_nat 0)) with (Ok si) by reflexivity.
  cbn [bind]. rewrite Hd. cbn [bind]. rewrite Hty. cbn [bind].
  replace (getitem [q] (Z.of_nat 0)) with (Ok q) by reflexivity.
  cbn [bind Nat.eqb setitem]. rewrite Z.add_0_r. reflexivity.
Qed.

(** A descriptor made of one segment without a count: every layer gets
    the slot of that segment. *)
Lemma init_single_free_segment (str dev ty : string) (d1 d2 : dtype)
  (n : Z) :
  0 <= n ->
  segments (strip str) = [mkSeg [dev; ty] None] ->
  parse_dtype (mkSeg [dev; ty] None) = Ok (mkSeg [dev; ty] (Some [d1; d2])) ->
  exists r,
    init str n = Ok r
    /\ strategy r
       = repeat (Some (mkSlot dev (TyD d1) (TyD d2) false)) (Z.to_nat (n + 1)).
Proof.
  intros Hn Hs Hp.
  set (si := mkSeg [dev; ty] (Some [d1; d2])).
  set (head := "Strategy: (total " ++ str_of_int n ++ "+1="
               ++ str_of_int (n + 1) ++ " layers)"
               ++ String (ascii_of_nat 10) EmptyString).
  destruct (@report_loop_single si dev
              ("[" ++ join ", " (map dtype_name [d1; d2]) ++ "]")
              (n + 1) head) as [chunks Hr]; try reflexivity.
  destruct (@strategy_loop_single si dev (TyD d1) (TyD d2) (n + 1)
              (seq 0 (Z.to_nat (n + 1))) chunks)
    as [c' Hc']; try reflexivity.
  { apply Forall_forall. intros k Hk. apply in_seq in Hk. lia. }
  eexists. split.
  - unfold init. rewrite Hs. fold head.
    cbn [List.length seq alloc_loop repeat]. unfold alloc_body.
    cbn [l_s l_plan l_stream_i l_allocated l_free_slots].
    assert (Hg : getitem [mkSeg [dev; ty] None] (Z.of_nat 0)
                 = Ok (mkSeg [dev; ty] None)) by reflexivity.
    rewrite Hg. cbn [bind]. rewrite Hp. fold si.
    cbn [bind words si List.length Z.of_nat Pos.of_succ_nat Pos.succ
         Z.ltb Z.compare Pos.compare Pos.compare_cont setitem l_s l_plan
         l_stream_i l_allocated l_free_slots].
    rewrite (place_rest_single si Hn). cbn [bind].
    rewrite Hr. cbn [bind]. rewrite Hc'. cbn [bind]. reflexivity.
  - cbn [strategy]. generalize (Z.to_nat (n + 1)) as m. intros m.
    generalize 0%nat. induction m; intros; simpl; [reflexivity|].
    f_equal. apply IHm.
Qed.

End SingleSegment.

(** C10 -- descriptors whose dtype word carries the suffix [i4] or [i3]
    pass the validation pattern, the planner raises no error on them, and
    every layer is given a weight dtype equal to its activation dtype:
    only the suffix [i8] selects [uint8]. *)
Theorem C10_i4_i3_suffix_not_quantized (n_layer : Z) :
  (0 <= n_layer)%Z ->
  Forall (fun '(descriptor, dev, d) =>
            Re.re_match Re.STRATEGY_REGEX descriptor = true
            /\ exists r,
                 Strategy.init descriptor n_layer = Py.Ok r
                 /\ Strategy.strategy r
                    = repeat (Some (Strategy.mkSlot dev (Strategy.TyD d)
                                      (Strategy.TyD d) false))
                             (Z.to_nat (n_layer + 1)))
    [("cpu fp16i4", "cpu", Strategy.float16);
     ("cpu fp16i3", "cpu", Strategy.float16);
     ("cuda fp32i4", "cuda", Strategy.float32);
     ("cuda:0 bf16i3", "cuda:0", Strategy.bfloat16)]%string.
Proof.
  intros Hn.
  repeat (apply Forall_cons;
          [split; [vm_compute; reflexivity
                  | eapply init_single_free_segment;
                    [exact Hn | vm_compute; reflexivity
                    | vm_compute; reflexivity]] |]).
  apply Forall_nil.
Qed.

Lemma C10_i4_i3_suffix_not_quantized_witness :
  exists r,
    Strategy.init "cpu fp16i4" 2 = Py.Ok r
    /\ Strategy.strategy r
       = repeat (Some (Strategy.mkSlot "cpu" (Strategy.TyD Strategy.float16)
                         (Strategy.TyD Strategy.float16) false)) 3.
Proof.
  assert (H : (0 <= 2)%Z) by lia.
  pose proof (C10_i4_i3_suffix_not_quantized H) as F.
  apply Forall_inv in F. cbv beta iota in F. exact (proj2 F).
Defined.

(* ================================================================== *)
(** * Theorems: the gates of the loader                                 *)
(* ================================================================== *)

Section LoaderFacts.

Import Py Loader.
Local Open Scope string_scope.
Local Open Scope Z_scope.

Lemma bind_ok {A B} (m : result A) (f : A -> result B) (b : B) :
  bind m f = Ok b -> exists a, m = Ok a /\ f a = Ok b.
Proof. destruct m; simpl; intros H; [eauto | discriminate]. Qed.

Lemma del_length (w : checkpoint) (k : string) (v : value) :
  get w k = Some v -> S (length (del w k)) = length w.
Proof.
  induction w as [|[k' v'] w IH]; simpl; [discriminate|].
  destruct (String.eqb k' k); [reflexivity|].
  intros H. simpl. f_equal. apply IH, H.
Qed.

Lemma get_del_other (w : checkpoint) (k k' : string) :
  k <> k' -> get (del w k) k' = get w k'.
Proof.
  intros Hk. induction w as [|[k0 v0] w IH]; simpl; [reflexivity|].
  destruct (String.eqb_spec k0 k) as [->|Hk0].
  - destruct (String.eqb_spec k k'); [contradiction | reflexivity].
  - simpl. rewrite IH. reflexivity.
Qed.

Lemma lookup_ok (w : checkpoint) (k : string) (v : value) :
  lookup w k = Ok v -> get w k = Some v.
Proof. unfold lookup. destruct (get w k); congruence. Qed.

Lemma fold_embedding_fresh (w w2 : checkpoint) :
  fold_embedding false w = Ok w2 -> length w = (length w2 + 2)%nat.
Proof.
  unfold fold_embedding. simpl. intros H.
  apply bind_ok in H as (v0 & _ & H).
  apply bind_ok in H as (v1 & H1 & H).
  apply bind_ok in H as (v2 & H2 & H).
  injection H as <-.
  apply lookup_ok in H1, H2.
  assert (H2' : get (del w "blocks.0.ln0.weight") "blocks.0.ln0.bias"
                = Some v2)
    by (rewrite get_del_other; [exact H2 | discriminate]).
  apply del_length in H1, H2'. lia.
Qed.

Lemma fold_embedding_missing (pre : bool) (w : checkpoint) :
  get w "emb.weight" = None ->
  fold_embedding pre w = Raise (KeyError "emb.weight").
Proof. intros H. unfold fold_embedding, lookup. rewrite H. reflexivity. Qed.

Lemma fold_embedding_missing_ln0 (w : checkpoint) :
  get w "blocks.0.ln0.weight" = None \/ get w "blocks.0.ln0.bias" = None ->
  is_ok (fold_embedding false w) = false.
Proof.
  intros H. unfold fold_embedding, lookup.
  destruct (get w "emb.weight"); [simpl|reflexivity].
  destruct (get w "blocks.0.ln0.weight"); [simpl|reflexivity].
  destruct (get w "blocks.0.ln0.bias"); [simpl|reflexivity].
  destruct H; discriminate.
Qed.

Lemma choose_strategy_fresh (s : string) (n : Z) (w : checkpoint) st w1 pre :
  get w "preconverted_for_strategy" = None ->
  choose_strategy s n w = Ok (st, w1, pre) ->
  w1 = w /\ pre = false /\ Strategy.init s n = Ok st.
Proof.
  unfold choose_strategy. intros ->. intros H.
  apply bind_ok in H as (st' & Hst & H). injection H as -> -> ->.
  auto.
Qed.

(** What [prepare] has established when it returns for a fresh set. *)
Lemma prepare_fresh (s : string) (w : checkpoint) (l : loaded) :
  get w "preconverted_for_strategy" = None ->
  prepare s w = Ok l ->
  ld_preconverted l = false
  /\ get_nlayer (keys w) = Ok (ld_n_layer l)
  /\ length w = (length (ld_keys l) + 2)%nat.
Proof.
  intros Hm. unfold prepare.
  destruct (negb (Re.re_match Re.STRATEGY_REGEX (strip s))); [discriminate|].
  intros H.
  apply bind_ok in H as (n & Hn & H).
  apply bind_ok in H as ([[st w1] pre] & Hc & H).
  apply bind_ok in H as (w2 & Hf & H).
  apply bind_ok in H as (u & _ & H).
  injection H as <-. simpl.
  apply choose_strategy_fresh in Hc as (-> & -> & _); [|exact Hm].
  apply fold_embedding_fresh in Hf.
  unfold keys. rewrite length_map. auto.
Qed.

(** The requested strategy is checked against the pattern before the
    dict is looked at. *)
Lemma prepare_rejects_unmatched (s : string) (w : checkpoint) :
  Re.re_match Re.STRATEGY_REGEX (strip s) = false ->
  prepare s w = Raise (ValueError invalid_strategy_msg).
Proof. intros H. unfold prepare. rewrite H. reflexivity. Qed.

(** A marker of another format version never loads. *)
Lemma unsupported_version_fails (s : string) (w : checkpoint) (v : string) :
  get w "preconverted_for_strategy" = Some (Str v) ->
  startswith v "1|" = false ->
  is_ok (init s w) = false.
Proof.
  intros Hm Hv. unfold init, prepare.
  destruct (negb (Re.re_match Re.STRATEGY_REGEX (strip s))); [reflexivity|].
  destruct (get_nlayer (keys w)) as [n|]; [simpl|reflexivity].
  unfold choose_strategy. rewrite Hm. cbn [bind].
  change (str_of_int RWKV_PRECONVERT_FORMAT ++ "|") with "1|".
  rewrite Hv. reflexivity.
Qed.

(** With a well-formed marker and a requested strategy other than the
    literal, lines 221-223 succeed exactly when the two strategies are
    compatible, and otherwise raise the message naming both strategy
    strings and both layer counts. *)
Lemma choose_strategy_preconverted (s : string) (n : Z) (w : checkpoint)
  (v a pn ps : string) (pnl : Z) (pst st : Strategy.RWKVStrategy) :
  get w "preconverted_for_strategy" = Some (Str v) ->
  startswith v "1|" = true ->
  split v "|" = [a; pn; ps] ->
  int pn = Ok pnl ->
  Strategy.init ps pnl = Ok pst ->
  String.eqb s "preconverted" = false ->
  Strategy.init s n = Ok st ->
  choose_strategy s n w =
    if Strategy.is_compatible st pst
    then Ok (st, del w "preconverted_for_strategy", true)
    else Raise (ValueError
           ("Loading preconverted module with incompatible strategy. Preconverted strategy: ["
            ++ Strategy.strategy_string pst ++ "](" ++ str_of_int pnl
            ++ "), requested strategy: [" ++ Strategy.strategy_string st
            ++ "](" ++ str_of_int n ++ ")")).
Proof.
  intros Hm Hv Hs Hpn Hpst Hlit Hst.
  unfold choose_strategy. rewrite Hm. cbn [bind].
  change (str_of_int RWKV_PRECONVERT_FORMAT ++ "|") with "1|".
  rewrite Hv, Hs. cbn [negb bind]. rewrite Hpn. cbn [bind].
  rewrite Hpst. cbn [bind].
  rewrite Hlit, Hst. cbn [bind]. unfold incompatible_strategy_msg.
  destruct (Strategy.is_compatible st pst); reflexivity.
Qed.

End LoaderFacts.

(** C6 -- the literal ["preconverted"] never reaches the branch of line
    218 that would accept it: the requested strategy is matched against
    the validation pattern first, the literal does not match, and the load
    fails with the "Invalid strategy" error for every weight set. *)
Theorem C6_preconverted_literal_is_rejected (w : Loader.checkpoint) :
  Loader.init "preconverted" w
  = Py.Raise (Py.ValueError Loader.invalid_strategy_msg).
Proof.
  unfold Loader.init. rewrite prepare_rejects_unmatched; [reflexivity|].
  vm_compute. reflexivity.
Qed.

(** C7 -- a fresh set with a wrong count does not always end in the
    error of the count check: without [emb.weight] (23 entries, 21 once
    the two [ln0] entries are discounted, where 22 are expected) the load
    stops at line 236 with a [KeyError]. *)
Lemma C7_missing_embedding_raises_KeyError :
  let w := Loader.del (Loader.fresh_checkpoint 1) "emb.weight" in
  Loader.get_nlayer (Loader.keys w) = Py.Ok 1%Z
  /\ Z.of_nat (length w) <> (4 + 18 * 1)%Z
  /\ (Z.of_nat (length w) - 2)%Z <> (4 + 18 * 1)%Z
  /\ Loader.init "cpu fp32" w = Py.Raise (Py.KeyError "emb.weight").
Proof. repeat split; vm_compute; congruence. Qed.

(** C7 (amended) -- for a fresh (non-preconverted) parameter set:
    the load succeeds only if the number of entries left once the
    embedding fold has deleted [blocks.0.ln0.weight] and
    [blocks.0.ln0.bias] is exactly [4 + 18 * n_layer] (two less than the
    set held); a set that reaches the count check of line 301 with any
    other count fails with the [ValueError] of that check; and a set
    without [emb.weight] or one of the two [ln0] parameters never loads
    (the lookup fails before the check). *)
Theorem C7_parameter_count_gate (strategy : string) (w : Loader.checkpoint) :
  Loader.get w "preconverted_for_strategy" = None ->
  (forall l, Loader.init strategy w = Py.Ok l ->
     Z.of_nat (length (Loader.ld_keys l)) = (4 + 18 * Loader.ld_n_layer l)%Z
     /\ Loader.get_nlayer (Loader.keys w) = Py.Ok (Loader.ld_n_layer l)
     /\ length w = (length (Loader.ld_keys l) + 2)%nat)
  /\ (forall l, Loader.prepare strategy w = Py.Ok l ->
        Z.of_nat (length (Loader.ld_keys l))
          <> (4 + 18 * Loader.ld_n_layer l)%Z ->
        Loader.init strategy w
        = Py.Raise (Py.ValueError Loader.not_rwkv4_msg))
  /\ (Loader.get w "emb.weight" = None
      \/ Loader.get w "blocks.0.ln0.weight" = None
      \/ Loader.get w "blocks.0.ln0.bias" = None ->
      Py.is_ok (Loader.init strategy w) = false).
Proof.
  intros Hm. split; [|split].
  - intros l H. unfold Loader.init in H.
    apply bind_ok in H as (l0 & Hp & Hc).
    destruct (prepare_fresh _ _ Hm Hp) as (Hpre & Hn & Hlen).
    unfold Loader.check_count in Hc. rewrite Hpre in Hc.
    change (4 + 9 + 5)%Z with 18%Z in Hc.
    destruct (Z.eqb_spec (Z.of_nat (length (Loader.ld_keys l0)))
                (4 + 18 * Loader.ld_n_layer l0)) as [E|E];
      cbn [negb andb] in Hc; [|discriminate].
    injection Hc as <-. auto.
  - intros l Hp Hne. unfold Loader.init. rewrite Hp. simpl.
    destruct (prepare_fresh _ _ Hm Hp) as (Hpre & _ & _).
    unfold Loader.check_count. rewrite Hpre.
    change (4 + 9 + 5)%Z with 18%Z.
    destruct (Z.eqb_spec (Z.of_nat (length (Loader.ld_keys l)))
                (4 + 18 * Loader.ld_n_layer l)) as [E|E];
      [contradiction | reflexivity].
  - intros Hmiss. unfold Loader.init, Loader.prepare.
    destruct (negb (Re.re_match Re.STRATEGY_REGEX (Py.strip strategy)));
      [reflexivity|].
    destruct (Loader.get_nlayer (Loader.keys w)) as [n|]; [simpl|reflexivity].
    destruct (Loader.choose_strategy (Py.strip strategy) n w)
      as [[[st w1] pre]|] eqn:Hc; [simpl|reflexivity].
    apply choose_strategy_fresh in Hc as (-> & -> & _); [|exact Hm].
    destruct Hmiss as [H|H].
    + rewrite fold_embedding_missing by exact H. reflexivity.
    + pose proof (fold_embedding_missing_ln0 w H) as Hf.
      destruct (Loader.fold_embedding false w); [discriminate | reflexivity].
Qed.

Lemma C7_parameter_count_gate_witness :
  exists l,
    Loader.init "cpu fp32" (Loader.fresh_checkpoint 1) = Py.Ok l
    /\ Z.of_nat (length (Loader.ld_keys l)) = (4 + 18 * Loader.ld_n_layer l)%Z
    /\ length (Loader.fresh_checkpoint 1) = 24%nat.
Proof.
  assert (Hm : Loader.get (Loader.fresh_checkpoint 1)
                 "preconverted_for_strategy" = None) by reflexivity.
  destruct (C7_parameter_count_gate "cpu fp32" _ Hm) as (H1 & _ & _).
  destruct (Loader.init "cpu fp32" (Loader.fresh_checkpoint 1)) as [l|e] eqn:E;
    [|vm_compute in E; discriminate].
  exists l. destruct (H1 l eq_refl) as (Hc & _ & _).
  split; [reflexivity | split; [exact Hc | reflexivity]].
Defined.

(* ================================================================== *)
(** * Theorems: the 8-bit quantization codec                            *)
(* ================================================================== *)

Section QuantFacts.

Import Tensor Quant.
Local Open Scope R_scope.

Lemma nth_map_seq {A} (f : nat -> A) (s n i : nat) (d : A) :
  (i < n)%nat -> nth i (map f (seq s n)) d = f (s + i)%nat.
Proof.
  intros Hi. rewrite (nth_indep _ d (f 0%nat)) by (rewrite length_map, length_seq; exact Hi).
  rewrite map_nth, seq_nth by exact Hi. reflexivity.
Qed.

Lemma zipWith_map_seq {A B C} (F : A -> B -> C) (a : nat -> A) (b : nat -> B)
  (s n : nat) :
  zipWith F (map a (seq s n)) (map b (seq s n))
  = map (fun i => F (a i) (b i)) (seq s n).
Proof.
  revert s; induction n as [|n IH]; intros s; simpl; [reflexivity|].
  f_equal. apply IH.
Qed.

Lemma combine_map_seq {A B} (a : nat -> A) (b : nat -> B) (s n : nat) :
  combine (map a (seq s n)) (map b (seq s n))
  = map (fun i => (a i, b i)) (seq s n).
Proof.
  revert s; induction n as [|n IH]; intros s; simpl; [reflexivity|].
  f_equal. apply IH.
Qed.

Lemma zipWith_map_r {A B B' C} (F : A -> B -> C) (g : B' -> B)
  (l : list A) (l' : list B') :
  zipWith F l (map g l') = zipWith (fun x y => F x (g y)) l l'.
Proof.
  revert l'; induction l as [|x l IH]; intros [|y l']; simpl; try reflexivity.
  f_equal. apply IH.
Qed.

Lemma list_eq_map_seq {A} (l : list A) (d : A) :
  l = map (fun i => nth i l d) (seq 0 (length l)).
Proof.
  induction l as [|x l IH]; simpl; [reflexivity|].
  f_equal. rewrite <- seq_shift, map_map. exact IH.
Qed.

(** A matrix of shape [N, C] is the table of its entries. *)
Lemma tabulate_entry (m : mat) (N C : nat) :
  has_shape m N C -> m = tabulate N C (entry m).
Proof.
  intros [HN HC]. unfold tabulate. subst N.
  rewrite (list_eq_map_seq m []) at 1.
  apply map_ext_in. intros i Hi. apply in_seq in Hi.
  assert (Hrow : length (nth i m []) = C).
  { rewrite Forall_forall in HC. apply HC, nth_In. lia. }
  rewrite (list_eq_map_seq (nth i m []) 0) at 1. rewrite Hrow. reflexivity.
Qed.

Lemma entry_tabulate (N C : nat) (f : nat -> nat -> R) (i j : nat) :
  (i < N)%nat -> (j < C)%nat -> entry (tabulate N C f) i j = f i j.
Proof.
  intros Hi Hj. unfold entry, tabulate.
  rewrite nth_map_seq by exact Hi.
  rewrite nth_map_seq by exact Hj. reflexivity.
Qed.

Lemma ncols_tabulate (N C : nat) (f : nat -> nat -> R) :
  (0 < N)%nat -> ncols (tabulate N C f) = C.
Proof.
  intros HN. unfold ncols, tabulate. destruct N; [lia|].
  simpl. rewrite length_map, length_seq. reflexivity.
Qed.

Lemma length_tabulate (N C : nat) (f : nat -> nat -> R) :
  length (tabulate N C f) = N.
Proof. unfold tabulate. rewrite length_map, length_seq. reflexivity. Qed.

Lemma tabulate_ext (N C : nat) (f g : nat -> nat -> R) :
  (forall i j, (i < N)%nat -> (j < C)%nat -> f i j = g i j) ->
  tabulate N C f = tabulate N C g.
Proof.
  intros H. unfold tabulate. apply map_ext_in. intros i Hi.
  apply map_ext_in. intros j Hj. apply in_seq in Hi, Hj. apply H; lia.
Qed.

Lemma transpose_tabulate (N C : nat) (f : nat -> nat -> R) :
  (0 < N)%nat ->
  transpose (tabulate N C f) = tabulate C N (fun j i => f i j).
Proof.
  intros HN. unfold transpose. rewrite ncols_tabulate by exact HN.
  unfold tabulate. apply map_ext_in. intros j Hj. apply in_seq in Hj.
  rewrite map_map. apply map_ext_in. intros i Hi. apply in_seq in Hi.
  rewrite nth_map_seq by lia. reflexivity.
Qed.

(** ** Minimum and maximum along an axis *)

Lemma fold_min_le (l : list R) (a : R) :
  fold_left Rmin l a <= a /\ forall x, In x l -> fold_left Rmin l a <= x.
Proof.
  revert a; induction l as [|y l IH]; intros a; simpl.
  - split; [lra | contradiction].
  - destruct (IH (Rmin a y)) as [H1 H2]. split.
    + pose proof (Rmin_l a y). lra.
    + intros x [<-|Hx]; [pose proof (Rmin_r a y); lra | apply H2, Hx].
Qed.

Lemma fold_max_ge (l : list R) (a : R) :
  a <= fold_left Rmax l a /\ forall x, In x l -> x <= fold_left Rmax l a.
Proof.
  revert a; induction l as [|y l IH]; intros a; simpl.
  - split; [lra | contradiction].
  - destruct (IH (Rmax a y)) as [H1 H2]. split.
    + pose proof (Rmax_l a y). lra.
    + intros x [<-|Hx]; [pose proof (Rmax_r a y); lra | apply H2, Hx].
Qed.

Lemma fold_max_le (l : list R) (a b : R) :
  a <= b -> (forall x, In x l -> x <= b) -> fold_left Rmax l a <= b.
Proof.
  revert a; induction l as [|y l IH]; intros a Ha H; simpl; [exact Ha|].
  apply IH; [apply Rmax_lub; [exact Ha | apply H; left; reflexivity]|].
  intros x Hx. apply H. right. exact Hx.
Qed.

Lemma amin_le (l : list R) (x : R) : In x l -> amin l <= x.
Proof.
  destruct l as [|a l]; [contradiction|]. simpl.
  destruct (fold_min_le l a) as [H1 H2].
  intros [<-|Hx]; [exact H1 | apply H2, Hx].
Qed.

Lemma amax_ge (l : list R) (x : R) : In x l -> x <= amax l.
Proof.
  destruct l as [|a l]; [contradiction|]. simpl.
  destruct (fold_max_ge l a) as [H1 H2].
  intros [<-|Hx]; [exact H1 | apply H2, Hx].
Qed.

Lemma amax_le (l : list R) (b : R) :
  l <> [] -> (forall x, In x l -> x <= b) -> amax l <= b.
Proof.
  destruct l as [|a l]; [congruence|]. intros _ H. simpl.
  apply fold_max_le; [apply H; left; reflexivity|].
  intros x Hx. apply H. right. exact Hx.
Qed.

Lemma amin_tab_le (g : nat -> R) (n j : nat) :
  (j < n)%nat -> amin (map g (seq 0 n)) <= g j.
Proof.
  intros Hj. apply amin_le. apply in_map_iff. exists j.
  split; [reflexivity | apply in_seq; lia].
Qed.

Lemma amax_tab_ge (g : nat -> R) (n j : nat) :
  (j < n)%nat -> g j <= amax (map g (seq 0 n)).
Proof.
  intros Hj. apply amax_ge. apply in_map_iff. exists j.
  split; [reflexivity | apply in_seq; lia].
Qed.

Lemma amax_tab_le (g : nat -> R) (n : nat) (b : R) :
  (0 < n)%nat -> (forall j, (j < n)%nat -> g j <= b) ->
  amax (map g (seq 0 n)) <= b.
Proof.
  intros Hn H. apply amax_le.
  - destruct n; [lia | discriminate].
  - intros x Hx. apply in_map_iff in Hx as (j & <- & Hj).
    apply in_seq in Hj. apply H. lia.
Qed.

(** ** The operations of [fixup_tensor_int8] on tables *)

Lemma amin_dim1_tabulate (N C : nat) (f : nat -> nat -> R) :
  amin_dim1 (tabulate N C f)
  = map (fun i => amin (map (f i) (seq 0 C))) (seq 0 N).
Proof. unfold amin_dim1, tabulate. rewrite map_map. reflexivity. Qed.

Lemma amax_dim1_tabulate (N C : nat) (f : nat -> nat -> R) :
  amax_dim1 (tabulate N C f)
  = map (fun i => amax (map (f i) (seq 0 C))) (seq 0 N).
Proof. unfold amax_dim1, tabulate. rewrite map_map. reflexivity. Qed.

Lemma amin_dim0_tabulate (N C : nat) (f : nat -> nat -> R) :
  (0 < N)%nat ->
  amin_dim0 (tabulate N C f)
  = map (fun j => amin (map (fun i => f i j) (seq 0 N))) (seq 0 C).
Proof.
  intros HN. unfold amin_dim0. rewrite transpose_tabulate by exact HN.
  unfold tabulate. rewrite map_map. reflexivity.
Qed.

Lemma amax_dim0_tabulate (N C : nat) (f : nat -> nat -> R) :
  (0 < N)%nat ->
  amax_dim0 (tabulate N C f)
  = map (fun j => amax (map (fun i => f i j) (seq 0 N))) (seq 0 C).
Proof.
  intros HN. unfold amax_dim0. rewrite transpose_tabulate by exact HN.
  unfold tabulate. rewrite map_map. reflexivity.
Qed.

Lemma sub_col_tabulate (N C : nat) (f : nat -> nat -> R) (g : nat -> R) :
  sub_col (tabulate N C f) (map g (seq 0 N))
  = tabulate N C (fun i j => f i j - g i).
Proof.
  unfold sub_col, tabulate. rewrite zipWith_map_seq.
  apply map_ext. intros i. rewrite map_map. reflexivity.
Qed.

Lemma div_col_tabulate (N C : nat) (f : nat -> nat -> R) (g : nat -> R) :
  div_col (tabulate N C f) (map g (seq 0 N))
  = tabulate N C (fun i j => f i j / g i).
Proof.
  unfold div_col, tabulate. rewrite zipWith_map_seq.
  apply map_ext. intros i. rewrite map_map. reflexivity.
Qed.

Lemma sub_row_tabulate (N C : nat) (f : nat -> nat -> R) (g : nat -> R) :
  sub_row (tabulate N C f) (map g (seq 0 C))
  = tabulate N C (fun i j => f i j - g j).
Proof.
  unfold sub_row, tabulate, vsub. rewrite map_map.
  apply map_ext. intros i. apply zipWith_map_seq.
Qed.

Lemma div_row_tabulate (N C : nat) (f : nat -> nat -> R) (g : nat -> R) :
  div_row (tabulate N C f) (map g (seq 0 C))
  = tabulate N C (fun i j => f i j / g j).
Proof.
  unfold div_row, tabulate, vdiv. rewrite map_map.
  apply map_ext. intros i. apply zipWith_map_seq.
Qed.

Lemma dequant_tabulate (N C : nat) (q : nat -> nat -> Z)
  (mx rx my ry : nat -> R) :
  dequant (map (fun i => map (q i) (seq 0 C)) (seq 0 N))
    (map mx (seq 0 C)) (map rx (seq 0 C))
    (map my (seq 0 N)) (map ry (seq 0 N))
  = tabulate N C
      (fun i j => (IZR (q i j) + 0.5) * ry i * rx j + my i + mx j).
Proof.
  unfold dequant, tabulate. rewrite !combine_map_seq, zipWith_map_seq.
  apply map_ext. intros i. rewrite zipWith_map_seq. reflexivity.
Qed.

(** ** One quantization step *)

(** The 8-bit code of a value in [[0, 1]] is within half a unit of
    [256] times the value. *)
Lemma to_uint8_bound (a : R) :
  0 <= a <= 1 ->
  - (1 / 2) <= IZR (to_uint8 a) + 0.5 - a * 256 <= 1 / 2.
Proof.
  intros [H0 H1]. unfold to_uint8.
  pose proof (Zfloor_bound (a * 256)) as [Hl Hu].
  assert (Hz0 : (0 <= Zfloor (a * 256))%Z).
  { apply Zfloor_lub. simpl. lra. }
  assert (Hz1 : (Zfloor (a * 256) <= 256)%Z).
  { apply le_IZR. lra. }
  rewrite Z.max_r by exact Hz0.
  destruct (Z.le_gt_cases (Zfloor (a * 256)) 255) as [Hle|Hgt].
  - rewrite Z.min_r by exact Hle. lra.
  - rewrite Z.min_l by lia.
    assert (Hz : Zfloor (a * 256) = 256%Z) by lia.
    rewrite Hz in Hl. lra.
Qed.

End QuantFacts.

Section QuantBound.

Import Tensor Quant.
Local Open Scope R_scope.

Lemma Forall_map_seq_pos (g : nat -> R) (n : nat) :
  Forall (fun r => 0 < r) (map g (seq 0 n)) ->
  forall j, (j < n)%nat -> 0 < g j.
Proof.
  intros H j Hj. rewrite Forall_forall in H. apply H.
  apply in_map_iff. exists j. split; [reflexivity | apply in_seq; lia].
Qed.

(** The minima, ranges and unit-scaled entries that [axis_ranges]
    computes, as functions of the row and column index. *)
Lemma axis_ranges_tabulate (N C : nat) (f : nat -> nat -> R) :
  (0 < N)%nat -> (0 < C)%nat ->
  exists (mx rx : nat -> R) (my ry : nat -> R) (u : nat -> nat -> R),
    axis_ranges (tabulate N C f)
    = mkRanges (map mx (seq 0 C)) (map rx (seq 0 C))
               (map my (seq 0 N)) (map ry (seq 0 N)) (tabulate N C u)
    /\ (forall i j, (i < N)%nat -> (j < C)%nat ->
        0 < rx j -> 0 < ry i ->
        f i j = u i j * ry i * rx j + my i + mx j /\ 0 <= u i j <= 1)
    /\ (forall i, (i < N)%nat ->
        (forall j, (j < C)%nat -> 0 < rx j) -> ry i <= 1).
Proof.
  intros HN HC. unfold axis_ranges.
  rewrite length_tabulate, ncols_tabulate by exact HN.
  destruct (C <? N)%nat.
  - (* rows first *)
    set (my := fun i => amin (map (f i) (seq 0 C))).
    set (f1 := fun i j => f i j - my i).
    set (mx := fun j => amin (map (fun i => f1 i j) (seq 0 N))).
    set (f2 := fun i j => f1 i j - mx j).
    set (rx := fun j => amax (map (fun i => f2 i j) (seq 0 N))).
    set (f3 := fun i j => f2 i j / rx j).
    set (ry := fun i => amax (map (f3 i) (seq 0 C))).
    set (u := fun i j => f3 i j / ry i).
    exists mx, rx, my, ry, u.
    assert (E1 : amin_dim1 (tabulate N C f) = map my (seq 0 N))
      by apply amin_dim1_tabulate.
    assert (E2 : sub_col (tabulate N C f) (map my (seq 0 N))
                 = tabulate N C f1) by apply sub_col_tabulate.
    assert (E3 : amin_dim0 (tabulate N C f1) = map mx (seq 0 C))
      by (apply amin_dim0_tabulate; exact HN).
    assert (E4 : sub_row (tabulate N C f1) (map mx (seq 0 C))
                 = tabulate N C f2) by apply sub_row_tabulate.
    assert (E5 : amax_dim0 (tabulate N C f2) = map rx (seq 0 C))
      by (apply amax_dim0_tabulate; exact HN).
    assert (E6 : div_row (tabulate N C f2) (map rx (seq 0 C))
                 = tabulate N C f3) by apply div_row_tabulate.
    assert (E7 : amax_dim1 (tabulate N C f3) = map ry (seq 0 N))
      by apply amax_dim1_tabulate.
    assert (E8 : div_col (tabulate N C f3) (map ry (seq 0 N))
                 = tabulate N C u) by apply div_col_tabulate.
    rewrite E1, E2, E3, E4, E5, E6, E7, E8.
    split; [reflexivity|].
    assert (H2 : forall i j, (i < N)%nat -> (j < C)%nat -> 0 <= f2 i j).
    { intros i j Hi Hj. unfold f2.
      pose proof (@amin_tab_le (fun i => f1 i j) N i Hi) as H.
      fold (mx j) in H. simpl in H. lra. }
    assert (H3 : forall i j, (i < N)%nat -> (j < C)%nat -> 0 < rx j ->
                 0 <= f3 i j <= 1).
    { intros i j Hi Hj Hr. unfold f3.
      pose proof (@amax_tab_ge (fun i => f2 i j) N i Hi) as H.
      fold (rx j) in H. simpl in H. pose proof (H2 i j Hi Hj).
      split; [apply Rle_mult_inv_pos; assumption|].
      apply Rmult_le_reg_r with (rx j); [exact Hr|].
      unfold Rdiv. rewrite Rmult_assoc, Rinv_l by lra. lra. }
    split.
    + intros i j Hi Hj Hrx Hry. split.
      * unfold u, f3, f2, f1. field. split; lra.
      * unfold u. destruct (H3 i j Hi Hj Hrx) as [Ha Hb].
        pose proof (@amax_tab_ge (f3 i) C j Hj) as H.
        fold (ry i) in H.
        split; [apply Rle_mult_inv_pos; assumption|].
        apply Rmult_le_reg_r with (ry i); [exact Hry|].
        unfold Rdiv. rewrite Rmult_assoc, Rinv_l by lra. lra.
    + intros i Hi Hall. unfold ry. apply amax_tab_le; [exact HC|].
      intros j Hj. apply H3; auto.
  - (* columns first *)
    set (mx := fun j => amin (map (fun i => f i j) (seq 0 N))).
    set (f1 := fun i j => f i j - mx j).
    set (my := fun i => amin (map (f1 i) (seq 0 C))).
    set (f2 := fun i j => f1 i j - my i).
    set (rx := fun j => amax (map (fun i => f2 i j) (seq 0 N))).
    set (f3 := fun i j => f2 i j / rx j).
    set (ry := fun i => amax (map (f3 i) (seq 0 C))).
    set (u := fun i j => f3 i j / ry i).
    exists mx, rx, my, ry, u.
    assert (E1 : amin_dim0 (tabulate N C f) = map mx (seq 0 C))
      by (apply amin_dim0_tabulate; exact HN).
    assert (E2 : sub_row (tabulate N C f) (map mx (seq 0 C))
                 = tabulate N C f1) by apply sub_row_tabulate.
    assert (E3 : amin_dim1 (tabulate N C f1) = map my (seq 0 N))
      by apply amin_dim1_tabulate.
    assert (E4 : sub_col (tabulate N C f1) (map my (seq 0 N))
                 = tabulate N C f2) by apply sub_col_tabulate.
    assert (E5 : amax_dim0 (tabulate N C f2) = map rx (seq 0 C))
      by (apply amax_dim0_tabulate; exact HN).
    assert (E6 : div_row (tabulate N C f2) (map rx (seq 0 C))
                 = tabulate N C f3) by apply div_row_tabulate.
    assert (E7 : amax_dim1 (tabulate N C f3) = map ry (seq 0 N))
      by apply amax_dim1_tabulate.
    assert (E8 : div_col (tabulate N C f3) (map ry (seq 0 N))
                 = tabulate N C u) by apply div_col_tabulate.
    rewrite E1, E2, E3, E4, E5, E6, E7, E8.
    split; [reflexivity|].
    assert (H2 : forall i j, (i < N)%nat -> (j < C)%nat -> 0 <= f2 i j).
    { intros i j Hi Hj. unfold f2.
      pose proof (@amin_tab_le (f1 i) C j Hj) as H.
      fold (my i) in H. lra. }
    assert (H3 : forall i j, (i < N)%nat -> (j < C)%nat -> 0 < rx j ->
                 0 <= f3 i j <= 1).
    { intros i j Hi Hj Hr. unfold f3.
      pose proof (@amax_tab_ge (fun i => f2 i j) N i Hi) as H.
      fold (rx j) in H. simpl in H. pose proof (H2 i j Hi Hj).
      split; [apply Rle_mult_inv_pos; assumption|].
      apply Rmult_le_reg_r with (rx j); [exact Hr|].
      unfold Rdiv. rewrite Rmult_assoc, Rinv_l by lra. lra. }
    split.
    + intros i j Hi Hj Hrx Hry. split.
      * unfold u, f3, f2, f1. field. split; lra.
      * unfold u. destruct (H3 i j Hi Hj Hrx) as [Ha Hb].
        pose proof (@amax_tab_ge (f3 i) C j Hj) as H.
        fold (ry i) in H.
        split; [apply Rle_mult_inv_pos; assumption|].
        apply Rmult_le_reg_r with (ry i); [exact Hry|].
        unfold Rdiv. rewrite Rmult_assoc, Rinv_l by lra. lra.
    + intros i Hi Hall. unfold ry. apply amax_tab_le; [exact HC|].
      intros j Hj. apply H3; auto.
Qed.

End QuantBound.

(** C3 -- for a matrix [M] of shape [N, C] whose per-axis ranges are
    positive, every entry of the dequantized matrix
    [(Q + 0.5) * ry * rx + my + mx], built from the result of
    [fixup_tensor_int8] with its stored correction tensors (ranges divided
    by 16), differs from the entry of [M] by at most one quantization
    step: the product of the two stored ranges, which is the range of the
    column times the relative range of the row, divided by 256, and so at
    most 1/256 of the range of the column. *)
Theorem C3_dequantize_within_one_step (M : Tensor.mat) (N C i j : nat) :
  Tensor.has_shape M N C ->
  (i < N)%nat -> (j < C)%nat ->
  Forall (fun r => 0 < r)%R (Quant.r_rx (Quant.axis_ranges M)) ->
  Forall (fun r => 0 < r)%R (Quant.r_ry (Quant.axis_ranges M)) ->
  let Q := Quant.fixup_tensor_int8 M in
  let range_x := nth j (Quant.r_rx (Quant.axis_ranges M)) 0%R in
  let range_y := nth i (Quant.r_ry (Quant.axis_ranges M)) 0%R in
  let step := (nth j (Quant.q_rx Q) 0 * nth i (Quant.q_ry Q) 0)%R in
  (Rabs (Tensor.entry (Quant.dequantize Q) i j - Tensor.entry M i j) <= step
   /\ step = range_x * range_y / 256
   /\ step <= range_x / 256)%R.
Proof.
  intros Hshape Hi Hj Hrx Hry.
  assert (HN : (0 < N)%nat) by lia. assert (HC : (0 < C)%nat) by lia.
  pose proof (tabulate_entry Hshape) as EM.
  set (f := Tensor.entry M) in EM. clearbody f. subst M.
  destruct (axis_ranges_tabulate f HN HC)
    as (mx & rx & my & ry & u & E & Hval & Hry1).
  unfold Quant.fixup_tensor_int8, Quant.dequantize. rewrite E in *.
  cbn [Quant.r_mx Quant.r_rx Quant.r_my Quant.r_ry Quant.r_unit
       Quant.q_w Quant.q_mx Quant.q_rx Quant.q_my Quant.q_ry] in *.
  pose proof (Forall_map_seq_pos _ Hrx) as Prx.
  pose proof (Forall_map_seq_pos _ Hry) as Pry.
  unfold Tensor.vdivc, Tensor.tabulate at 1. rewrite !map_map.
  rewrite (map_ext (fun x => map Quant.to_uint8 (map (fun j0 => u x j0) (seq 0 C)))
                   (fun x => map (fun j0 => Quant.to_uint8 (u x j0)) (seq 0 C)))
    by (intros; apply map_map).
  rewrite (dequant_tabulate N C (fun i j => Quant.to_uint8 (u i j))
             mx (fun j => rx j / 16)%R my (fun i => ry i / 16)%R).
  rewrite !entry_tabulate by assumption.
  rewrite !nth_map_seq by assumption. cbn [Nat.add].
  destruct (Hval i j Hi Hj (Prx j Hj) (Pry i Hi)) as [Hf Hu].
  pose proof (to_uint8_bound Hu) as Hq.
  pose proof (Prx j Hj) as Hx. pose proof (Pry i Hi) as Hy.
  pose proof (Hry1 i Hi Prx) as Hy1.
  split; [|split].
  - rewrite Hf.
    replace ((IZR (Quant.to_uint8 (u i j)) + 0.5) * (ry i / 16) * (rx j / 16)
             + my i + mx j - (u i j * ry i * rx j + my i + mx j))%R
      with ((IZR (Quant.to_uint8 (u i j)) + 0.5 - u i j * 256)
            * (rx j / 16 * (ry i / 16)))%R by field.
    rewrite Rabs_mult.
    rewrite (Rabs_pos_eq (rx j / 16 * (ry i / 16))) by nra.
    assert (Ha : (Rabs (IZR (Quant.to_uint8 (u i j)) + 0.5 - u i j * 256) <= 1)%R).
    { apply Rabs_le. lra. }
    assert (Hp : (0 <= rx j / 16 * (ry i / 16))%R) by nra.
    nra.
  - field.
  - nra.
Qed.

Section QuantExample.

Import Tensor Quant.
Local Open Scope R_scope.

Ltac eval_minmax :=
  repeat match goal with
  | |- context [Rmin ?a ?b] =>
      first [ rewrite (Rmin_left a b) by lra | rewrite (Rmin_right a b) by lra ]
  | |- context [Rmax ?a ?b] =>
      first [ rewrite (Rmax_left a b) by lra | rewrite (Rmax_right a b) by lra ]
  end.

Lemma example_ranges :
  r_rx (axis_ranges example_matrix) = [1; 1]
  /\ r_ry (axis_ranges example_matrix) = [1; 1].
Proof.
  cbv [example_matrix axis_ranges ncols length hd Nat.ltb Nat.leb
       amin_dim0 amin_dim1 amax_dim0 amax_dim1 transpose seq map nth
       amin amax fold_left sub_row sub_col div_row div_col zipWith
       vsub vdiv r_rx r_ry].
  eval_minmax. split; repeat f_equal; field.
Qed.

End QuantExample.

Lemma C3_dequantize_within_one_step_witness :
  (Rabs (Tensor.entry (Quant.dequantize
                         (Quant.fixup_tensor_int8 Quant.example_matrix)) 0 0
         - Tensor.entry Quant.example_matrix 0 0)
   <= nth 0 (Quant.q_rx (Quant.fixup_tensor_int8 Quant.example_matrix)) 0
      * nth 0 (Quant.q_ry (Quant.fixup_tensor_int8 Quant.example_matrix)) 0)%R.
Proof.
  refine (proj1 (@C3_dequantize_within_one_step
                   Quant.example_matrix 2 2 0 0 _ _ _ _ _)).
  - split; [reflexivity | repeat constructor].
  - lia.
  - lia.
  - rewrite (proj1 example_ranges). repeat constructor; lra.
  - rewrite (proj2 example_ranges). repeat constructor; lra.
Defined.

(* ================================================================== *)
(** * Theorems: sequence mode and single-token mode                     *)
(* ================================================================== *)

Section EngineRows.

Import Py Tensor Quant Engine.
Local Open Scope R_scope.

Variable eps : R.

Lemma length_zipWith {A B C} (f : A -> B -> C) (a : list A) (b : list B) :
  length (zipWith f a b) = Nat.min (length a) (length b).
Proof.
  revert b; induction a as [|x a IH]; intros [|y b]; simpl; try reflexivity.
  f_equal. apply IH.
Qed.

Lemma length_matmat (x w : mat) : length (matmat x w) = length x.
Proof. apply length_map. Qed.

Lemma length_shifted {A} (s : A) (l : list A) :
  l <> [] -> length (s :: removelast l) = length l.
Proof.
  intros H. simpl. destruct l as [|a l]; [congruence|].
  rewrite (app_removelast_last a H) at 2.
  rewrite length_app. simpl. lia.
Qed.

Lemma setitem_app {A} (l1 l2 : list A) (a v : A) :
  setitem (l1 ++ a :: l2) (length l1) v = l1 ++ v :: l2.
Proof. induction l1 as [|x l1 IH]; simpl; [reflexivity | f_equal; exact IH]. Qed.

Lemma nth_middle_app {A} (l1 l2 : list A) (a d : A) :
  nth (length l1) (l1 ++ a :: l2) d = a.
Proof. induction l1 as [|x l1 IH]; simpl; [reflexivity | exact IH]. Qed.

(** The loop of [att_seq] overwrites every row of its buffer; what it
    leaves is the recurrence along the rows of [k] and [v]. *)
Lemma wkv_loop_from (td tf : vec) (m : nat) :
  forall (k1 k2 v1 v2 done rest : mat) (aa bb pp : vec),
    length k1 = length done -> length v1 = length done ->
    length k2 = m -> length v2 = m -> length rest = m ->
    wkv_loop td tf (k1 ++ k2) (v1 ++ v2) (seq (length done) m)
      (done ++ rest, aa, bb, pp)
    = let '(outs, a, b, p) := wkv_rows td tf k2 v2 aa bb pp in
      (done ++ outs, a, b, p).
Proof.
  induction m as [|m IH]; intros k1 k2 v1 v2 done rest aa bb pp Hk1 Hv1 Hk2 Hv2 Hr.
  - destruct k2; [|discriminate]. destruct rest; [|discriminate].
    simpl. reflexivity.
  - destruct k2 as [|kk k2]; [discriminate|].
    destruct v2 as [|vv v2]; [discriminate|].
    destruct rest as [|r0 rest]; [discriminate|].
    cbn [seq wkv_loop wkv_rows].
    assert (Ek : nth (length done) (k1 ++ kk :: k2) [] = kk)
      by (rewrite <- Hk1; apply nth_middle_app).
    assert (Ev : nth (length done) (v1 ++ vv :: v2) [] = vv)
      by (rewrite <- Hv1; apply nth_middle_app).
    rewrite Ek, Ev, setitem_app.
    destruct (wkv_next td kk vv aa bb pp) as [[aa' bb'] p'].
    specialize (IH (k1 ++ [kk]) k2 (v1 ++ [vv]) v2
                  (done ++ [wkv_out tf kk vv aa bb pp]) rest aa' bb' p').
    rewrite <- !app_assoc in IH. simpl in IH.
    rewrite !length_app in IH. simpl in IH.
    replace (length done + 1)%nat with (S (length done)) in IH by lia.
    rewrite IH by (simpl in *; lia).
    destruct (wkv_rows td tf k2 v2 aa' bb' p') as [[[outs a] b] p].
    rewrite <- app_assoc. reflexivity.
Qed.

Lemma wkv_loop_rows (td tf : vec) (k v buf : mat) (aa bb pp : vec) :
  length k = length buf -> length v = length buf ->
  wkv_loop td tf k v (seq 0 (length buf)) (buf, aa, bb, pp)
  = wkv_rows td tf k v aa bb pp.
Proof.
  intros Hk Hv.
  pose proof (@wkv_loop_from td tf (length buf) [] k [] v [] buf aa bb pp) as H.
  cbn [app List.length] in H.
  refine (eq_trans (H eq_refl eq_refl Hk Hv eq_refl) _).
  destruct (wkv_rows td tf k v aa bb pp) as [[[outs a] b] p]. reflexivity.
Qed.

End EngineRows.

Section AttentionRows.

Import Py Tensor Quant Engine.
Local Open Scope R_scope.

Variable eps : R.
Variables ln_w ln_b k_mix v_mix r_mix t_decay t_first : vec.
Variables kw vw rw ow : mat.

Local Abbreviation step :=
  (att_step eps ln_w ln_b k_mix v_mix r_mix t_decay t_first kw vw rw ow).
Local Abbreviation body :=
  (att_body k_mix v_mix r_mix t_decay t_first kw vw rw ow).

Lemma att_seq_body (x : mat) (sx aa bb pp : vec) :
  x <> [] ->
  att_seq eps x sx aa bb pp ln_w ln_b k_mix v_mix r_mix t_decay t_first
    kw vw rw ow
  = let xx := map (fun row => layer_norm eps row ln_w ln_b) x in
    let '(y, a, b, p) := body x xx (sx :: all_but_last xx) aa bb pp in
    (y, last_row xx, a, b, p).
Proof.
  intros Hx. unfold att_seq, att_body.
  set (xx := map (fun row => layer_norm eps row ln_w ln_b) x).
  assert (Hxx : xx <> []) by (destruct x; [congruence | discriminate]).
  assert (Hl : length (sx :: all_but_last xx) = length x).
  { unfold all_but_last. rewrite length_shifted by exact Hxx.
    apply length_map. }
  cbv zeta. rewrite <- Hl at 1.
  rewrite wkv_loop_rows.
  - destruct (wkv_rows _ _ _ _ _ _ _) as [[[outs a] b] p]. reflexivity.
  - rewrite length_matmat, length_zipWith, Hl.
    unfold xx. rewrite length_map. apply Nat.min_id.
  - rewrite length_matmat, length_zipWith, Hl.
    unfold xx. rewrite length_map. apply Nat.min_id.
Qed.

Lemma cuda_att_seq_body (x : mat) (sx aa bb pp : vec) :
  x <> [] ->
  cuda_att_seq eps x sx aa bb pp ln_w ln_b k_mix v_mix r_mix t_decay t_first
    kw vw rw ow
  = let xx := map (fun row => layer_norm eps row ln_w ln_b) x in
    let '(y, a, b, p) := body x xx (sx :: all_but_last xx) aa bb pp in
    (y, last_row xx, a, b, p).
Proof.
  intros Hx. unfold cuda_att_seq, cuda_wkv, att_body.
  set (xx := map (fun row => layer_norm eps row ln_w ln_b) x).
  assert (Hxx : xx <> []) by (destruct x; [congruence | discriminate]).
  assert (Hl : length (sx :: all_but_last xx) = length x).
  { unfold all_but_last. rewrite length_shifted by exact Hxx.
    apply length_map. }
  assert (Hy : length (repeat (zeros (ncols x)) (length x)) = length x)
    by apply repeat_length.
  cbv zeta. rewrite <- Hy at 1.
  rewrite wkv_loop_rows.
  - destruct (wkv_rows _ _ _ _ _ _ _) as [[[outs a] b] p]. reflexivity.
  - rewrite length_matmat, length_zipWith, Hl, Hy.
    unfold xx. rewrite length_map. apply Nat.min_id.
  - rewrite length_matmat, length_zipWith, Hl, Hy.
    unfold xx. rewrite length_map. apply Nat.min_id.
Qed.

(** On a non-empty sequence the accelerated attention path computes what
    [att_seq] computes. *)
Lemma cuda_att_seq_eq (x : mat) (sx aa bb pp : vec) :
  x <> [] ->
  cuda_att_seq eps x sx aa bb pp ln_w ln_b k_mix v_mix r_mix t_decay t_first
    kw vw rw ow
  = att_seq eps x sx aa bb pp ln_w ln_b k_mix v_mix r_mix t_decay t_first
      kw vw rw ow.
Proof.
  intros Hx. rewrite cuda_att_seq_body, att_seq_body by exact Hx.
  reflexivity.
Qed.

(** [att_seq] is [att_one] applied along the rows, the state of one row
    being the input state of the next. *)
Lemma att_seq_rows (x : mat) :
  x <> [] ->
  forall sx aa bb pp,
    att_seq eps x sx aa bb pp ln_w ln_b k_mix v_mix r_mix t_decay t_first
      kw vw rw ow
    = let '(y, (n0, n1, n2, n3)) := map_accum step x (sx, aa, bb, pp) in
      (y, n0, n1, n2, n3).
Proof.
  induction x as [|r x IH]; [congruence|]. intros _ sx aa bb pp.
  rewrite att_seq_body by discriminate.
  destruct x as [|r' x].
  - (* last row *)
    cbn [map_accum att_step]. unfold att_body, att_one.
    cbn [map all_but_last removelast zipWith matmat wkv_rows last_row last].
    destruct (wkv_next _ _ _ _ _ _) as [[aa' bb'] p']. reflexivity.
  - specialize (IH ltac:(discriminate)).
    remember (r' :: x) as X' eqn:EX.
    cbn [map_accum]. unfold att_step at 1.
    unfold att_one at 1. cbv beta iota zeta.
    set (xr := layer_norm eps r ln_w ln_b).
    set (k0 := vecmat (token_shift xr sx k_mix) kw).
    set (v0 := vecmat (token_shift xr sx v_mix) vw).
    destruct (wkv_next t_decay k0 v0 aa bb pp) as [[aa' bb'] p'] eqn:Enext.
    specialize (IH xr aa' bb' p').
    rewrite att_seq_body in IH by (subst X'; discriminate).
    cbv zeta in IH.
    destruct (map_accum step X' (xr, aa', bb', p'))
      as [ys [[[n0 n1] n2] n3]].
    unfold att_body in *.
    set (xx := map (fun row => layer_norm eps row ln_w ln_b) X') in *.
    change (map (fun row => layer_norm eps row ln_w ln_b) (r :: X'))
      with (xr :: xx).
    assert (Hs : all_but_last (xr :: xx) = xr :: all_but_last xx)
      by (unfold xx; subst X'; reflexivity).
    assert (Hl : last_row (xr :: xx) = last_row xx)
      by (unfold xx; subst X'; reflexivity).
    rewrite Hs, Hl.
    cbn [zipWith matmat map wkv_rows]. fold k0 v0. rewrite Enext.
    destruct (wkv_rows _ _ _ _ _ _ _) as [[[outs a] b] p].
    cbn [zipWith matmat map].
    injection IH as <- <- <- <- <-. reflexivity.
Qed.

End AttentionRows.

Section FfnRows.

Import Py Tensor Quant Engine.
Local Open Scope R_scope.

Variable eps : R.
Variables ln_w ln_b k_mix r_mix : vec.
Variables kw vw rw : mat.

Local Abbreviation fstep := (ffn_step eps ln_w ln_b k_mix r_mix kw vw rw).

(** [ffn_seq] is [ffn_one] applied along the rows. *)
Lemma ffn_seq_rows (x : mat) :
  x <> [] ->
  forall sx,
    ffn_seq eps x sx ln_w ln_b k_mix r_mix kw vw rw
    = map_accum fstep x sx.
Proof.
  induction x as [|r x IH]; [congruence|]. intros _ sx.
  destruct x as [|r' x].
  - reflexivity.
  - specialize (IH ltac:(discriminate)).
    remember (r' :: x) as X' eqn:EX.
    cbn [map_accum]. unfold ffn_step at 1. unfold ffn_one at 1.
    cbv beta iota zeta.
    set (xr := layer_norm eps r ln_w ln_b).
    rewrite <- (IH xr).
    unfold ffn_seq.
    set (xx := map (fun row => layer_norm eps row ln_w ln_b) X').
    change (map (fun row => layer_norm eps row ln_w ln_b) (r :: X'))
      with (xr :: xx).
    assert (Hs : all_but_last (xr :: xx) = xr :: all_but_last xx)
      by (unfold xx; subst X'; reflexivity).
    assert (Hl : last_row (xr :: xx) = last_row xx)
      by (unfold xx; subst X'; reflexivity).
    cbv zeta. rewrite Hs, Hl.
    cbn [zipWith matmat map]. reflexivity.
Qed.

End FfnRows.

Section LayerRows.

Import Py Tensor Quant Engine.
Local Open Scope R_scope.

Variable eps : R.

Lemma map_accum_nonempty {X Y S} (f : X -> S -> Y * S) (xs : list X) (s : S) :
  xs <> [] -> fst (map_accum f xs s) <> [].
Proof.
  destruct xs as [|x xs]; [congruence|]. intros _. simpl.
  destruct (f x s) as [y s1]. destruct (map_accum f xs s1). discriminate.
Qed.

Lemma length_map_accum {X Y S} (f : X -> S -> Y * S) (xs : list X) (s : S) :
  length (fst (map_accum f xs s)) = length xs.
Proof.
  revert s; induction xs as [|x xs IH]; intros s; simpl; [reflexivity|].
  destruct (f x s) as [y s1]. specialize (IH s1).
  destruct (map_accum f xs s1). simpl in *. f_equal. exact IH.
Qed.

(** Attention along the rows, then the FFN along the rows, then the
    rescaling of every row, is the whole layer along the rows. *)
Lemma layer_rows (self : RWKV) (i : nat) (b : block) (x : mat) :
  forall s0 s1 s2 s3 s4,
    (let '(x1, (n0, n1, n2, n3)) :=
       map_accum
         (att_step eps (ln1_weight b) (ln1_bias b)
            (att_time_mix_k b) (att_time_mix_v b) (att_time_mix_r b)
            (att_time_decay b) (att_time_first b)
            (effective (att_key_weight b)) (effective (att_value_weight b))
            (effective (att_receptance_weight b))
            (effective (att_output_weight b)))
         x (s0, s1, s2, s3) in
     let '(x2, n4) :=
       map_accum
         (ffn_step eps (ln2_weight b) (ln2_bias b)
            (ffn_time_mix_k b) (ffn_time_mix_r b)
            (effective (ffn_key_weight b)) (effective (ffn_value_weight b))
            (effective (ffn_receptance_weight b)))
         x1 s4 in
     (map (rescale_row self i) x2, (n0, n1, n2, n3, n4)))
    = map_accum (layer_one eps self i b) x (s0, s1, s2, s3, s4).
Proof.
  induction x as [|r x IH]; intros s0 s1 s2 s3 s4.
  - reflexivity.
  - cbn [map_accum]. unfold layer_one at 1. unfold att_step at 1.
    destruct (att_one _ _ _ _ _ _ _ _ _ _ _ _ _ _ _ _ _)
      as [[[[y n0] n1] n2] n3].
    specialize (IH n0 n1 n2 n3).
    destruct (map_accum (att_step _ _ _ _ _ _ _ _ _ _ _ _) x _)
      as [x1 [[[m0 m1] m2] m3]].
    cbn [map_accum]. unfold ffn_step at 1.
    destruct (ffn_one _ _ _ _ _ _ _ _ _ _) as [z n4].
    specialize (IH n4).
    destruct (map_accum (ffn_step _ _ _ _ _ _ _ _) x1 n4) as [x2 m4].
    rewrite <- IH. reflexivity.
Qed.

End LayerRows.

Section StackInterchange.

Import Py Tensor Quant Engine.
Local Open Scope R_scope.

Variable eps : R.
Variable self : RWKV.

Lemma map_accum_fixed {X S} (f : X -> S -> X * S) (xs : list X) (s : S) :
  (forall x, f x s = (x, s)) -> map_accum f xs s = (xs, s).
Proof.
  intros H. induction xs as [|x xs IH]; [reflexivity|].
  cbn [map_accum]. rewrite H, IH. reflexivity.
Qed.

Lemma map_accum_cons {X Y S} (f : X -> S -> Y * S) (x : X) (xs : list X)
  (s : S) :
  map_accum f (x :: xs) s
  = let '(y, s1) := f x s in
    let '(ys, s2) := map_accum f xs s1 in (y :: ys, s2).
Proof. reflexivity. Qed.

(** Running the layers one after the other over the whole sequence gives
    what running the whole stack token after token gives. *)
Lemma stack_interchange (bs : list block) :
  forall (i : nat) (x : mat) (cs : list cell),
    stack_rows eps self i bs x cs
    = map_accum (stack_one eps self i bs) x cs.
Proof.
  induction bs as [|b bs IH]; intros i x cs.
  - cbn [stack_rows]. symmetry. apply map_accum_fixed. reflexivity.
  - destruct cs as [|c cs].
    + cbn [stack_rows]. symmetry. apply map_accum_fixed. reflexivity.
    + cbn [stack_rows]. revert c cs.
      induction x as [|r x IHx]; intros c cs.
      * cbn [map_accum]. rewrite IH. reflexivity.
      * rewrite !map_accum_cons.
        change (stack_one eps self i (b :: bs) r (c :: cs))
          with (let '(x1, c1) := layer_one eps self i b r c in
                let '(x2, cs1) := stack_one eps self (S i) bs x1 cs in
                (x2, c1 :: cs1)).
        destruct (layer_one eps self i b r c) as [y c1].
        specialize (IHx c1).
        destruct (map_accum (layer_one eps self i b) x c1) as [x1 c2].
        rewrite IH. rewrite map_accum_cons.
        destruct (stack_one eps self (S i) bs y cs) as [z cs1].
        specialize (IHx cs1). rewrite IH in IHx.
        destruct (map_accum (stack_one eps self (S i) bs) x1 cs1)
          as [x2 cs2].
        rewrite <- IHx. reflexivity.
Qed.

End StackInterchange.

Section Bridge.

Import Py Tensor Quant Engine.
Local Open Scope R_scope.

Variable eps : R.
Variable self : RWKV.

Local Abbreviation att_act := (Engine.att_act eps).
Local Abbreviation ffn_act := (Engine.ffn_act eps).
Local Abbreviation layer_act := (Engine.layer_act eps self).
Local Abbreviation stack_act := (Engine.stack_act eps self).

Lemma getitem_nat {A} (l : list A) (n : nat) :
  getitem l (Z.of_nat n)
  = match nth_error l n with Some a => Ok a | None => Raise IndexError end.
Proof.
  unfold getitem.
  assert (E : (Z.of_nat n <? 0)%Z = false) by (apply Z.ltb_ge; lia).
  cbv zeta. rewrite !E, Nat2Z.id. reflexivity.
Qed.

Lemma getitem_app {A} (pre l : list A) (n k : nat) :
  length pre = n ->
  getitem (pre ++ l) (Z.of_nat (n + k)) = getitem l (Z.of_nat k).
Proof.
  intros <-. rewrite !getitem_nat.
  rewrite nth_error_app2 by lia.
  replace (length pre + k - length pre)%nat with k by lia. reflexivity.
Qed.

Lemma setitem_pre {A} (pre l : list A) (n k : nat) (v : A) :
  length pre = n ->
  setitem (pre ++ l) (n + k) v = pre ++ setitem l k v.
Proof.
  intros <-. induction pre as [|a pre IH]; simpl; [reflexivity|].
  f_equal. exact IH.
Qed.

Lemma att_one_i8_eq x sx aa bb pp ln_w ln_b k_mix v_mix r_mix td tf
  (kq vq rq oq : mm8w) :
  att_one_i8 eps x sx aa bb pp ln_w ln_b k_mix v_mix r_mix td tf
    (q_w kq) (q_w vq) (q_w rq) (q_w oq)
    (q_mx kq) (q_rx kq) (q_my kq) (q_ry kq)
    (q_mx vq) (q_rx vq) (q_my vq) (q_ry vq)
    (q_mx rq) (q_rx rq) (q_my rq) (q_ry rq)
    (q_mx oq) (q_rx oq) (q_my oq) (q_ry oq)
  = att_one eps x sx aa bb pp ln_w ln_b k_mix v_mix r_mix td tf
      (dequantize kq) (dequantize vq) (dequantize rq) (dequantize oq).
Proof. reflexivity. Qed.

Lemma att_seq_i8_eq x sx aa bb pp ln_w ln_b k_mix v_mix r_mix td tf
  (kq vq rq oq : mm8w) :
  att_seq_i8 eps x sx aa bb pp ln_w ln_b k_mix v_mix r_mix td tf
    (q_w kq) (q_w vq) (q_w rq) (q_w oq)
    (q_mx kq) (q_rx kq) (q_my kq) (q_ry kq)
    (q_mx vq) (q_rx vq) (q_my vq) (q_ry vq)
    (q_mx rq) (q_rx rq) (q_my rq) (q_ry rq)
    (q_mx oq) (q_rx oq) (q_my oq) (q_ry oq)
  = att_seq eps x sx aa bb pp ln_w ln_b k_mix v_mix r_mix td tf
      (dequantize kq) (dequantize vq) (dequantize rq) (dequantize oq).
Proof. reflexivity. Qed.

Lemma cuda_att_seq_i8_eq x sx aa bb pp ln_w ln_b k_mix v_mix r_mix td tf
  (kq vq rq oq : mm8w) :
  cuda_att_seq_i8 eps x sx aa bb pp ln_w ln_b k_mix v_mix r_mix td tf
    (q_w kq) (q_w vq) (q_w rq) (q_w oq)
    (q_mx kq) (q_rx kq) (q_my kq) (q_ry kq)
    (q_mx vq) (q_rx vq) (q_my vq) (q_ry vq)
    (q_mx rq) (q_rx rq) (q_my rq) (q_ry rq)
    (q_mx oq) (q_rx oq) (q_my oq) (q_ry oq)
  = cuda_att_seq eps x sx aa bb pp ln_w ln_b k_mix v_mix r_mix td tf
      (dequantize kq) (dequantize vq) (dequantize rq) (dequantize oq).
Proof. reflexivity. Qed.

Lemma ffn_one_i8_eq x sx ln_w ln_b k_mix r_mix (kq vq rq : mm8w) :
  ffn_one_i8 eps x sx ln_w ln_b k_mix r_mix (q_w kq) (q_w vq) (q_w rq)
    (q_mx kq) (q_rx kq) (q_my kq) (q_ry kq)
    (q_mx vq) (q_rx vq) (q_my vq) (q_ry vq)
    (q_mx rq) (q_rx rq) (q_my rq) (q_ry rq)
  = ffn_one eps x sx ln_w ln_b k_mix r_mix
      (dequantize kq) (dequantize vq) (dequantize rq).
Proof. reflexivity. Qed.

Lemma ffn_seq_i8_eq x sx ln_w ln_b k_mix r_mix (kq vq rq : mm8w) :
  ffn_seq_i8 eps x sx ln_w ln_b k_mix r_mix (q_w kq) (q_w vq) (q_w rq)
    (q_mx kq) (q_rx kq) (q_my kq) (q_ry kq)
    (q_mx vq) (q_rx vq) (q_my vq) (q_ry vq)
    (q_mx rq) (q_rx rq) (q_my rq) (q_ry rq)
  = ffn_seq eps x sx ln_w ln_b k_mix r_mix
      (dequantize kq) (dequantize vq) (dequantize rq).
Proof. reflexivity. Qed.

Lemma block_ok_kinds (dd : Strategy.slot) (b : block) :
  block_ok dd b = true ->
  let u := is_uint8 (Strategy.wtype dd) in
  is_quant (att_key_weight b) = u /\ is_quant (att_value_weight b) = u
  /\ is_quant (att_receptance_weight b) = u
  /\ is_quant (att_output_weight b) = u
  /\ is_quant (ffn_key_weight b) = u /\ is_quant (ffn_value_weight b) = u
  /\ is_quant (ffn_receptance_weight b) = u.
Proof.
  unfold block_ok. intros H.
  repeat (apply andb_prop in H; destruct H as [H ?]).
  repeat match goal with
         | E : Bool.eqb _ _ = true |- _ => apply Bool.eqb_prop in E
         end.
  cbv zeta. auto 10.
Qed.

Lemma att_stage_ok (i : nat) (dd : Strategy.slot) (b : block) (x : act)
  (pre : list vec) (s0 s1 s2 s3 : vec) (rest : list vec) :
  block_ok dd b = true ->
  length pre = (i * 5)%nat ->
  act_nonempty x ->
  att_stage eps self i dd b x (pre ++ s0 :: s1 :: s2 :: s3 :: rest)
  = let '(y, n0, n1, n2, n3) := att_act b x s0 s1 s2 s3 in
    Ok (y, pre ++ n0 :: n1 :: n2 :: n3 :: rest).
Proof.
  intros Hb Hpre Hx.
  destruct (block_ok_kinds _ _ Hb) as (Hk & Hv & Hr & Ho & _).
  unfold att_stage, slot_index.
  rewrite !(getitem_app _ _ _ Hpre). rewrite !getitem_nat.
  cbn [nth_error].
  destruct (is_uint8 (Strategy.wtype dd)).
  - destruct (att_key_weight b) as [|kq] eqn:Ek; [discriminate|].
    destruct (att_value_weight b) as [|vq] eqn:Ev; [discriminate|].
    destruct (att_receptance_weight b) as [|rq] eqn:Er; [discriminate|].
    destruct (att_output_weight b) as [|oq] eqn:Eo; [discriminate|].
    cbn [corrections bind effective]. unfold Engine.att_act.
    rewrite Ek, Ev, Er, Eo. cbn [effective].
    destruct x as [v|m].
    + rewrite att_one_i8_eq.
      destruct (att_one _ _ _ _ _ _ _ _ _ _ _ _ _ _ _ _ _)
        as [[[[y n0] n1] n2] n3].
      rewrite !(setitem_pre _ _ _ _ Hpre). reflexivity.
    + destruct (contains (Strategy.device dd) "cuda" && RWKV_CUDA_ON self).
      * rewrite cuda_att_seq_i8_eq, cuda_att_seq_eq by exact Hx.
        destruct (att_seq _ _ _ _ _ _ _ _ _ _ _ _ _ _ _ _ _)
          as [[[[y n0] n1] n2] n3].
        rewrite !(setitem_pre _ _ _ _ Hpre). reflexivity.
      * rewrite att_seq_i8_eq.
        destruct (att_seq _ _ _ _ _ _ _ _ _ _ _ _ _ _ _ _ _)
          as [[[[y n0] n1] n2] n3].
        rewrite !(setitem_pre _ _ _ _ Hpre). reflexivity.
  - destruct (att_key_weight b) as [kw|] eqn:Ek; [|discriminate].
    destruct (att_value_weight b) as [vw|] eqn:Ev; [|discriminate].
    destruct (att_receptance_weight b) as [rw|] eqn:Er; [|discriminate].
    destruct (att_output_weight b) as [ow|] eqn:Eo; [|discriminate].
    cbn [float_matrix bind effective]. unfold Engine.att_act.
    rewrite Ek, Ev, Er, Eo. cbn [effective].
    destruct x as [v|m].
    + destruct (att_one _ _ _ _ _ _ _ _ _ _ _ _ _ _ _ _ _)
        as [[[[y n0] n1] n2] n3].
      rewrite !(setitem_pre _ _ _ _ Hpre). reflexivity.
    + destruct (contains (Strategy.device dd) "cuda" && RWKV_CUDA_ON self).
      * rewrite cuda_att_seq_eq by exact Hx.
        destruct (att_seq _ _ _ _ _ _ _ _ _ _ _ _ _ _ _ _ _)
          as [[[[y n0] n1] n2] n3].
        rewrite !(setitem_pre _ _ _ _ Hpre). reflexivity.
      * destruct (att_seq _ _ _ _ _ _ _ _ _ _ _ _ _ _ _ _ _)
          as [[[[y n0] n1] n2] n3].
        rewrite !(setitem_pre _ _ _ _ Hpre). reflexivity.
Qed.

Lemma ffn_stage_ok (i : nat) (dd : Strategy.slot) (b : block) (x : act)
  (pre : list vec) (a0 a1 a2 a3 s4 : vec) (rest : list vec) :
  block_ok dd b = true ->
  length pre = (i * 5)%nat ->
  ffn_stage eps self i dd b x (pre ++ a0 :: a1 :: a2 :: a3 :: s4 :: rest)
  = let '(y, n4) := ffn_act b x s4 in
    Ok (y, pre ++ a0 :: a1 :: a2 :: a3 :: n4 :: rest).
Proof.
  intros Hb Hpre.
  destruct (block_ok_kinds _ _ Hb) as (_ & _ & _ & _ & Hk & Hv & Hr).
  unfold ffn_stage, slot_index.
  rewrite !(getitem_app _ _ _ Hpre). rewrite !getitem_nat.
  cbn [nth_error].
  destruct (is_uint8 (Strategy.wtype dd)).
  - destruct (ffn_key_weight b) as [|kq] eqn:Ek; [discriminate|].
    destruct (ffn_value_weight b) as [|vq] eqn:Ev; [discriminate|].
    destruct (ffn_receptance_weight b) as [|rq] eqn:Er; [discriminate|].
    cbn [corrections bind effective]. unfold Engine.ffn_act.
    rewrite Ek, Ev, Er. cbn [effective].
    destruct x as [v|m].
    + rewrite ffn_one_i8_eq.
      destruct (ffn_one _ _ _ _ _ _ _ _ _ _) as [y n4].
      rewrite !(setitem_pre _ _ _ _ Hpre). reflexivity.
    + rewrite ffn_seq_i8_eq.
      destruct (ffn_seq _ _ _ _ _ _ _ _ _ _) as [y n4].
      rewrite !(setitem_pre _ _ _ _ Hpre). reflexivity.
  - destruct (ffn_key_weight b) as [kw|] eqn:Ek; [|discriminate].
    destruct (ffn_value_weight b) as [vw|] eqn:Ev; [|discriminate].
    destruct (ffn_receptance_weight b) as [rw|] eqn:Er; [|discriminate].
    cbn [float_matrix bind effective]. unfold Engine.ffn_act.
    rewrite Ek, Ev, Er. cbn [effective].
    destruct x as [v|m].
    + destruct (ffn_one _ _ _ _ _ _ _ _ _ _) as [y n4].
      rewrite !(setitem_pre _ _ _ _ Hpre). reflexivity.
    + destruct (ffn_seq _ _ _ _ _ _ _ _ _ _) as [y n4].
      rewrite !(setitem_pre _ _ _ _ Hpre). reflexivity.
Qed.

Lemma rescale_one (i : nat) (v : vec) :
  rescale self i (One v) = One (rescale_row self i v).
Proof.
  unfold rescale, rescale_row.
  destruct (0 <? RESCALE_LAYER self)%nat; [|reflexivity].
  destruct ((i + 1) mod RESCALE_LAYER self =? 0)%nat; reflexivity.
Qed.

Lemma rescale_seq (i : nat) (m : mat) :
  rescale self i (Seq m) = Seq (map (rescale_row self i) m).
Proof.
  unfold rescale, rescale_row.
  destruct (0 <? RESCALE_LAYER self)%nat; [|rewrite map_id; reflexivity].
  destruct ((i + 1) mod RESCALE_LAYER self =? 0)%nat;
    [reflexivity | rewrite map_id; reflexivity].
Qed.

Lemma stages_layer_act (i : nat) (b : block) (x : act)
  (s0 s1 s2 s3 s4 : vec) :
  act_nonempty x ->
  (let '(x1, n0, n1, n2, n3) := att_act b x s0 s1 s2 s3 in
   let '(x2, n4) := ffn_act b x1 s4 in
   (rescale self i x2, (n0, n1, n2, n3, n4)))
  = layer_act i b x (s0, s1, s2, s3, s4)
  /\ act_nonempty (fst (layer_act i b x (s0, s1, s2, s3, s4))).
Proof.
  intros Hx. destruct x as [v|m].
  - split.
    + unfold Engine.att_act, Engine.ffn_act, Engine.layer_act, layer_one.
      destruct (att_one _ _ _ _ _ _ _ _ _ _ _ _ _ _ _ _ _)
        as [[[[y n0] n1] n2] n3].
      destruct (ffn_one _ _ _ _ _ _ _ _ _ _) as [z n4].
      rewrite rescale_one. reflexivity.
    + unfold Engine.layer_act.
      destruct (layer_one eps self i b v (s0, s1, s2, s3, s4)). exact I.
  - simpl in Hx.
    assert (Hatt :
      att_seq eps m s0 s1 s2 s3 (ln1_weight b) (ln1_bias b)
        (att_time_mix_k b) (att_time_mix_v b) (att_time_mix_r b)
        (att_time_decay b) (att_time_first b)
        (effective (att_key_weight b)) (effective (att_value_weight b))
        (effective (att_receptance_weight b))
        (effective (att_output_weight b))
      = let '(y, (n0, n1, n2, n3)) :=
          map_accum
            (att_step eps (ln1_weight b) (ln1_bias b)
               (att_time_mix_k b) (att_time_mix_v b) (att_time_mix_r b)
               (att_time_decay b) (att_time_first b)
               (effective (att_key_weight b))
               (effective (att_value_weight b))
               (effective (att_receptance_weight b))
               (effective (att_output_weight b)))
            m (s0, s1, s2, s3) in
        (y, n0, n1, n2, n3)) by (apply att_seq_rows; exact Hx).
    pose proof (layer_rows eps self i b m s0 s1 s2 s3 s4) as HL.
    pose proof (map_accum_nonempty
                  (att_step eps (ln1_weight b) (ln1_bias b)
                     (att_time_mix_k b) (att_time_mix_v b)
                     (att_time_mix_r b) (att_time_decay b)
                     (att_time_first b)
                     (effective (att_key_weight b))
                     (effective (att_value_weight b))
                     (effective (att_receptance_weight b))
                     (effective (att_output_weight b)))
                  (s0, s1, s2, s3) Hx) as Hne.
    pose proof (map_accum_nonempty (layer_one eps self i b)
                  (s0, s1, s2, s3, s4) Hx) as Hne'.
    unfold Engine.att_act, Engine.ffn_act, Engine.layer_act. rewrite Hatt.
    destruct (map_accum (att_step _ _ _ _ _ _ _ _ _ _ _ _) m _)
      as [x1 [[[n0 n1] n2] n3]].
    simpl in Hne.
    rewrite (ffn_seq_rows eps _ _ _ _ _ _ _ Hne) in *.
    destruct (map_accum (ffn_step _ _ _ _ _ _ _ _) x1 s4) as [x2 n4].
    rewrite rescale_seq, <- HL.
    destruct (map_accum (layer_one eps self i b) m _) as [y c'].
    split; [reflexivity|]. injection HL as <- <-. exact Hne'.
Qed.

Lemma stack_act_nil (i : nat) (x : act) (cs : list cell) :
  stack_act i [] x cs = (x, cs).
Proof. destruct x; reflexivity. Qed.

Lemma stack_act_cons (i : nat) (b : block) (bs : list block) (x : act)
  (c : cell) (cs : list cell) :
  stack_act i (b :: bs) x (c :: cs)
  = let '(x1, c1) := layer_act i b x c in
    let '(x2, cs1) := stack_act (S i) bs x1 cs in
    (x2, c1 :: cs1).
Proof.
  destruct x as [v|m]; unfold Engine.stack_act, Engine.layer_act;
    cbn [stack_one stack_rows].
  - destruct (layer_one eps self i b v c) as [y c1].
    destruct (stack_one eps self (S i) bs y cs) as [z cs1]. reflexivity.
  - destruct (map_accum (layer_one eps self i b) m c) as [y c1].
    destruct (stack_rows eps self (S i) bs y cs) as [z cs1]. reflexivity.
Qed.

(** Under the loading invariant, the loop of [forward] over the blocks
    from index [i] on returns, and updates exactly the cells of those
    blocks in the flat state list. *)
Lemma layers_ok (bs : list block) :
  forall (i : nat) (x : act) (pre : list vec) (cs : list cell)
    (post : list vec),
    blocks_ok self i bs = true ->
    length pre = (i * 5)%nat ->
    length cs = length bs ->
    act_nonempty x ->
    layers eps self i bs x (pre ++ flatten cs ++ post)
    = let '(y, cs') := stack_act i bs x cs in
      Ok (y, pre ++ flatten cs' ++ post).
Proof.
  induction bs as [|b bs IH]; intros i x pre cs post Hok Hpre Hlen Hx.
  - destruct cs; [|discriminate]. rewrite stack_act_nil. reflexivity.
  - destruct cs as [|c cs]; [discriminate|].
    cbn [blocks_ok] in Hok.
    destruct (plan_entry self i) as [dd|] eqn:Hdd; [|discriminate].
    apply andb_prop in Hok as [Hb Hrest].
    destruct c as [[[[s0 s1] s2] s3] s4].
    cbn [layers]. rewrite Hdd.
    change (flatten ((s0, s1, s2, s3, s4) :: cs))
      with ([s0; s1; s2; s3; s4] ++ flatten cs).
    cbn [bind app].
    rewrite (@att_stage_ok i dd b x pre s0 s1 s2 s3 _ Hb Hpre Hx).
    rewrite stack_act_cons.
    destruct (@stages_layer_act i b x s0 s1 s2 s3 s4 Hx) as [HL Hne].
    destruct (att_act b x s0 s1 s2 s3) as [[[[x1 n0] n1] n2] n3].
    cbn [bind].
    rewrite (@ffn_stage_ok i dd b x1 pre n0 n1 n2 n3 s4 _ Hb Hpre).
    destruct (ffn_act b x1 s4) as [x2 n4].
    cbn [bind]. rewrite <- HL in *. cbn [fst] in Hne.
    change (pre ++ n0 :: n1 :: n2 :: n3 :: n4 :: flatten cs ++ post)
      with (pre ++ [n0; n1; n2; n3; n4] ++ flatten cs ++ post).
    rewrite app_assoc.
    rewrite IH; [| exact Hrest | rewrite length_app; simpl; lia
                 | simpl in Hlen; lia | exact Hne].
    destruct (stack_act (S i) bs (rescale self i x2) cs) as [y cs1].
    change (flatten ((n0, n1, n2, n3, n4) :: cs1))
      with ([n0; n1; n2; n3; n4] ++ flatten cs1).
    rewrite <- !app_assoc. reflexivity.
Qed.

End Bridge.

Section ForwardFacts.

Import Py Tensor Quant Engine.
Local Open Scope R_scope.

Variable eps : R.
Variable self : RWKV.

(** A flat state list with five tensors for each of [n] layers. *)
Lemma state_cells (n : nat) :
  forall state : list vec,
    (n * 5 <= length state)%nat ->
    exists cs post, state = flatten cs ++ post /\ length cs = n.
Proof.
  induction n as [|n IH]; intros state H.
  - exists [], state. split; reflexivity.
  - destruct state as [|s0 [|s1 [|s2 [|s3 [|s4 state]]]]];
      simpl in H; try lia.
    destruct (IH state) as (cs & post & -> & Hlen); [lia|].
    exists ((s0, s1, s2, s3, s4) :: cs), post. split; [reflexivity|].
    simpl. lia.
Qed.

Lemma length_stack_one (bs : list block) :
  forall i x cs, length (snd (stack_one eps self i bs x cs)) = length cs.
Proof.
  induction bs as [|b bs IH]; intros i x cs; [reflexivity|].
  destruct cs as [|c cs]; [reflexivity|].
  cbn [stack_one].
  destruct (layer_one eps self i b x c) as [x1 c1].
  specialize (IH (S i) x1 cs).
  destruct (stack_one eps self (S i) bs x1 cs) as [x2 cs1].
  simpl in *. lia.
Qed.

Lemma model_ok_parts :
  model_ok self = true ->
  blocks_ok self 0 (blocks (w self)) = true
  /\ exists dd, plan_entry self (n_layer self) = Ok dd.
Proof.
  unfold model_ok. intros H. apply andb_prop in H as [H1 H2].
  split; [exact H1|].
  destruct (plan_entry self (n_layer self)) as [dd|]; [eauto|discriminate].
Qed.

(** [forward] on one token. *)
Lemma forward_one_ok (t : Z) (r : vec) (cs : list cell) (post : list vec)
  (full_output : bool) :
  model_ok self = true ->
  getitem (emb_weight (w self)) t = Ok r ->
  length cs = n_layer self ->
  forward eps self [t] (Some (flatten cs ++ post)) full_output
  = let '(y, cs') := stack_one eps self 0 (blocks (w self)) r cs in
    Ok (head eps self (One y) full_output, flatten cs' ++ post).
Proof.
  intros Hok Hr Hlen. destruct (model_ok_parts Hok) as [Hb [dd Hdd]].
  unfold forward. cbn [bind List.length Nat.ltb Nat.leb].
  change (getitem [t] 0) with (Ok t). cbn [bind]. rewrite Hr. cbn [bind].
  pose proof (@layers_ok eps self (blocks (w self)) 0 (One r) [] cs post Hb
                eq_refl Hlen I) as HL.
  cbn [app] in HL. rewrite HL. unfold Engine.stack_act.
  destruct (stack_one eps self 0 (blocks (w self)) r cs) as [y cs'].
  cbn [bind]. rewrite Hdd. reflexivity.
Qed.

(** [forward] on two tokens or more. *)
Lemma forward_seq_ok (tokens : list Z) (x : mat) (cs : list cell)
  (post : list vec) (full_output : bool) :
  model_ok self = true ->
  (1 < length tokens)%nat ->
  lookup_rows (emb_weight (w self)) tokens = Ok x ->
  x <> [] ->
  length cs = n_layer self ->
  forward eps self tokens (Some (flatten cs ++ post)) full_output
  = let '(y, cs') := stack_rows eps self 0 (blocks (w self)) x cs in
    Ok (head eps self (Seq y) full_output, flatten cs' ++ post).
Proof.
  intros Hok Hlt Hx Hne Hlen. destruct (model_ok_parts Hok) as [Hb [dd Hdd]].
  unfold forward. cbn [bind].
  apply Nat.ltb_lt in Hlt. rewrite Hlt. rewrite Hx. cbn [bind].
  pose proof (@layers_ok eps self (blocks (w self)) 0 (Seq x) [] cs post Hb
                eq_refl Hlen Hne) as HL.
  cbn [app] in HL. rewrite HL. unfold Engine.stack_act.
  destruct (stack_rows eps self 0 (blocks (w self)) x cs) as [y cs'].
  cbn [bind]. rewrite Hdd. reflexivity.
Qed.

Lemma lookup_rows_ok (tokens : list Z) :
  tokens_ok self tokens = true ->
  exists x,
    lookup_rows (emb_weight (w self)) tokens = Ok x
    /\ Forall2 (fun t r => getitem (emb_weight (w self)) t = Ok r) tokens x.
Proof.
  induction tokens as [|t tokens IH]; intros H.
  - exists []. split; [reflexivity | constructor].
  - cbn [tokens_ok forallb] in H. apply andb_prop in H as [Ht Hrest].
    destruct (IH Hrest) as (x & Hx & HF).
    destruct (getitem (emb_weight (w self)) t) as [r|] eqn:Hr;
      [|discriminate].
    exists (r :: x). split.
    + cbn [lookup_rows]. rewrite Hr. cbn [bind]. rewrite Hx. reflexivity.
    + constructor; assumption.
Qed.

(** Single-token decoding is the whole stack run along the rows of the
    embedded tokens. *)
Lemma decode_ok (tokens : list Z) :
  forall (x : mat) (cs : list cell) (post : list vec),
    model_ok self = true ->
    tokens <> [] ->
    Forall2 (fun t r => getitem (emb_weight (w self)) t = Ok r) tokens x ->
    length cs = n_layer self ->
    decode eps self tokens (flatten cs ++ post)
    = let '(y, cs') :=
        map_accum (stack_one eps self 0 (blocks (w self))) x cs in
      Ok (head eps self (One (last_row y)) false, flatten cs' ++ post).
Proof.
  induction tokens as [|t tokens IH]; intros x cs post Hok Hne HF Hlen;
    [congruence|].
  inversion HF as [|? r ? x' Hr HF']; subst.
  destruct tokens as [|t' tokens].
  - inversion HF'; subst. cbn [decode map_accum].
    rewrite (@forward_one_ok t r cs post false Hok Hr Hlen).
    destruct (stack_one eps self 0 (blocks (w self)) r cs) as [y cs'].
    reflexivity.
  - remember (t' :: tokens) as ts eqn:Ets.
    assert (Hd : decode eps self (t :: ts) (flatten cs ++ post)
                 = bind (forward eps self [t] (Some (flatten cs ++ post)) false)
                     (fun p => decode eps self ts (snd p))).
    { subst ts. cbn [decode].
      destruct (forward eps self [t] (Some (flatten cs ++ post)) false)
        as [[o s]|]; reflexivity. }
    rewrite Hd, (@forward_one_ok t r cs post false Hok Hr Hlen).
    pose proof (length_stack_one (blocks (w self)) 0 r cs) as Hl1.
    cbn [map_accum].
    destruct (stack_one eps self 0 (blocks (w self)) r cs) as [y cs1].
    cbn [bind snd]. simpl in Hl1.
    rewrite (IH x' cs1 post Hok); [| subst ts; discriminate | exact HF'
                                   | lia].
    pose proof (map_accum_nonempty (stack_one eps self 0 (blocks (w self)))
                  cs1 (xs := x')) as Hn.
    destruct (map_accum (stack_one eps self 0 (blocks (w self))) x' cs1)
      as [ys cs2].
    assert (Hx' : x' <> []).
    { subst ts. inversion HF'. discriminate. }
    specialize (Hn Hx'). simpl in Hn.
    destruct ys as [|y' ys]; [congruence|]. reflexivity.
Qed.

End ForwardFacts.

Section DecodeTheorem.

Import Py Tensor Quant Engine.
Local Open Scope R_scope.

Lemma head_one (eps : R) (self : RWKV) (y : vec) (full_output : bool) :
  head eps self (One y) full_output
  = One (final_scores (head eps self (One y) false)).
Proof. unfold head. destruct (head_weight (w self)); reflexivity. Qed.

Lemma last_map {A B} (f : A -> B) (l : list A) (d : A) (d' : B) :
  l <> [] -> last (map f l) d' = f (last l d).
Proof.
  induction l as [|a l IH]; [congruence|]. intros _.
  destruct l as [|a' l]; [reflexivity|].
  change (last (map f (a :: a' :: l)) d') with (last (map f (a' :: l)) d').
  change (last (a :: a' :: l) d) with (last (a' :: l) d).
  apply IH. discriminate.
Qed.

Lemma head_seq_final (eps : R) (self : RWKV) (y : mat) :
  y <> [] ->
  final_scores (head eps self (Seq y) true)
  = final_scores (head eps self (One (last_row y)) false).
Proof.
  intros Hy. unfold head. cbn [negb].
  destruct (head_weight (w self)) as [hw|q]; cbn [final_scores].
  - unfold matmat, last_row. rewrite map_map.
    apply (last_map (fun r => vecmat (layer_norm eps r _ _) hw)). exact Hy.
  - unfold mm8_seq, mm8_one, matmat, last_row. rewrite map_map.
    apply (last_map (fun r => vecmat (layer_norm eps r _ _) _)). exact Hy.
Qed.

End DecodeTheorem.



(* ================================================================== *)
(** * Theorems: the rescaling of the residual stream                    *)
(* ================================================================== *)

Section ScalingAlgebra.

Import Py Tensor Quant Engine.
Local Open Scope R_scope.

Lemma vdivc_1 (v : vec) : vdivc v 1 = v.
Proof.
  unfold vdivc. rewrite <- (map_id v) at 2. apply map_ext.
  intros a. apply Rdiv_1_r.
Qed.

Lemma mdivc_1 (m : mat) : mdivc m 1 = m.
Proof.
  unfold mdivc. rewrite <- (map_id m) at 2. apply map_ext.
  intros r. apply vdivc_1.
Qed.

Lemma vdivc_vdivc (v : vec) (a b : R) :
  vdivc (vdivc v a) b = vdivc v (a * b).
Proof.
  unfold vdivc. rewrite map_map. apply map_ext. intros x.
  unfold Rdiv. rewrite Rinv_mult. ring.
Qed.

Lemma vadd_vdivc (a b : vec) (c : R) :
  vadd (vdivc a c) (vdivc b c) = vdivc (vadd a b) c.
Proof.
  unfold vadd, vdivc. revert b.
  induction a as [|x a IH]; intros [|y b]; simpl; try reflexivity.
  f_equal; [unfold Rdiv; ring | apply IH].
Qed.

Lemma vmul_vdivc_r (a b : vec) (c : R) :
  vmul a (vdivc b c) = vdivc (vmul a b) c.
Proof.
  unfold vmul, vdivc. revert b.
  induction a as [|x a IH]; intros [|y b]; simpl; try reflexivity.
  f_equal; [unfold Rdiv; ring | apply IH].
Qed.

Lemma vacc_vdivc (a b : vec) (c : R) :
  vacc (vdivc a c) (vdivc b c) = vdivc (vacc a b) c.
Proof.
  unfold vdivc. revert b.
  induction a as [|x a IH]; intros [|y b]; simpl; try reflexivity.
  f_equal; [unfold Rdiv; ring | apply IH].
Qed.

(** [x @ (w / c) = (x @ w) / c] *)
Lemma vecmat_mdivc (x : vec) (w : mat) (c : R) :
  vecmat x (mdivc w c) = vdivc (vecmat x w) c.
Proof.
  revert w. induction x as [|xi x IH]; intros [|row w]; simpl;
    try reflexivity.
  rewrite IH, <- vacc_vdivc. f_equal.
  unfold vdivc. rewrite !map_map. apply map_ext. intros a.
  unfold Rdiv. ring.
Qed.

Lemma ncols_mdivc (m : mat) (c : R) : ncols (mdivc m c) = ncols m.
Proof.
  unfold ncols, mdivc. destruct m as [|r m]; [reflexivity|].
  simpl. unfold vdivc. apply length_map.
Qed.

Lemma nth_vdivc (v : vec) (c : R) (j : nat) :
  nth j (vdivc v c) 0 = nth j v 0 / c.
Proof.
  unfold vdivc.
  replace 0 with (0 / c) at 1 by (unfold Rdiv; ring).
  apply (map_nth (fun x => x / c)).
Qed.

(** [(m / c).t() = m.t() / c] *)
Lemma transpose_mdivc (m : mat) (c : R) :
  transpose (mdivc m c) = mdivc (transpose m) c.
Proof.
  unfold transpose. rewrite ncols_mdivc.
  unfold mdivc at 2. rewrite map_map. apply map_ext. intros j.
  unfold mdivc, vdivc. rewrite !map_map. apply map_ext. intros row.
  apply nth_vdivc.
Qed.

End ScalingAlgebra.

Section QuantScaling.

Import Py Tensor Quant Engine.
Local Open Scope R_scope.

Variable c : R.
Hypothesis c_pos : 0 < c.

Lemma Rmin_div (a b : R) : Rmin (a / c) (b / c) = Rmin a b / c.
Proof.
  assert (Hi : 0 < / c) by (apply Rinv_0_lt_compat; exact c_pos).
  destruct (Rle_dec a b) as [H|H].
  - rewrite !Rmin_left; [reflexivity | exact H | unfold Rdiv; nra].
  - rewrite !Rmin_right; [reflexivity | lra | unfold Rdiv; nra].
Qed.

Lemma Rmax_div (a b : R) : Rmax (a / c) (b / c) = Rmax a b / c.
Proof.
  assert (Hi : 0 < / c) by (apply Rinv_0_lt_compat; exact c_pos).
  destruct (Rle_dec a b) as [H|H].
  - rewrite !Rmax_right; [reflexivity | exact H | unfold Rdiv; nra].
  - rewrite !Rmax_left; [reflexivity | lra | unfold Rdiv; nra].
Qed.

Lemma amin_vdivc (l : vec) : amin (vdivc l c) = amin l / c.
Proof.
  destruct l as [|a l]; simpl; [unfold Rdiv; ring|].
  revert a. induction l as [|b l IH]; intros a; simpl; [reflexivity|].
  rewrite Rmin_div. apply IH.
Qed.

Lemma amax_vdivc (l : vec) : amax (vdivc l c) = amax l / c.
Proof.
  destruct l as [|a l]; simpl; [unfold Rdiv; ring|].
  revert a. induction l as [|b l IH]; intros a; simpl; [reflexivity|].
  rewrite Rmax_div. apply IH.
Qed.

Lemma amin_dim1_mdivc (w : mat) :
  amin_dim1 (mdivc w c) = vdivc (amin_dim1 w) c.
Proof.
  unfold amin_dim1, mdivc, vdivc at 2. rewrite !map_map.
  apply map_ext. intros r. apply amin_vdivc.
Qed.

Lemma amax_dim1_mdivc (w : mat) :
  amax_dim1 (mdivc w c) = vdivc (amax_dim1 w) c.
Proof.
  unfold amax_dim1, mdivc, vdivc at 2. rewrite !map_map.
  apply map_ext. intros r. apply amax_vdivc.
Qed.

Lemma amin_dim0_mdivc (w : mat) :
  amin_dim0 (mdivc w c) = vdivc (amin_dim0 w) c.
Proof.
  unfold amin_dim0. rewrite transpose_mdivc.
  apply (amin_dim1_mdivc (transpose w)).
Qed.

Lemma amax_dim0_mdivc (w : mat) :
  amax_dim0 (mdivc w c) = vdivc (amax_dim0 w) c.
Proof.
  unfold amax_dim0. rewrite transpose_mdivc.
  apply (amax_dim1_mdivc (transpose w)).
Qed.

Lemma sub_col_mdivc (w : mat) (m : vec) :
  sub_col (mdivc w c) (vdivc m c) = mdivc (sub_col w m) c.
Proof.
  unfold sub_col, mdivc, vdivc. revert m.
  induction w as [|r w IH]; intros [|a m]; simpl; try reflexivity.
  rewrite IH, !map_map.
  rewrite (map_ext (fun x => x / c - a / c) (fun x => (x - a) / c));
    [reflexivity|].
  intros x. unfold Rdiv. ring.
Qed.

Lemma vsub_vdivc (a b : vec) :
  vsub (vdivc a c) (vdivc b c) = vdivc (vsub a b) c.
Proof.
  unfold vsub, vdivc. revert b.
  induction a as [|x a IH]; intros [|y b]; simpl; try reflexivity.
  f_equal; [unfold Rdiv; ring | apply IH].
Qed.

Lemma sub_row_mdivc (w : mat) (m : vec) :
  sub_row (mdivc w c) (vdivc m c) = mdivc (sub_row w m) c.
Proof.
  unfold sub_row, mdivc. rewrite !map_map. apply map_ext.
  intros r. apply vsub_vdivc.
Qed.

Lemma vdiv_vdivc (a b : vec) : vdiv (vdivc a c) (vdivc b c) = vdiv a b.
Proof.
  unfold vdiv, vdivc. revert b.
  induction a as [|x a IH]; intros [|y b]; simpl; try reflexivity.
  f_equal; [|apply IH].
  unfold Rdiv. rewrite Rinv_mult, Rinv_inv.
  replace (x * / c * (/ y * c)) with (x * / y * (/ c * c)) by ring.
  rewrite Rinv_l by lra. ring.
Qed.

Lemma div_row_mdivc (w : mat) (r : vec) :
  div_row (mdivc w c) (vdivc r c) = div_row w r.
Proof.
  unfold div_row, mdivc. rewrite map_map. apply map_ext.
  intros row. apply vdiv_vdivc.
Qed.

Lemma length_mdivc (w : mat) : length (mdivc w c) = length w.
Proof. apply length_map. Qed.

(** Dividing a matrix by a positive constant divides its minima and its
    column ranges, and leaves the relative row ranges and the unit-scaled
    entries as they are. *)
Lemma axis_ranges_mdivc (w : mat) :
  axis_ranges (mdivc w c)
  = mkRanges (vdivc (r_mx (axis_ranges w)) c)
             (vdivc (r_rx (axis_ranges w)) c)
             (vdivc (r_my (axis_ranges w)) c)
             (r_ry (axis_ranges w))
             (r_unit (axis_ranges w)).
Proof.
  unfold axis_ranges. rewrite ncols_mdivc, length_mdivc.
  destruct (ncols w <? length w)%nat; cbn [r_mx r_rx r_my r_ry r_unit].
  - rewrite amin_dim1_mdivc, sub_col_mdivc, amin_dim0_mdivc,
      sub_row_mdivc, amax_dim0_mdivc, div_row_mdivc.
    reflexivity.
  - rewrite amin_dim0_mdivc, sub_row_mdivc, amin_dim1_mdivc,
      sub_col_mdivc, amax_dim0_mdivc, div_row_mdivc.
    reflexivity.
Qed.

Lemma zipWith_ext_in {A B C} (f g : A -> B -> C) (a : list A) (b : list B) :
  (forall x y, f x y = g x y) -> zipWith f a b = zipWith g a b.
Proof.
  intros H. revert b.
  induction a as [|x a IH]; intros [|y b]; simpl; try reflexivity.
  rewrite H, IH. reflexivity.
Qed.

Lemma map_zipWith {A B C D} (h : C -> D) (f : A -> B -> C)
  (a : list A) (b : list B) :
  map h (zipWith f a b) = zipWith (fun x y => h (f x y)) a b.
Proof.
  revert b. induction a as [|x a IH]; intros [|y b]; simpl; try reflexivity.
  f_equal. apply IH.
Qed.

Lemma combine_map {A A' B B'} (f : A -> A') (g : B -> B')
  (a : list A) (b : list B) :
  combine (map f a) (map g b)
  = map (fun p => (f (fst p), g (snd p))) (combine a b).
Proof.
  revert b. induction a as [|x a IH]; intros [|y b]; simpl; try reflexivity.
  f_equal. apply IH.
Qed.

Lemma dequant_maps (q : list (list Z)) (gx fx gy fy : R -> R)
  (mx rx my ry : vec) :
  dequant q (map gx mx) (map fx rx) (map gy my) (map fy ry)
  = zipWith
      (fun row p =>
         zipWith
           (fun z p' =>
              (IZR z + 0.5) * fy (fst p) * fx (fst p')
              + gy (snd p) + gx (snd p'))
           row (combine rx mx))
      q (combine ry my).
Proof.
  unfold dequant. rewrite !combine_map, zipWith_map_r.
  apply zipWith_ext_in. intros row [ryi myi]. cbn [fst snd].
  rewrite zipWith_map_r.
  apply zipWith_ext_in. intros z [rxj mxj]. reflexivity.
Qed.

Lemma dequant_scaled (q : list (list Z)) (mx rx my ry : vec) :
  dequant q (vdivc mx c) (vdivc (vdivc rx c) 16) (vdivc my c) ry
  = mdivc (dequant q mx (vdivc rx 16) my ry) c.
Proof.
  pose proof (dequant_maps q (fun x => x / c) (fun x => x / c / 16)
                (fun x => x / c) (fun x => x) mx rx my ry) as H1.
  pose proof (dequant_maps q (fun x => x) (fun x => x / 16)
                (fun x => x) (fun x => x) mx rx my ry) as H2.
  repeat rewrite map_id in H1. repeat rewrite map_id in H2.
  assert (E : vdivc (vdivc rx c) 16 = map (fun x => x / c / 16) rx)
    by (unfold vdivc; apply map_map).
  rewrite E. unfold vdivc at 1 2 3.
  refine (eq_trans H1 _). unfold vdivc. rewrite H2.
  unfold mdivc. rewrite map_zipWith.
  apply zipWith_ext_in. intros row [ryi myi]. cbn [fst snd].
  unfold vdivc. rewrite map_zipWith.
  apply zipWith_ext_in. intros z [rxj mxj]. cbn [fst snd].
  field. lra.
Qed.

(** Quantizing a matrix divided by a positive constant, then
    dequantizing, gives the dequantized matrix divided by the constant. *)
Lemma dequantize_fixup_mdivc (w : mat) :
  dequantize (fixup_tensor_int8 (mdivc w c))
  = mdivc (dequantize (fixup_tensor_int8 w)) c.
Proof.
  unfold dequantize, fixup_tensor_int8. rewrite axis_ranges_mdivc.
  cbn [r_mx r_rx r_my r_ry r_unit q_w q_mx q_rx q_my q_ry].
  apply dequant_scaled.
Qed.

End QuantScaling.

Section LayerNormScaling.

Import Py Tensor Quant Engine.
Local Open Scope R_scope.

Lemma vsum_vdivc (v : vec) (c : R) : vsum (vdivc v c) = vsum v / c.
Proof.
  unfold vsum, vdivc. induction v as [|a v IH]; simpl.
  - unfold Rdiv. ring.
  - rewrite IH. unfold Rdiv. ring.
Qed.

Lemma mean_vdivc (v : vec) (c : R) : mean (vdivc v c) = mean v / c.
Proof.
  unfold mean. rewrite vsum_vdivc. unfold vdivc. rewrite length_map.
  unfold Rdiv. ring.
Qed.

Lemma variance_vdivc (v : vec) (c : R) :
  variance (vdivc v c) = variance v / (c * c).
Proof.
  unfold variance. rewrite mean_vdivc.
  assert (E : map (fun a => square (a - mean v / c)) (vdivc v c)
              = vdivc (map (fun a => square (a - mean v)) v) (c * c)).
  { unfold vdivc. rewrite !map_map. apply map_ext. intros a.
    unfold square, Rdiv. rewrite Rinv_mult. ring. }
  rewrite E, vsum_vdivc. unfold vdivc. rewrite length_map.
  unfold Rdiv. ring.
Qed.

Lemma ln_invariant_one (eps : R) : ln_invariant eps 1.
Proof. intros v w b. rewrite vdivc_1. reflexivity. Qed.

(** With [eps = 0] layer normalization is scale invariant. *)
Lemma ln_invariant_eps0 (s : R) : 0 < s -> ln_invariant 0 s.
Proof.
  intros Hs v w b. unfold layer_norm.
  rewrite mean_vdivc, variance_vdivc, !Rplus_0_r.
  rewrite sqrt_div_alt by nra. rewrite sqrt_square by lra.
  do 2 f_equal. unfold vdivc. rewrite map_map. apply map_ext. intros a.
  unfold Rdiv. rewrite Rinv_mult, Rinv_inv.
  replace ((a * / s - mean v * / s) * (/ sqrt (variance v) * s))
    with ((a - mean v) * / sqrt (variance v) * (/ s * s)) by ring.
  rewrite Rinv_l by lra. ring.
Qed.

Lemma scale_pos (K i : nat) : 0 < scale K i.
Proof. unfold scale. apply pow_lt. lra. Qed.

Lemma scale_small (K i : nat) : (i < K)%nat -> scale K i = 1.
Proof. intros H. unfold scale. rewrite Nat.div_small by exact H. reflexivity. Qed.

Lemma scale_zero (i : nat) : scale 0 i = 1.
Proof. reflexivity. Qed.

(** The factor after layer [i]: doubled when [(i + 1) % K == 0]. *)
Lemma scale_succ (K i : nat) :
  (0 < K)%nat ->
  scale K (S i)
  = if ((i + 1) mod K =? 0)%nat then scale K i * 2 else scale K i.
Proof.
  intros HK. unfold scale.
  replace (S i) with (i + 1)%nat by lia.
  pose proof (Nat.div_mod_eq (i + 1) K) as E.
  pose proof (Nat.mod_upper_bound (i + 1) K ltac:(lia)) as Hb.
  destruct (Nat.eqb_spec ((i + 1) mod K) 0) as [H0|H0].
  - assert (Hq : ((i + 1) / K = S (i / K))%nat).
    { rewrite H0 in E.
      assert (Hq1 : (1 <= (i + 1) / K)%nat).
      { destruct ((i + 1) / K)%nat; [lia | lia]. }
      assert (Hd : ((i + 1) / K - 1 = i / K)%nat).
      { apply (Nat.div_unique i K ((i + 1) / K - 1) (K - 1)); [lia|].
        nia. }
      lia. }
    rewrite Hq. simpl. ring.
  - assert (Hq : ((i + 1) / K = i / K)%nat).
    { apply (Nat.div_unique i K ((i + 1) / K) ((i + 1) mod K - 1)); lia. }
    rewrite Hq. reflexivity.
Qed.

End LayerNormScaling.

Section RescaledLayers.

Import Py Tensor Quant Engine.
Local Open Scope R_scope.

Variable eps : R.

Lemma att_one_scaled (s : R) :
  ln_invariant eps s ->
  forall x s0 aa bb pp ln_w ln_b k_mix v_mix r_mix td tf kw vw rw ow,
    att_one eps (vdivc x s) s0 aa bb pp ln_w ln_b k_mix v_mix r_mix td tf
      kw vw rw (mdivc ow s)
    = let '(y, n0, n1, n2, n3) :=
        att_one eps x s0 aa bb pp ln_w ln_b k_mix v_mix r_mix td tf
          kw vw rw ow in
      (vdivc y s, n0, n1, n2, n3).
Proof.
  intros H x s0 aa bb pp ln_w ln_b k_mix v_mix r_mix td tf kw vw rw ow.
  unfold att_one. rewrite (H x ln_w ln_b). cbv zeta.
  destruct (wkv_next _ _ _ _ _ _) as [[aa' bb'] p'].
  rewrite vecmat_mdivc, vadd_vdivc. reflexivity.
Qed.

Lemma ffn_one_scaled (s : R) :
  ln_invariant eps s ->
  forall x sx ln_w ln_b k_mix r_mix kw vw rw,
    ffn_one eps (vdivc x s) sx ln_w ln_b k_mix r_mix kw (mdivc vw s) rw
    = let '(y, n4) := ffn_one eps x sx ln_w ln_b k_mix r_mix kw vw rw in
      (vdivc y s, n4).
Proof.
  intros H x sx ln_w ln_b k_mix r_mix kw vw rw.
  unfold ffn_one. rewrite (H x ln_w ln_b). cbv zeta.
  rewrite vecmat_mdivc, vmul_vdivc_r, vadd_vdivc. reflexivity.
Qed.

(** The matrices divided at load time stand for the undivided ones
    divided by the factor of their layer. *)
Lemma effective_place_scaled (K i : nat) (W : Strategy.tyval) (m : mat) :
  effective (place_matrix K i true W m)
  = mdivc (effective (place_matrix 0 i true W m)) (scale K i).
Proof.
  unfold place_matrix. cbn [Nat.ltb Nat.leb andb].
  destruct K as [|K].
  - cbn [Nat.ltb Nat.leb andb]. rewrite scale_zero, mdivc_1. reflexivity.
  - change (0 <? S K)%nat with true. cbn [andb].
    fold (scale (S K) i). rewrite transpose_mdivc.
    destruct (is_uint8 W); cbn [effective].
    + apply dequantize_fixup_mdivc, scale_pos.
    + reflexivity.
Qed.

Lemma place_matrix_unscaled (K i : nat) (W : Strategy.tyval) (m : mat) :
  place_matrix K i false W m = place_matrix 0 i false W m.
Proof. unfold place_matrix. rewrite andb_false_r. reflexivity. Qed.

Lemma is_quant_place (K i : nat) (r : bool) (W : Strategy.tyval) (m : mat) :
  is_quant (place_matrix K i r W m) = is_uint8 W.
Proof. unfold place_matrix. destruct (is_uint8 W); reflexivity. Qed.

Variables selfK self0 : RWKV.
Variable K : nat.
Hypothesis rescale_K : RESCALE_LAYER selfK = K.
Hypothesis rescale_0 : RESCALE_LAYER self0 = 0%nat.

Lemma rescale_row_scaled (i : nat) (y : vec) :
  rescale_row selfK i (vdivc y (scale K i)) = vdivc y (scale K (S i))
  /\ rescale_row self0 i y = y.
Proof.
  unfold rescale_row. rewrite rescale_K, rescale_0. split; [|reflexivity].
  destruct K as [|K'].
  - reflexivity.
  - change (0 <? S K')%nat with true. cbv iota.
    rewrite scale_succ by lia.
    destruct ((i + 1) mod S K' =? 0)%nat; [|reflexivity].
    apply vdivc_vdivc.
Qed.

Lemma layer_one_scaled (i : nat) (dd : Strategy.slot) (raw : raw_block)
  (x : vec) (c : cell) :
  ln_invariant eps (scale K i) ->
  layer_one eps selfK i (place_block K i dd raw) (vdivc x (scale K i)) c
  = let '(y, c') := layer_one eps self0 i (place_block 0 i dd raw) x c in
    (vdivc y (scale K (S i)), c').
Proof.
  intros H. destruct c as [[[[s0 s1] s2] s3] s4].
  unfold layer_one, place_block.
  cbn [ln1_weight ln1_bias att_time_mix_k att_time_mix_v att_time_mix_r
       att_time_decay att_time_first att_key_weight att_value_weight
       att_receptance_weight att_output_weight ln2_weight ln2_bias
       ffn_time_mix_k ffn_time_mix_r ffn_key_weight ffn_value_weight
       ffn_receptance_weight].
  rewrite !(place_matrix_unscaled K), !(effective_place_scaled K).
  rewrite (att_one_scaled H).
  destruct (att_one _ _ _ _ _ _ _ _ _ _ _ _ _ _ _ _ _)
    as [[[[y n0] n1] n2] n3].
  rewrite (ffn_one_scaled H).
  destruct (ffn_one _ _ _ _ _ _ _ _ _ _) as [z n4].
  destruct (rescale_row_scaled i z) as [E1 E2]. rewrite E1, E2.
  reflexivity.
Qed.

Variable st : Strategy.RWKVStrategy.

Lemma place_blocks_length (k : nat) (raws : list raw_block) :
  forall i bs, place_blocks k st i raws = Ok bs -> length bs = length raws.
Proof.
  induction raws as [|raw raws IH]; intros i bs H.
  - injection H as <-. reflexivity.
  - cbn [place_blocks] in H.
    apply bind_ok in H as (o & _ & H).
    apply bind_ok in H as (dd & _ & H).
    apply bind_ok in H as (tl & Htl & H).
    injection H as <-. simpl. f_equal. apply (IH _ _ Htl).
Qed.

(** The whole stack on one token: the rescaled run carries the residual
    of the plain run divided by the factor of the layer, and leaves the
    same state. *)
Lemma stack_one_scaled (raws : list raw_block) :
  forall i x cs bsK bs0,
    place_blocks K st i raws = Ok bsK ->
    place_blocks 0 st i raws = Ok bs0 ->
    length cs = length raws ->
    (forall j, (i <= j < i + length raws)%nat ->
               ln_invariant eps (scale K j)) ->
    stack_one eps selfK i bsK (vdivc x (scale K i)) cs
    = let '(y, cs') := stack_one eps self0 i bs0 x cs in
      (vdivc y (scale K (i + length raws)), cs').
Proof.
  induction raws as [|raw raws IH]; intros i x cs bsK bs0 HK H0 Hlen Hinv.
  - injection HK as <-. injection H0 as <-. cbn [stack_one length].
    rewrite Nat.add_0_r. reflexivity.
  - destruct cs as [|c cs]; [discriminate|].
    cbn [place_blocks] in HK, H0.
    apply bind_ok in HK as (o & Ho & HK).
    apply bind_ok in HK as (dd & Hdd & HK).
    apply bind_ok in HK as (tlK & HtlK & HK). injection HK as <-.
    rewrite Ho in H0. cbn [bind] in H0. rewrite Hdd in H0. cbn [bind] in H0.
    apply bind_ok in H0 as (tl0 & Htl0 & H0). injection H0 as <-.
    cbn [stack_one].
    rewrite layer_one_scaled by (apply Hinv; simpl; lia).
    destruct (layer_one eps self0 i (place_block 0 i dd raw) x c) as [y c1].
    rewrite (IH (S i) y cs tlK tl0 HtlK Htl0);
      [| simpl in Hlen; lia | intros j Hj; apply Hinv; simpl; lia].
    destruct (stack_one eps self0 (S i) tl0 y cs) as [z cs1].
    cbn [length]. replace (S i + length raws)%nat
      with (i + S (length raws))%nat by lia.
    reflexivity.
Qed.

Lemma place_blocks_ok (k : nat) (self : RWKV) (raws : list raw_block) :
  strategy self = st ->
  forall i bs, place_blocks k st i raws = Ok bs ->
               blocks_ok self i bs = true.
Proof.
  intros Hst. induction raws as [|raw raws IH]; intros i bs H.
  - injection H as <-. reflexivity.
  - cbn [place_blocks] in H.
    apply bind_ok in H as (o & Ho & H).
    apply bind_ok in H as (dd & Hdd & H).
    apply bind_ok in H as (tl & Htl & H). injection H as <-.
    cbn [blocks_ok]. unfold plan_entry. rewrite Hst, Ho. cbn [bind].
    destruct o as [d|]; [|discriminate]. injection Hdd as ->.
    rewrite (IH _ _ Htl), andb_true_r.
    unfold block_ok, place_block.
    cbn [att_key_weight att_value_weight att_receptance_weight
         att_output_weight ffn_key_weight ffn_value_weight
         ffn_receptance_weight].
    rewrite !is_quant_place, Bool.eqb_reflx. reflexivity.
Qed.

End RescaledLayers.

Section RescaledForward.

Import Py Tensor Quant Engine.
Local Open Scope R_scope.

Variable eps : R.
Variables selfK self0 : RWKV.
Variable K : nat.
Hypothesis rescale_K : RESCALE_LAYER selfK = K.
Hypothesis rescale_0 : RESCALE_LAYER self0 = 0%nat.
Variable st : Strategy.RWKVStrategy.
Variable raws : list raw_block.
Variables bsK bs0 : list block.
Hypothesis placed_K : place_blocks K st 0 raws = Ok bsK.
Hypothesis placed_0 : place_blocks 0 st 0 raws = Ok bs0.
Hypothesis ln_ok :
  forall j, (j < length raws)%nat -> ln_invariant eps (scale K j).

Lemma scale_at_0 : scale K 0 = 1.
Proof.
  destruct K as [|K']; [apply scale_zero | apply scale_small; lia].
Qed.

Lemma stack_one_from_0 (x : vec) (cs : list cell) :
  length cs = length raws ->
  stack_one eps selfK 0 bsK x cs
  = let '(y, cs') := stack_one eps self0 0 bs0 x cs in
    (vdivc y (scale K (length raws)), cs').
Proof.
  intros Hlen.
  rewrite <- (vdivc_1 x) at 1. rewrite <- scale_at_0.
  apply (@stack_one_scaled eps selfK self0 K rescale_K rescale_0 st raws
           0%nat x cs bsK bs0 placed_K placed_0 Hlen).
  intros j Hj. apply ln_ok. lia.
Qed.

Lemma stack_rows_from_0 (x : mat) :
  forall cs : list cell,
    length cs = length raws ->
    map_accum (stack_one eps selfK 0 bsK) x cs
    = let '(y, cs') := map_accum (stack_one eps self0 0 bs0) x cs in
      (map (fun r => vdivc r (scale K (length raws))) y, cs').
Proof.
  induction x as [|r x IH]; intros cs Hlen; [reflexivity|].
  rewrite !map_accum_cons, (@stack_one_from_0 r cs Hlen).
  pose proof (length_stack_one eps self0 bs0 0 r cs) as Hl.
  destruct (stack_one eps self0 0 bs0 r cs) as [y cs1].
  cbn [snd] in Hl.
  rewrite (IH cs1) by congruence.
  destruct (map_accum (stack_one eps self0 0 bs0) x cs1) as [ys cs2].
  reflexivity.
Qed.

Hypothesis same_ln_w : ln_out_weight (w selfK) = ln_out_weight (w self0).
Hypothesis same_ln_b : ln_out_bias (w selfK) = ln_out_bias (w self0).
Hypothesis same_head : head_weight (w selfK) = head_weight (w self0).
Hypothesis ln_end : ln_invariant eps (scale K (length raws)).

Lemma head_one_scaled (y : vec) (full_output : bool) :
  head eps selfK (One (vdivc y (scale K (length raws)))) full_output
  = head eps self0 (One y) full_output.
Proof.
  unfold head. rewrite same_ln_w, same_ln_b, same_head.
  rewrite ln_end. reflexivity.
Qed.

Lemma head_seq_scaled (y : mat) (full_output : bool) :
  y <> [] ->
  head eps selfK
    (Seq (map (fun r => vdivc r (scale K (length raws))) y)) full_output
  = head eps self0 (Seq y) full_output.
Proof.
  intros Hy. unfold head. rewrite same_ln_w, same_ln_b, same_head.
  destruct (negb full_output).
  - unfold last_row.
    rewrite (@last_map _ _ (fun r => vdivc r (scale K (length raws)))
               y [] [] Hy).
    rewrite ln_end. reflexivity.
  - rewrite map_map.
    rewrite (map_ext _ (fun v => layer_norm eps v (ln_out_weight (w self0))
                                   (ln_out_bias (w self0))));
      [reflexivity|].
    intros v. apply ln_end.
Qed.

End RescaledForward.

Section RescaledModel.

Import Py Tensor Quant Engine.
Local Open Scope R_scope.

Variable eps : R.
Variable cuda_on : bool.
Variable st : Strategy.RWKVStrategy.
Variable raw : raw_weights.

Lemma model_inv (k : nat) (m : RWKV) :
  model eps cuda_on k st raw = Ok m ->
  exists bs dd,
    place_blocks k st 0 (raw_blocks raw) = Ok bs
    /\ getitem (Strategy.strategy st)
         (Z.of_nat (length (raw_blocks raw))) = Ok (Some dd)
    /\ m = mkRWKV cuda_on k (ncols (raw_emb_weight raw)) st
             (mkWeights
                (map (fun row => layer_norm eps row (raw_ln0_weight raw)
                                   (raw_ln0_bias raw)) (raw_emb_weight raw))
                bs (raw_ln_out_weight raw) (raw_ln_out_bias raw)
                (place_matrix k (length (raw_blocks raw)) false
                   (Strategy.wtype dd) (raw_head_weight raw))).
Proof.
  unfold model, place. intros H.
  apply bind_ok in H as (ws & Hws & H). injection H as <-.
  apply bind_ok in Hws as (bs & Hbs & Hws).
  apply bind_ok in Hws as (o & Ho & Hws).
  apply bind_ok in Hws as (dd & Hdd & Hws). injection Hws as <-.
  destruct o as [d|]; [|discriminate]. injection Hdd as ->.
  exists bs, dd. repeat split; assumption.
Qed.

(** A model built by the loader is loaded according to its plan. *)
Lemma model_is_ok (k : nat) (m : RWKV) :
  model eps cuda_on k st raw = Ok m -> model_ok m = true.
Proof.
  intros H. destruct (@model_inv _ _ H) as (bs & dd & Hbs & Hdd & ->).
  set (m := mkRWKV _ _ _ _ _).
  assert (Hb : blocks_ok m 0 (blocks (w m)) = true)
    by exact (@place_blocks_ok st k m (raw_blocks raw) eq_refl 0%nat bs Hbs).
  unfold model_ok, n_layer. rewrite Hb. subst m. cbn [w blocks].
  unfold plan_entry. cbn [strategy andb].
  rewrite (@place_blocks_length _ _ _ _ _ Hbs), Hdd. reflexivity.
Qed.

Lemma init_state_same (a b : RWKV) (idx : list nat) :
  strategy a = strategy b -> n_embd a = n_embd b ->
  init_state a idx = init_state b idx.
Proof.
  intros Hs He. induction idx as [|i idx IH]; [reflexivity|].
  cbn [init_state]. unfold plan_entry. rewrite Hs, He, IH. reflexivity.
Qed.

Lemma init_state_cells (self : RWKV) (bs : list block) :
  forall i, blocks_ok self i bs = true ->
            exists cs, init_state self (seq i (length bs)) = Ok (flatten cs)
                       /\ length cs = length bs.
Proof.
  induction bs as [|b bs IH]; intros i H.
  - exists []. split; reflexivity.
  - cbn [blocks_ok] in H. cbn [length seq init_state].
    destruct (plan_entry self i) as [dd|]; [|discriminate].
    apply andb_prop in H as [_ H].
    destruct (IH (S i) H) as (cs & -> & Hlen). cbn [bind].
    exists ((zeros (n_embd self), zeros (n_embd self), zeros (n_embd self),
             map (fun z => z - 10 ^ 30) (zeros (n_embd self)),
             zeros (n_embd self)) :: cs).
    split; [reflexivity | simpl; congruence].
Qed.

Variable K : nat.
Variables mK m0 : RWKV.
Hypothesis built_K : model eps cuda_on K st raw = Ok mK.
Hypothesis built_0 : model eps cuda_on 0 st raw = Ok m0.
Hypothesis ln_ok :
  forall j, (j <= length (raw_blocks raw))%nat ->
            ln_invariant eps (scale K j).

(** Both runs from a state given as the cells of the layers. *)
Lemma forward_rescaled (tokens : list Z) (cs : list cell) (post : list vec)
  (full_output : bool) :
  tokens <> [] ->
  tokens_ok m0 tokens = true ->
  length cs = length (raw_blocks raw) ->
  exists out state',
    forward eps mK tokens (Some (flatten cs ++ post)) full_output
    = Ok (out, state')
    /\ forward eps m0 tokens (Some (flatten cs ++ post)) full_output
       = Ok (out, state').
Proof.
  intros Hne Htok Hlen.
  pose proof (@model_is_ok _ _ built_K) as HokK.
  pose proof (@model_is_ok _ _ built_0) as Hok0.
  destruct (@model_inv _ _ built_K) as (bsK & dd & HbsK & Hdd & EK).
  destruct (@model_inv _ _ built_0) as (bs0 & dd0 & Hbs0 & Hdd0 & E0).
  rewrite Hdd in Hdd0. injection Hdd0 as <-.
  assert (HlK : length cs = n_layer mK).
  { rewrite EK. unfold n_layer. cbn [w blocks].
    rewrite (@place_blocks_length _ _ _ _ _ HbsK). exact Hlen. }
  assert (Hl0 : length cs = n_layer m0).
  { rewrite E0. unfold n_layer. cbn [w blocks].
    rewrite (@place_blocks_length _ _ _ _ _ Hbs0). exact Hlen. }
  assert (Hemb : emb_weight (w mK) = emb_weight (w m0))
    by (rewrite EK, E0; reflexivity).
  assert (HrK : RESCALE_LAYER mK = K) by (rewrite EK; reflexivity).
  assert (Hr0 : RESCALE_LAYER m0 = 0%nat) by (rewrite E0; reflexivity).
  assert (HbK : blocks (w mK) = bsK) by (rewrite EK; reflexivity).
  assert (Hb0 : blocks (w m0) = bs0) by (rewrite E0; reflexivity).
  assert (Hlw : ln_out_weight (w mK) = ln_out_weight (w m0))
    by (rewrite EK, E0; reflexivity).
  assert (Hlb : ln_out_bias (w mK) = ln_out_bias (w m0))
    by (rewrite EK, E0; reflexivity).
  assert (Hhd : head_weight (w mK) = head_weight (w m0)).
  { rewrite EK, E0. cbn [w head_weight]. apply place_matrix_unscaled. }
  assert (Hin : forall j, (j < length (raw_blocks raw))%nat ->
                          ln_invariant eps (scale K j)).
  { intros j Hj. apply ln_ok. lia. }
  pose proof (ln_ok (le_n _)) as Hend.
  pose proof Htok as HtokK. unfold tokens_ok in HtokK.
  rewrite <- Hemb in HtokK. fold (tokens_ok mK tokens) in HtokK.
  destruct (lookup_rows_ok m0 tokens Htok) as (x & Hx & HF).
  assert (Hxne : x <> []).
  { destruct tokens; [congruence|]. inversion HF. discriminate. }
  destruct tokens as [|t [|t' tokens]]; [congruence| |].
  - destruct x as [|r [|r' x]];
      [congruence | | exfalso; inversion HF as [|? ? ? ? _ HF'];
                      inversion HF'].
    apply Forall2_cons_iff in HF as [Hr _].
    assert (HrK' : getitem (emb_weight (w mK)) t = Ok r)
      by (rewrite Hemb; exact Hr).
    rewrite (@forward_one_ok eps mK t r cs post _ HokK HrK' HlK).
    rewrite (@forward_one_ok eps m0 t r cs post _ Hok0 Hr Hl0).
    rewrite HbK, Hb0.
    rewrite (@stack_one_from_0 eps mK m0 K HrK Hr0 st (raw_blocks raw)
               bsK bs0 HbsK Hbs0 Hin r cs Hlen).
    destruct (stack_one eps m0 0 bs0 r cs) as [y cs'].
    rewrite (@head_one_scaled eps mK m0 K (raw_blocks raw) Hlw Hlb Hhd Hend).
    eauto.
  - assert (Hlt : (1 < length (t :: t' :: tokens))%nat) by (simpl; lia).
    assert (HxK : lookup_rows (emb_weight (w mK)) (t :: t' :: tokens) = Ok x)
      by (rewrite Hemb; exact Hx).
    rewrite (@forward_seq_ok eps mK _ x cs post _ HokK Hlt HxK Hxne HlK).
    rewrite (@forward_seq_ok eps m0 _ x cs post _ Hok0 Hlt Hx Hxne Hl0).
    rewrite !stack_interchange. rewrite HbK, Hb0.
    rewrite (@stack_rows_from_0 eps mK m0 K HrK Hr0 st (raw_blocks raw)
               bsK bs0 HbsK Hbs0 Hin x cs Hlen).
    pose proof (map_accum_nonempty (stack_one eps m0 0 bs0) cs Hxne) as Hy.
    destruct (map_accum (stack_one eps m0 0 bs0) x cs) as [y cs'].
    cbn [fst] in Hy.
    rewrite (@head_seq_scaled eps mK m0 K (raw_blocks raw) Hlw Hlb Hhd Hend
               y full_output Hy).
    eauto.
Qed.

(** The same with the state as the caller passes it. *)
Lemma forward_rescaled_any (tokens : list Z) (state : option (list vec))
  (full_output : bool) :
  tokens <> [] ->
  tokens_ok m0 tokens = true ->
  (forall s, state = Some s ->
             (length (raw_blocks raw) * 5 <= length s)%nat) ->
  exists out state',
    forward eps mK tokens state full_output = Ok (out, state')
    /\ forward eps m0 tokens state full_output = Ok (out, state').
Proof.
  intros Hne Htok Hstate.
  destruct state as [s|].
  - destruct (@state_cells (length (raw_blocks raw)) s (Hstate s eq_refl))
      as (cs & post & -> & Hlen).
    apply forward_rescaled; assumption.
  - pose proof (@model_is_ok _ _ built_0) as Hok0.
    destruct (@model_ok_parts _ Hok0) as [Hb0 _].
    destruct (@init_state_cells _ _ _ Hb0) as (cs & Hinit & Hlen).
    fold (n_layer m0) in Hinit.
    destruct (@model_inv _ _ built_K) as (bsK & dd & HbsK & Hdd & EK).
    destruct (@model_inv _ _ built_0) as (bs0 & dd0 & Hbs0 & Hdd0 & E0).
    assert (Hn : n_layer mK = n_layer m0).
    { rewrite EK, E0. unfold n_layer. cbn [w blocks].
      rewrite (@place_blocks_length _ _ _ _ _ HbsK).
      rewrite (@place_blocks_length _ _ _ _ _ Hbs0). reflexivity. }
    assert (HinitK : init_state mK (seq 0 (n_layer mK)) = Ok (flatten cs)).
    { rewrite Hn, <- Hinit. apply init_state_same; rewrite EK, E0;
        reflexivity. }
    assert (Hlen' : length cs = length (raw_blocks raw)).
    { rewrite Hlen, E0. cbn [w blocks].
      apply (@place_blocks_length _ _ _ _ _ Hbs0). }
    destruct (@forward_rescaled tokens cs [] full_output Hne Htok Hlen')
      as (out & state' & HK & H0).
    exists out, state'. rewrite app_nil_r in HK, H0.
    unfold forward in *. rewrite HinitK, Hinit. split; assumption.
Qed.

End RescaledModel.



Section RescaleExample.

Import Py Tensor Quant Engine.
Local Open Scope R_scope.

(** The planner builds the slots of [strategy_six_layers]. *)
Lemma six_layers_planned :
  exists S, Strategy.init "cpu fp16" 6 = Ok S
    /\ Strategy.strategy S = Strategy.strategy Strategy.strategy_six_layers.
Proof. eexists. split; [vm_compute; reflexivity | reflexivity]. Qed.

Local Abbreviation cell0 :=
  ([0; 0], [0; 0], [0; 0], [0 - 10 ^ 30; 0 - 10 ^ 30], [0; 0]).

Local Abbreviation flat_blocks i n :=
  (map (fun j => place_block 0 j Strategy.cpu_fp16_slot flat_raw_block)
     (seq i n)).

(** A block of [six_layer_raw] leaves the residual stream as it is. *)
Lemma flat_layer (eps : R) (self : RWKV) (i : nat) (x0 x1 : R) :
  RESCALE_LAYER self = 0%nat ->
  exists c',
    layer_one eps self i
      (place_block 0 i Strategy.cpu_fp16_slot flat_raw_block) [x0; x1] cell0
    = ([x0; x1], c').
Proof.
  intros H0. unfold layer_one, rescale_row. rewrite H0.
  cbv -[Rplus Rmult Rminus Rdiv Ropp Rinv exp sqrt INR IZR pow Rmax Rmin
        sigmoid relu square].
  eexists. apply f_equal2; [|reflexivity].
  f_equal; [ring | f_equal; ring].
Qed.

Lemma flat_stack (eps : R) (self : RWKV) (x0 x1 : R) :
  RESCALE_LAYER self = 0%nat ->
  forall n i, exists cs',
    stack_one eps self i (flat_blocks i n) [x0; x1] (repeat cell0 n)
    = ([x0; x1], cs').
Proof.
  intros H0. induction n as [|n IH]; intros i.
  - exists []. reflexivity.
  - cbn [seq map repeat stack_one].
    destruct (flat_layer eps self i x0 x1 H0) as [c' ->].
    destruct (IH (S i)) as [cs' ->].
    eexists. reflexivity.
Qed.

Lemma layer_norm_pm (eps a : R) :
  layer_norm eps [a; - a] [1; 1] [0; 0]
  = [a / sqrt (a * a + eps); - a / sqrt (a * a + eps)].
Proof.
  assert (Hm : mean [a; - a] = 0).
  { unfold mean, vsum. cbn [fold_right length]. simpl INR. field. }
  assert (Hv : variance [a; - a] = a * a).
  { unfold variance. rewrite Hm. unfold vsum, square.
    cbn [map fold_right length]. simpl INR. field. }
  unfold layer_norm. rewrite Hm, Hv.
  cbn [map vmul vadd zipWith].
  unfold Rdiv. f_equal; [ring | f_equal; ring].
Qed.

Lemma folded_embedding (eps : R) :
  layer_norm eps [1; -1] [0; 0] [1; -1] = [1; -1].
Proof.
  unfold layer_norm. cbn [map vmul vadd zipWith].
  f_equal; [ring | f_equal; ring].
Qed.

Lemma halving_changes_layer_norm :
  1 / sqrt (1 * 1 + torch_eps)
  <> (1 / 2) / sqrt ((1 / 2) * (1 / 2) + torch_eps).
Proof.
  unfold torch_eps.
  set (A := sqrt (1 * 1 + 1 / 100000)).
  set (B := sqrt (1 / 2 * (1 / 2) + 1 / 100000)).
  assert (HA : A * A = 1 * 1 + 1 / 100000) by (apply sqrt_sqrt; lra).
  assert (HB : B * B = 1 / 2 * (1 / 2) + 1 / 100000)
    by (apply sqrt_sqrt; lra).
  assert (PA : 0 < A) by (apply sqrt_lt_R0; lra).
  assert (PB : 0 < B) by (apply sqrt_lt_R0; lra).
  intros H.
  assert (E : B = A / 2).
  { apply (f_equal (fun z => z * (A * B))) in H.
    replace (1 / A * (A * B)) with B in H by (field; lra).
    replace (1 / 2 / B * (A * B)) with (A / 2) in H by (field; lra).
    exact H. }
  rewrite E in HB. nra.
Qed.

Lemma forward_fresh (eps : R) (self : RWKV) (tokens : list Z)
  (s : list vec) (full_output : bool) :
  init_state self (seq 0 (n_layer self)) = Ok s ->
  forward eps self tokens None full_output
  = forward eps self tokens (Some s) full_output.
Proof. intros H. unfold forward. rewrite H. reflexivity. Qed.

End RescaleExample.


(* ================================================================== *)
(** * Tensor objects: the caller's tensors across [forward]             *)
(* ================================================================== *)

Section StoreRules.

Import Py Tensor Quant Engine Alias.
Local Open Scope nat_scope.

Context {A B : Type}.
Variable n0 : nat.

Lemma wp_ret (a : A) (Q : A -> heap -> Prop) (h : heap) :
  Q a h -> wp n0 (ret a) Q h.
Proof. intros H. unfold wp, ret. auto. Qed.

Lemma wp_lift (r : result A) (Q : A -> heap -> Prop) (h : heap) :
  (forall a, r = Ok a -> Q a h) -> wp n0 (lift r) Q h.
Proof.
  intros H. unfold wp, lift. destruct r; auto.
Qed.

Lemma wp_mono (m : M A) (Q1 Q2 : A -> heap -> Prop) (h : heap) :
  wp n0 m Q1 h ->
  (forall a h1, length h <= length h1 -> Q1 a h1 -> Q2 a h1) ->
  wp n0 m Q2 h.
Proof.
  unfold wp. destruct (m h) as [r h1]. intros (Hl & Hf & Hq) H.
  repeat split; try assumption. destruct r; auto.
Qed.

Lemma wp_bind (m : M A) (k : A -> M B) (Q : B -> heap -> Prop) (h : heap) :
  wp n0 m (fun a h1 => wp n0 (k a) Q h1) h -> wp n0 (Alias.bind m k) Q h.
Proof.
  unfold wp, Alias.bind. destruct (m h) as [[a|e] h1].
  - intros (Hl & Hf & Hk). destruct (k a h1) as [r h2].
    destruct Hk as (Hl2 & Hf2 & Hq). repeat split.
    + lia.
    + intros l Hlt. rewrite Hf2, Hf by assumption. reflexivity.
    + exact Hq.
  - intros (Hl & Hf & _). auto.
Qed.

End StoreRules.

Section StorePrimitives.

Import Py Tensor Quant Engine Alias.
Local Open Scope nat_scope.

Variable n0 : nat.

Lemma length_setitem {X} (l : list X) (i : nat) (v : X) :
  length (setitem l i v) = length l.
Proof.
  revert i. induction l as [|a l IH]; intros [|i]; simpl; auto.
Qed.

Lemma nth_error_setitem_eq {X} (l : list X) (i : nat) (v : X) :
  i < length l -> nth_error (setitem l i v) i = Some v.
Proof.
  revert i. induction l as [|a l IH]; intros [|i] H; simpl in *;
    try lia; [reflexivity | apply IH; lia].
Qed.

Lemma nth_error_setitem_neq {X} (l : list X) (i j : nat) (v : X) :
  i <> j -> nth_error (setitem l i v) j = nth_error l j.
Proof.
  revert i j. induction l as [|a l IH]; intros [|i] [|j] H; simpl;
    try reflexivity; [congruence | apply IH; congruence].
Qed.

Lemma wp_alloc (t : act) (Q : loc -> heap -> Prop) (h : heap) :
  n0 <= length h -> Q (length h) (h ++ [t]) -> wp n0 (alloc t) Q h.
Proof.
  intros Hn H. unfold wp, alloc. repeat split.
  - rewrite length_app. lia.
  - intros l Hl. apply nth_error_app1. lia.
  - exact H.
Qed.

Lemma wp_read_vec (l : loc) (Q : vec -> heap -> Prop) (h : heap) :
  (forall v, nth_error h l = Some (One v) -> Q v h) ->
  wp n0 (read_vec l) Q h.
Proof.
  intros H. unfold wp, read_vec, read, Alias.bind, ret, lift.
  destruct (nth_error h l) as [[v|m]|]; auto.
Qed.

Lemma wp_read_mat (l : loc) (Q : mat -> heap -> Prop) (h : heap) :
  (forall m, nth_error h l = Some (Seq m) -> Q m h) ->
  wp n0 (read_mat l) Q h.
Proof.
  intros H. unfold wp, read_mat, read, Alias.bind, ret, lift.
  destruct (nth_error h l) as [[v|m]|]; auto.
Qed.

(** A write into a tensor object created at or after [n0]. *)
Lemma wp_write_row (buf : loc) (t : nat) (row : vec)
  (Q : unit -> heap -> Prop) (h : heap) :
  n0 <= buf ->
  (forall m, nth_error h buf = Some (Seq m) ->
             Q tt (setitem h buf (Seq (setitem m t row)))) ->
  wp n0 (write_row buf t row) Q h.
Proof.
  intros Hb H. unfold wp, write_row.
  destruct (nth_error h buf) as [[v|m]|]; auto.
  repeat split.
  - rewrite length_setitem. lia.
  - intros l Hl. apply nth_error_setitem_neq. lia.
  - apply H. reflexivity.
Qed.

Lemma rows_at_app (h : heap) (l : loc) (T : nat) (t : act) :
  rows_at h l T -> rows_at (h ++ [t]) l T.
Proof.
  intros (m & Hm & Hl). exists m. split; [|exact Hl].
  rewrite nth_error_app1; [exact Hm|].
  apply nth_error_Some. congruence.
Qed.

End StorePrimitives.

Section LayerObjects.

Import Py Tensor Quant Engine Alias.
Local Open Scope nat_scope.

Variable eps : R.
Variable wkv_forward : kernel.
Variable n0 : nat.

Ltac step_read v H :=
  apply wp_bind, wp_read_vec; intros v H.
Ltac step_alloc :=
  apply wp_bind, wp_alloc; [rewrite ?length_app; simpl; lia|].

(** [att_one]: the four state tensors it returns are new. *)
Lemma att_one_wp
  (f : vec -> vec -> vec -> vec -> vec * vec * vec * vec * vec)
  (sx aa bb pp : loc) (h : heap) :
  n0 <= length h ->
  wp n0 (Alias.att_one f sx aa bb pp)
    (fun '(y, l0, l1, l2, l3) h' =>
       n0 <= l0 /\ n0 <= l1 /\ n0 <= l2 /\ n0 <= l3) h.
Proof.
  intros Hn. unfold Alias.att_one.
  step_read s0 H0. step_read s1 H1. step_read s2 H2. step_read s3 H3.
  destruct (f s0 s1 s2 s3) as [[[[y v0] v1] v2] v3].
  step_alloc. step_alloc. step_alloc. step_alloc.
  apply wp_ret. rewrite ?length_app. simpl. lia.
Qed.

(** [ffn_one] and [ffn_seq]: the state tensor they return is new. *)
Lemma ffn_wp {X} (f : vec -> X * vec) (P : X -> Prop) (sx : loc)
  (h : heap) :
  n0 <= length h ->
  (forall s, P (fst (f s))) ->
  wp n0 (Alias.ffn f sx) (fun '(y, l) h' => P y /\ n0 <= l) h.
Proof.
  intros Hn HP. unfold Alias.ffn.
  step_read s4 H4. specialize (HP s4).
  destruct (f s4) as [y v4].
  step_alloc. apply wp_ret. split; [exact HP | lia].
Qed.

(** The loop of [att_seq] writes only into its buffer, and ends with
    [aa], [bb], [pp] bound to new tensors once it has run a step. *)
Lemma wkv_loop_wp (t_decay t_first : vec) (k v : mat) (buf : loc)
  (T : nat) (ts : list nat) :
  n0 <= buf ->
  forall (aa bb pp : loc) (h : heap),
    n0 <= length h ->
    rows_at h buf T ->
    ts <> [] \/ (n0 <= aa /\ n0 <= bb /\ n0 <= pp) ->
    wp n0 (Alias.wkv_loop t_decay t_first k v buf ts (aa, bb, pp))
      (fun '(aa', bb', pp') h' =>
         rows_at h' buf T /\ n0 <= aa' /\ n0 <= bb' /\ n0 <= pp') h.
Proof.
  intros Hbuf. induction ts as [|t ts IH]; intros aa bb pp h Hn Hrows Hfresh.
  - cbn [Alias.wkv_loop]. apply wp_ret.
    destruct Hfresh as [Hne | Hf]; [congruence|]. split; assumption.
  - cbn [Alias.wkv_loop].
    step_read a Ha. step_read b Hb. step_read p Hp.
    apply wp_bind, wp_write_row; [exact Hbuf|]. intros m Hm.
    destruct (wkv_next _ _ _ _ _ _) as [[a' b'] p'].
    set (h1 := setitem h buf _).
    assert (Hl1 : length h1 = length h) by apply length_setitem.
    assert (Hr1 : rows_at h1 buf T).
    { destruct Hrows as (m' & Hm' & HT). rewrite Hm in Hm'.
      injection Hm' as <-.
      exists (setitem m t (wkv_out t_first (nth t k []) (nth t v []) a b p)).
      split; [|rewrite length_setitem; exact HT].
      apply nth_error_setitem_eq. apply nth_error_Some. congruence. }
    apply wp_bind, wp_alloc; [lia|].
    apply wp_bind, wp_alloc; [rewrite ?length_app; simpl; lia|].
    apply wp_bind, wp_alloc; [rewrite ?length_app; simpl; lia|].
    apply IH.
    + rewrite ?length_app. simpl. lia.
    + do 3 apply rows_at_app. exact Hr1.
    + right. rewrite ?length_app. simpl. lia.
Qed.

Lemma length_cat_rows {X} (s : X) (xx : list X) :
  length xx <= length (s :: removelast xx).
Proof.
  destruct xx as [|a xx]; [simpl; lia|].
  rewrite length_shifted by discriminate. lia.
Qed.

(** [att_seq]: the buffer written by the loop is the new tensor of
    [torch.cat]; the state tensors returned are new. *)
Lemma att_seq_wp (by_k by_v by_r by_o : mat -> mat) (x : mat)
  (sx aa bb pp : loc)
  (ln_w ln_b k_mix v_mix r_mix t_decay t_first : vec) (h : heap) :
  (forall m, length (by_r m) = length m) ->
  (forall m, length (by_o m) = length m) ->
  x <> [] ->
  n0 <= length h ->
  wp n0 (Alias.att_seq eps by_k by_v by_r by_o x sx aa bb pp
           ln_w ln_b k_mix v_mix r_mix t_decay t_first)
    (fun '(y, l0, l1, l2, l3) h' =>
       length y = length x
       /\ n0 <= l0 /\ n0 <= l1 /\ n0 <= l2 /\ n0 <= l3) h.
Proof.
  intros Hr Ho Hx Hn. unfold Alias.att_seq.
  step_read s0 H0.
  set (xx := map (fun row => layer_norm eps row ln_w ln_b) x).
  set (cat := s0 :: all_but_last xx).
  assert (Hxx : length xx = length x) by apply length_map.
  assert (Hcat : length x <= length cat).
  { rewrite <- Hxx. apply length_cat_rows. }
  apply wp_bind, wp_alloc; [exact Hn|].
  apply wp_bind.
  eapply wp_mono.
  - apply (@wkv_loop_wp t_decay t_first _ _ (length h) (length cat)).
    + exact Hn.
    + rewrite length_app. simpl. lia.
    + exists cat. split; [|reflexivity].
      rewrite nth_error_app2 by lia. rewrite Nat.sub_diag. reflexivity.
    + left. destruct x; [congruence | discriminate].
  - intros [[l1 l2] l3] h1 Hl1 (Hrows & F1 & F2 & F3).
    apply wp_bind, wp_read_mat. intros sxm Hsxm.
    destruct Hrows as (m' & Hm' & HT). rewrite Hsxm in Hm'.
    injection Hm' as <-.
    apply wp_bind, wp_alloc;
      [rewrite length_app in Hl1; simpl in Hl1; lia|].
    apply wp_ret. repeat split; try assumption.
    + rewrite length_zipWith, Ho, length_zipWith, length_map, Hr.
      rewrite length_zipWith. lia.
    + rewrite length_app in Hl1. simpl in Hl1. lia.
Qed.

End LayerObjects.

Section StageObjects.

Import Py Tensor Quant Engine Alias.
Local Open Scope nat_scope.

Variable eps : R.
Variable wkv_forward : kernel.
Variable n0 : nat.

Lemma same_mode_positions (x y : act) :
  same_mode x y -> positions y = positions x.
Proof. destruct x, y; simpl; intros H; congruence || tauto. Qed.

Lemma length_by_int8 (q : mm8w) (m : mat) : length (by_int8 q m) = length m.
Proof. apply length_map. Qed.

Lemma length_by_float (w m : mat) : length (by_float w m) = length m.
Proof. apply length_map. Qed.

Lemma length_ffn_seq (x : mat) (sx ln_w ln_b k_mix r_mix : vec)
  (kw vw rw : mat) :
  length (fst (ffn_seq eps x sx ln_w ln_b k_mix r_mix kw vw rw))
  = length x.
Proof.
  unfold ffn_seq. cbn [fst].
  set (xx := map (fun row => layer_norm eps row ln_w ln_b) x).
  assert (Hxx : length xx = length x) by apply length_map.
  pose proof (length_cat_rows sx xx) as Hcat.
  unfold all_but_last.
  rewrite !length_zipWith. unfold matmat.
  rewrite !length_map, !length_zipWith. lia.
Qed.

Lemma att_call_wp (self : RWKV) (dd : Strategy.slot)
  (one : vec -> vec -> vec -> vec -> vec -> vec * vec * vec * vec * vec)
  (by_k by_v by_r by_o : mat -> mat) (b : block) (x : act)
  (s0 s1 s2 s3 : loc) (h : heap) :
  (forall m, length (by_r m) = length m) ->
  (forall m, length (by_o m) = length m) ->
  0 < positions x ->
  plain_call self x ->
  n0 <= length h ->
  wp n0 (att_call eps wkv_forward self dd one by_k by_v by_r by_o b x
           s0 s1 s2 s3)
    (fun '(x', l0, l1, l2, l3) h' =>
       same_mode x x' /\ n0 <= l0 /\ n0 <= l1 /\ n0 <= l2 /\ n0 <= l3) h.
Proof.
  intros Hr Ho Hpos Hplain Hn. unfold att_call.
  destruct x as [xv|xm].
  - apply wp_bind. eapply wp_mono; [apply att_one_wp; exact Hn|].
    intros [[[[y l0] l1] l2] l3] h1 _ HF.
    apply wp_ret. split; [exact I | exact HF].
  - destruct Hplain as [Hoff | (v & Hv)]; [|discriminate].
    rewrite Hoff, andb_false_r.
    apply wp_bind. eapply wp_mono.
    + apply att_seq_wp; try assumption.
      simpl in Hpos. destruct xm; [simpl in Hpos; lia | discriminate].
    + intros [[[[y l0] l1] l2] l3] h1 _ (Hlen & HF).
      apply wp_ret. split; [simpl; congruence | exact HF].
Qed.

Lemma getitem_in_range {X} (l : list X) (n : nat) (a : X) :
  getitem l (Z.of_nat n) = Ok a -> n < length l.
Proof.
  rewrite getitem_nat. intros H. apply nth_error_Some.
  destruct (nth_error l n); [discriminate | discriminate].
Qed.

(** The attention stage of layer [i] stores four new tensors in the
    slots 0-3 of the layer. *)
Lemma att_stage_wp (self : RWKV) (i : nat) (dd : Strategy.slot)
  (b : block) (x : act) (state : list loc) (h : heap) :
  0 < positions x ->
  plain_call self x ->
  n0 <= length h ->
  wp n0 (att_stage eps wkv_forward self i dd b x state)
    (fun '(x', state') h' =>
       same_mode x x'
       /\ exists l0 l1 l2 l3,
            state' = setitem (setitem (setitem (setitem state
                       (slot_index i 0) l0) (slot_index i 1) l1)
                       (slot_index i 2) l2) (slot_index i 3) l3
            /\ slot_index i 3 < length state
            /\ n0 <= l0 /\ n0 <= l1 /\ n0 <= l2 /\ n0 <= l3) h.
Proof.
  intros Hpos Hplain Hn. unfold att_stage.
  destruct (is_uint8 (Strategy.wtype dd)).
  - apply wp_bind, wp_lift; intros kq _.
    apply wp_bind, wp_lift; intros vq _.
    apply wp_bind, wp_lift; intros rq _.
    apply wp_bind, wp_lift; intros oq _.
    apply wp_bind, wp_lift; intros s0 _.
    apply wp_bind, wp_lift; intros s1 _.
    apply wp_bind, wp_lift; intros s2 _.
    apply wp_bind, wp_lift; intros s3 Hs3.
    apply wp_bind. eapply wp_mono.
    + apply att_call_wp; try assumption; apply length_by_int8.
    + intros [[[[x' l0] l1] l2] l3] h1 _ (Hm & HF).
      apply wp_ret. split; [exact Hm|].
      exists l0, l1, l2, l3. split; [reflexivity|].
      split; [apply (getitem_in_range _ _ Hs3) | exact HF].
  - apply wp_bind, wp_lift; intros s0 _.
    apply wp_bind, wp_lift; intros s1 _.
    apply wp_bind, wp_lift; intros s2 _.
    apply wp_bind, wp_lift; intros s3 Hs3.
    apply wp_bind, wp_lift; intros kw _.
    apply wp_bind, wp_lift; intros vw _.
    apply wp_bind, wp_lift; intros rw _.
    apply wp_bind, wp_lift; intros ow _.
    apply wp_bind. eapply wp_mono.
    + apply att_call_wp; try assumption; apply length_by_float.
    + intros [[[[x' l0] l1] l2] l3] h1 _ (Hm & HF).
      apply wp_ret. split; [exact Hm|].
      exists l0, l1, l2, l3. split; [reflexivity|].
      split; [apply (getitem_in_range _ _ Hs3) | exact HF].
Qed.

Lemma ffn_call_wp (x : act) (f1 : vec -> vec -> vec * vec)
  (f2 : mat -> vec -> mat * vec) (s4 : loc) (h : heap) :
  (forall m s, length (fst (f2 m s)) = length m) ->
  n0 <= length h ->
  wp n0
    (match x with
     | One xv =>
         Alias.bind (Alias.ffn (f1 xv) s4)
           (fun r => let '(y, n4) := r in ret (One y, n4))
     | Seq xm =>
         Alias.bind (Alias.ffn (f2 xm) s4)
           (fun r => let '(y, n4) := r in ret (Seq y, n4))
     end)
    (fun '(x', l4) h' => same_mode x x' /\ n0 <= l4) h.
Proof.
  intros Hlen Hn. destruct x as [xv|xm].
  - apply wp_bind. eapply wp_mono.
    + apply (@ffn_wp n0 _ (f1 xv) (fun _ => True)); auto.
    + intros [y l] h1 _ [_ HF]. apply wp_ret. split; [exact I | exact HF].
  - apply wp_bind. eapply wp_mono.
    + apply (@ffn_wp n0 _ (f2 xm) (fun y => length y = length xm));
        [exact Hn | intros s; apply Hlen].
    + intros [y l] h1 _ [Hy HF]. apply wp_ret.
      split; [simpl; congruence | exact HF].
Qed.

(** The FFN stage of layer [i] stores a new tensor in the slot 4 of the
    layer. *)
Lemma ffn_stage_wp (self : RWKV) (i : nat) (dd : Strategy.slot)
  (b : block) (x : act) (state : list loc) (h : heap) :
  n0 <= length h ->
  wp n0 (ffn_stage eps self i dd b x state)
    (fun '(x', state') h' =>
       same_mode x x'
       /\ exists l4,
            state' = setitem state (slot_index i 4) l4
            /\ slot_index i 4 < length state
            /\ n0 <= l4) h.
Proof.
  intros Hn. unfold ffn_stage.
  destruct (is_uint8 (Strategy.wtype dd)).
  - apply wp_bind, wp_lift; intros kq _.
    apply wp_bind, wp_lift; intros vq _.
    apply wp_bind, wp_lift; intros rq _.
    apply wp_bind, wp_lift; intros s4 Hs4.
    apply wp_bind. eapply wp_mono.
    + apply (@ffn_call_wp x
               (fun xv v4 => ffn_one_i8 eps xv v4 _ _ _ _ _ _ _
                               _ _ _ _ _ _ _ _ _ _ _ _)
               (fun xm v4 => ffn_seq_i8 eps xm v4 _ _ _ _ _ _ _
                               _ _ _ _ _ _ _ _ _ _ _ _));
        [|exact Hn].
      intros m s. apply length_ffn_seq.
    + intros [x' l4] h1 _ (Hm & HF).
      apply wp_ret. split; [exact Hm|].
      exists l4. split; [reflexivity|].
      split; [apply (getitem_in_range _ _ Hs4) | exact HF].
  - apply wp_bind, wp_lift; intros s4 Hs4.
    apply wp_bind, wp_lift; intros kw _.
    apply wp_bind, wp_lift; intros vw _.
    apply wp_bind, wp_lift; intros rw _.
    apply wp_bind. eapply wp_mono.
    + apply (@ffn_call_wp x
               (fun xv v4 => ffn_one eps xv v4 _ _ _ _ _ _ _)
               (fun xm v4 => ffn_seq eps xm v4 _ _ _ _ _ _ _));
        [|exact Hn].
      intros m s. apply length_ffn_seq.
    + intros [x' l4] h1 _ (Hm & HF).
      apply wp_ret. split; [exact Hm|].
      exists l4. split; [reflexivity|].
      split; [apply (getitem_in_range _ _ Hs4) | exact HF].
Qed.

End StageObjects.

Section ForwardObjects.

Import Py Tensor Quant Engine Alias.
Local Open Scope nat_scope.

Variable eps : R.
Variable wkv_forward : kernel.
Variable n0 : nat.

Lemma nth_error_setitem {X} (l : list X) (a j : nat) (v : X) :
  a < length l ->
  nth_error (setitem l a v) j = if (a =? j) then Some v else nth_error l j.
Proof.
  intros Ha. destruct (Nat.eqb_spec a j) as [<- | Hne].
  - apply nth_error_setitem_eq. exact Ha.
  - apply nth_error_setitem_neq. exact Hne.
Qed.

(** After layer [i] the slots of the layers [0 .. i] hold new tensors. *)
Lemma fresh_slots_layer (state : list loc) (i : nat) (l0 l1 l2 l3 l4 : loc) :
  fresh_slots n0 state 0 (i * 5) ->
  slot_index i 4 < length state ->
  n0 <= l0 -> n0 <= l1 -> n0 <= l2 -> n0 <= l3 -> n0 <= l4 ->
  fresh_slots n0
    (setitem (setitem (setitem (setitem (setitem state
       (slot_index i 0) l0) (slot_index i 1) l1) (slot_index i 2) l2)
       (slot_index i 3) l3) (slot_index i 4) l4)
    0 (S i * 5).
Proof.
  unfold fresh_slots, slot_index. intros Hold Hlen F0 F1 F2 F3 F4 j Hj.
  rewrite !nth_error_setitem by (rewrite ?length_setitem; lia).
  destruct (Nat.eqb_spec (i * 5 + 4) j); [eauto|].
  destruct (Nat.eqb_spec (i * 5 + 3) j); [eauto|].
  destruct (Nat.eqb_spec (i * 5 + 2) j); [eauto|].
  destruct (Nat.eqb_spec (i * 5 + 1) j); [eauto|].
  destruct (Nat.eqb_spec (i * 5 + 0) j); [eauto|].
  apply Hold. lia.
Qed.

Lemma same_mode_rescale (self : RWKV) (i : nat) (x : act) :
  same_mode x (rescale self i x).
Proof.
  unfold rescale.
  destruct (0 <? RESCALE_LAYER self); [|destruct x; simpl; auto].
  destruct ((i + 1) mod RESCALE_LAYER self =? 0);
    destruct x; simpl; auto.
  unfold mdivc. rewrite length_map. reflexivity.
Qed.

Lemma plain_call_same_mode (self : RWKV) (x y : act) :
  plain_call self x -> same_mode x y -> plain_call self y.
Proof.
  intros [Hoff | (v & ->)] Hm; [left; exact Hoff|].
  right. destruct y as [u|m]; [eauto | contradiction].
Qed.

(** The layer loop from layer [i] on. *)
Lemma layers_wp (self : RWKV) (bs : list block) :
  forall (i : nat) (x : act) (state : list loc) (h : heap),
    0 < positions x ->
    plain_call self x ->
    n0 <= length h ->
    fresh_slots n0 state 0 (i * 5) ->
    wp n0 (Alias.layers eps wkv_forward self i bs x state)
      (fun '(x', state') h' =>
         fresh_slots n0 state' 0 ((i + length bs) * 5)) h.
Proof.
  induction bs as [|b bs IH]; intros i x state h Hpos Hplain Hn Hfresh.
  - cbn [Alias.layers length]. apply wp_ret.
    rewrite Nat.add_0_r. exact Hfresh.
  - cbn [Alias.layers length].
    apply wp_bind, wp_lift; intros dd _.
    apply wp_bind. eapply wp_mono;
      [apply att_stage_wp; assumption|].
    intros [x1 state1] h1 Hl1
      (Hm1 & l0 & l1 & l2 & l3 & -> & Hr3 & F0 & F1 & F2 & F3).
    apply wp_bind. eapply wp_mono;
      [apply ffn_stage_wp; lia|].
    intros [x2 state2] h2 Hl2 (Hm2 & l4 & -> & Hr4 & F4).
    rewrite !length_setitem in Hr4.
    replace ((i + S (length bs)) * 5) with ((S i + length bs) * 5) by lia.
    apply IH.
    + pose proof (same_mode_rescale self i x2) as Hm3.
      rewrite (same_mode_positions _ _ Hm3).
      rewrite (same_mode_positions _ _ Hm2).
      rewrite (same_mode_positions _ _ Hm1). exact Hpos.
    + apply (@plain_call_same_mode self x2); [|apply same_mode_rescale].
      apply (@plain_call_same_mode self x1); [|exact Hm2].
      apply (@plain_call_same_mode self x); assumption.
    + lia.
    + apply fresh_slots_layer; assumption.
Qed.

Lemma length_lookup_rows (m : mat) (tokens : list Z) (x : mat) :
  lookup_rows m tokens = Ok x -> length x = length tokens.
Proof.
  revert x. induction tokens as [|t tokens IH]; intros x H.
  - injection H as <-. reflexivity.
  - cbn [lookup_rows] in H.
    apply bind_ok in H as (r & _ & H).
    apply bind_ok in H as (rs & Hrs & H). injection H as <-.
    simpl. f_equal. apply IH. exact Hrs.
Qed.

(** [forward] on a state the caller passes. *)
Lemma forward_wp (self : RWKV) (tokens : list Z) (state : list loc)
  (full_output : bool) (h : heap) :
  RWKV_CUDA_ON self = false \/ length tokens <= 1 ->
  n0 <= length h ->
  wp n0 (Alias.forward eps wkv_forward self tokens (Some state) full_output)
    (fun '(out, state') h' =>
       fresh_slots n0 state' 0 (n_layer self * 5)) h.
Proof.
  intros Hcase Hn. unfold Alias.forward.
  apply wp_bind, wp_ret.
  apply wp_bind, wp_lift. intros x Hx.
  apply wp_bind. eapply wp_mono.
  - apply (@layers_wp self (blocks (w self)) 0 x state h); try assumption.
    + destruct (1 <? length tokens) eqn:Hseq.
      * apply bind_ok in Hx as (m & Hm & Hx). injection Hx as <-.
        simpl. rewrite (length_lookup_rows _ _ Hm).
        apply Nat.ltb_lt in Hseq. lia.
      * apply bind_ok in Hx as (t0 & _ & Hx).
        apply bind_ok in Hx as (r & _ & Hx). injection Hx as <-.
        simpl. lia.
    + destruct Hcase as [Hoff | Hone]; [left; exact Hoff|].
      right. destruct (1 <? length tokens) eqn:Hseq.
      * apply Nat.ltb_lt in Hseq. lia.
      * apply bind_ok in Hx as (t0 & _ & Hx).
        apply bind_ok in Hx as (r & _ & Hx). injection Hx as <-. eauto.
    + intros j Hj. lia.
  - intros [x' state'] h1 _ Hfresh.
    apply wp_bind, wp_lift. intros dd _.
    apply wp_ret. exact Hfresh.
Qed.

End ForwardObjects.


Section AcceleratedCall.

Import Py Tensor Quant Engine Alias.
Local Open Scope nat_scope.

Variable eps : R.
Variable wkv_forward : kernel.

Lemma bind_inv {A B} (m : M A) (k : A -> M B) (h h' : heap) (b : B) :
  Alias.bind m k h = (Ok b, h') ->
  exists a h1, m h = (Ok a, h1) /\ k a h1 = (Ok b, h').
Proof.
  unfold Alias.bind. destruct (m h) as [[a|e] h1]; intros H.
  - eauto.
  - discriminate.
Qed.

(** Whatever the fused operator does, the tensors that [cuda_att_seq]
    returns as the new [aa], [bb], [pp] are the tensor objects it was
    given. *)
Lemma cuda_att_seq_returns_arguments (k_dtype : Strategy.tyval)
  (by_k by_v by_r by_o : mat -> mat) (x : mat) (sx aa bb pp : loc)
  (ln_w ln_b k_mix v_mix r_mix t_decay t_first : vec) (h h' : heap)
  (y : mat) (l0 aa' bb' pp' : loc) :
  cuda_att_seq eps wkv_forward k_dtype by_k by_v by_r by_o x sx aa bb pp
    ln_w ln_b k_mix v_mix r_mix t_decay t_first h
  = (Ok (y, l0, aa', bb', pp'), h') ->
  aa' = aa /\ bb' = bb /\ pp' = pp.
Proof.
  unfold cuda_att_seq. intros H.
  apply bind_inv in H as (s0 & h1 & _ & H).
  apply bind_inv in H as ([[[y1 a1] b1] p1] & h2 & Hwkv & H).
  apply bind_inv in H as (ym & h3 & _ & H).
  apply bind_inv in H as (last & h4 & _ & H).
  unfold ret in H. injection H as _ _ <- <- <- _.
  unfold cuda_wkv in Hwkv.
  apply bind_inv in Hwkv as (u1 & h5 & _ & Hwkv).
  apply bind_inv in Hwkv as (u2 & h6 & _ & Hwkv).
  apply bind_inv in Hwkv as (y2 & h7 & _ & Hwkv).
  apply bind_inv in Hwkv as (u3 & h8 & _ & Hwkv).
  unfold ret in Hwkv. injection Hwkv as _ <- <- <- _.
  auto.
Qed.

End AcceleratedCall.



(** The call of the witness returns. *)
Lemma plain_call_returns :
  exists out state' h',
    Alias.forward Tensor.torch_eps Alias.wkv_forward_spec Engine.tiny_model
      [0; 1]%Z (Some Alias.caller_state) false Alias.caller_store
    = (Py.Ok (out, state'), h').
Proof.
  eexists. eexists. eexists.
  cbv -[Rplus Rmult Rminus Rdiv Ropp Rinv exp sqrt INR IZR pow Rmax Rmin
        Tensor.sigmoid Tensor.relu Tensor.square].
  reflexivity.
Qed.

(* ================================================================== *)
(** * Further properties: the attention recurrence                      *)
(* ================================================================== *)

Section WkvChannels.

Import Tensor Engine Wkv.
Local Open Scope R_scope.

Lemma nth_zipWith {A B C} (f : A -> B -> C) (a : list A) (b : list B)
  (j : nat) (da : A) (db : B) (dc : C) :
  (j < length a)%nat -> (j < length b)%nat ->
  nth j (zipWith f a b) dc = f (nth j a da) (nth j b db).
Proof.
  revert b j. induction a as [|x a IH]; intros [|y b] [|j] Ha Hb;
    simpl in *; try lia; [reflexivity | apply IH; lia].
Qed.

Lemma nth_vexp (a : vec) (j : nat) :
  (j < length a)%nat -> nth j (vexp a) 0 = exp (nth j a 0).
Proof.
  intros H. unfold vexp.
  rewrite (nth_indep _ 0 (exp 0)) by (rewrite length_map; exact H).
  apply map_nth.
Qed.

Ltac chan_lengths :=
  repeat first
    [ rewrite length_zipWith | rewrite length_map ];
  lia.

Ltac chan_step :=
  first
    [ rewrite (@nth_zipWith R R R _ _ _ _ 0 0 0);
      [ | unfold vadd, vsub, vmul, vdiv, vmax, vexp; chan_lengths
        | unfold vadd, vsub, vmul, vdiv, vmax, vexp; chan_lengths ]
    | rewrite nth_vexp;
      [ | unfold vadd, vsub, vmul, vdiv, vmax, vexp; chan_lengths ] ].

(** [wkv_out] works channel by channel. *)
Lemma ch_wkv_out (C j : nat) (u k v a b p : vec) :
  channels C [u; k; v; a; b; p] -> (j < C)%nat ->
  ch j (wkv_out u k v a b p)
  = out1 (ch j u) (ch j k) (ch j v) (ch j a) (ch j b) (ch j p).
Proof.
  intros H Hj. unfold channels in H.
  repeat (apply Forall_cons_iff in H as [? H]).
  unfold ch, wkv_out, out1. cbv zeta.
  unfold vadd, vsub, vmul, vdiv, vmax.
  repeat chan_step. reflexivity.
Qed.

(** [wkv_next] works channel by channel, and keeps the number of
    channels. *)
Lemma ch_wkv_next (C j : nat) (w k v a b p : vec) :
  channels C [w; k; v; a; b; p] -> (j < C)%nat ->
  let '(a', b', p') := wkv_next w k v a b p in
  (ch j a', ch j b', ch j p')
  = next1 (ch j w) (ch j k) (ch j v) (ch j a) (ch j b) (ch j p)
  /\ channels C [a'; b'; p'].
Proof.
  intros H Hj. unfold channels in H.
  repeat (apply Forall_cons_iff in H as [? H]).
  unfold wkv_next. cbv zeta. split.
  - unfold ch, next1. cbv zeta.
    unfold vadd, vsub, vmul, vdiv, vmax.
    repeat chan_step. reflexivity.
  - unfold channels, vadd, vsub, vmul, vdiv, vmax, vexp.
    repeat apply Forall_cons; [| | | apply Forall_nil]; chan_lengths.
Qed.

Lemma exp_shift (x q : R) : exp (x - q) * exp q = exp x.
Proof. rewrite <- exp_plus. f_equal. ring. Qed.

(** The output step in linear scale. *)
Lemma out1_linear (u k v a b p : R) :
  out1 u k v a b p
  = (a * exp p + exp (u + k) * v) / (b * exp p + exp (u + k)).
Proof.
  unfold out1. cbv zeta.
  set (q := Rmax p (u + k)).
  assert (Hq : exp q <> 0) by (pose proof (exp_pos q); lra).
  rewrite <- (exp_shift p q), <- (exp_shift (u + k) q).
  set (e1 := exp (p - q)). set (e2 := exp (u + k - q)).
  replace (a * (e1 * exp q) + e2 * exp q * v)
    with ((e1 * a + e2 * v) * exp q) by ring.
  replace (b * (e1 * exp q) + e2 * exp q)
    with ((e1 * b + e2) * exp q) by ring.
  unfold Rdiv. rewrite Rinv_mult.
  replace ((e1 * a + e2 * v) * exp q * (/ (e1 * b + e2) * / exp q))
    with ((e1 * a + e2 * v) * / (e1 * b + e2) * (exp q * / exp q)) by ring.
  rewrite Rinv_r by exact Hq. ring.
Qed.

(** The state advance in linear scale. *)
Lemma next1_linear (w k v a b p : R) :
  let '(a', b', p') := next1 w k v a b p in
  a' * exp p' = exp w * (a * exp p) + exp k * v
  /\ b' * exp p' = exp w * (b * exp p) + exp k.
Proof.
  unfold next1. cbv zeta.
  set (q := Rmax (w + p) k).
  split.
  - replace ((exp (w + p - q) * a + exp (k - q) * v) * exp q)
      with (exp (w + p - q) * exp q * a + exp (k - q) * exp q * v) by ring.
    rewrite !exp_shift, exp_plus. ring.
  - replace ((exp (w + p - q) * b + exp (k - q)) * exp q)
      with (exp (w + p - q) * exp q * b + exp (k - q) * exp q) by ring.
    rewrite !exp_shift, exp_plus. ring.
Qed.

End WkvChannels.

(** X1 -- the state [(aa, bb, pp)] of the attention recurrence stands,
    channel by channel, for the sums [A = aa * exp pp] and
    [B = bb * exp pp]: the output of [wkv_out] is
    [(A + exp (u + k) * v) / (B + exp (u + k))], and [wkv_next] leaves a
    state that stands for [exp w * A + exp k * v] and
    [exp w * B + exp k].  The running maximum [pp] changes the
    representation only, not the value computed. *)
Theorem X1_wkv_state_stands_for_sums (C j : nat)
  (w u k v aa bb pp : Tensor.vec) :
  Wkv.channels C [w; u; k; v; aa; bb; pp] -> (j < C)%nat ->
  let A := (Wkv.ch j aa * exp (Wkv.ch j pp))%R in
  let B := (Wkv.ch j bb * exp (Wkv.ch j pp))%R in
  let E := exp (Wkv.ch j u + Wkv.ch j k) in
  Wkv.ch j (Engine.wkv_out u k v aa bb pp)
  = ((A + E * Wkv.ch j v) / (B + E))%R
  /\ let '(aa', bb', pp') := Engine.wkv_next w k v aa bb pp in
     (Wkv.ch j aa' * exp (Wkv.ch j pp')
      = exp (Wkv.ch j w) * A + exp (Wkv.ch j k) * Wkv.ch j v)%R
     /\ (Wkv.ch j bb' * exp (Wkv.ch j pp')
         = exp (Wkv.ch j w) * B + exp (Wkv.ch j k))%R.
Proof.
  intros H Hj A B E. unfold Wkv.channels in H.
  assert (H1 : Wkv.channels C [u; k; v; aa; bb; pp])
    by (apply Forall_inv_tail in H; exact H).
  assert (H2 : Wkv.channels C [w; k; v; aa; bb; pp]).
  { repeat (apply Forall_cons_iff in H as [? H]).
    repeat apply Forall_cons; assumption. }
  split.
  - rewrite (ch_wkv_out H1 Hj), out1_linear. reflexivity.
  - pose proof (ch_wkv_next H2 Hj) as Hn.
    destruct (Engine.wkv_next w k v aa bb pp) as [[aa' bb'] pp'].
    destruct Hn as [Hn _].
    pose proof (next1_linear (Wkv.ch j w) (Wkv.ch j k) (Wkv.ch j v)
                  (Wkv.ch j aa) (Wkv.ch j bb) (Wkv.ch j pp)) as Hl.
    rewrite <- Hn in Hl. exact Hl.
Qed.

Lemma X1_wkv_state_stands_for_sums_witness :
  let A := (Wkv.ch O [2] * exp (Wkv.ch O [0]))%R in
  let B := (Wkv.ch O [1] * exp (Wkv.ch O [0]))%R in
  let E := exp (Wkv.ch O [0] + Wkv.ch O [1])%R in
  Wkv.ch O (Engine.wkv_out [0] [1] [3] [2] [1] [0])%R
  = ((A + E * Wkv.ch O [3]) / (B + E))%R
  /\ let '(aa', bb', pp') :=
       (Engine.wkv_next [-1] [1] [3] [2] [1] [0])%R in
     (Wkv.ch O aa' * exp (Wkv.ch O pp')
      = exp (Wkv.ch O [-1]) * A + exp (Wkv.ch O [1]) * Wkv.ch O [3])%R
     /\ (Wkv.ch O bb' * exp (Wkv.ch O pp')
         = exp (Wkv.ch O [-1]) * B + exp (Wkv.ch O [1]))%R.
Proof.
  apply (@X1_wkv_state_stands_for_sums 1 O [-1] [0] [1] [3] [2] [1] [0])%R.
  - repeat apply Forall_cons; try reflexivity. apply Forall_nil.
  - lia.
Defined.


Section WkvBounds.

Import Tensor Engine Wkv.
Local Open Scope R_scope.

Lemma exp_le_1 (x : R) : x <= 0 -> exp x <= 1.
Proof.
  intros H. destruct (Req_dec x 0) as [-> | Hne].
  - rewrite exp_0. lra.
  - left. rewrite <- exp_0. apply exp_increasing. lra.
Qed.

Lemma le_div (lo n d : R) : 0 < d -> lo * d <= n -> lo <= n / d.
Proof.
  intros Hd H. apply (Rmult_le_reg_r d); [exact Hd|].
  unfold Rdiv. rewrite Rmult_assoc, Rinv_l by lra. lra.
Qed.

Lemma div_le (hi n d : R) : 0 < d -> n <= hi * d -> n / d <= hi.
Proof.
  intros Hd H. apply (Rmult_le_reg_r d); [exact Hd|].
  unfold Rdiv. rewrite Rmult_assoc, Rinv_l by lra. lra.
Qed.

(** One channel of the output step is a weighted average of the
    accumulated ratio and the current value. *)
Lemma out1_between (u k v a b p lo hi : R) :
  0 <= b -> lo * b <= a <= hi * b -> lo <= v <= hi ->
  lo <= out1 u k v a b p <= hi.
Proof.
  intros Hb Ha Hv. unfold out1. cbv zeta.
  set (q := Rmax p (u + k)).
  pose proof (exp_pos (p - q)) as H1.
  pose proof (exp_pos (u + k - q)) as H2.
  set (e1 := exp (p - q)) in *. set (e2 := exp (u + k - q)) in *.
  assert (Hd : 0 < e1 * b + e2) by nra.
  split; [apply le_div | apply div_le]; try exact Hd; nra.
Qed.

Lemma next1_between (w k v a b p lo hi : R) :
  0 <= b -> lo * b <= a <= hi * b -> lo <= v <= hi ->
  let '(a', b', p') := next1 w k v a b p in
  0 < b' /\ lo * b' <= a' <= hi * b'.
Proof.
  intros Hb Ha Hv. unfold next1. cbv zeta.
  set (q := Rmax (w + p) k).
  pose proof (exp_pos (w + p - q)) as H1.
  pose proof (exp_pos (k - q)) as H2.
  set (e1 := exp (w + p - q)) in *. set (e2 := exp (k - q)) in *.
  repeat split; nra.
Qed.

(** No exponential of the state advance exceeds 1. *)
Lemma next1_bounded (w k v a b p : R) :
  0 <= b ->
  let '(a', b', p') := next1 w k v a b p in
  0 < b' <= b + 1 /\ w + p <= p' /\ k <= p'.
Proof.
  intros Hb. unfold next1. cbv zeta.
  set (q := Rmax (w + p) k).
  pose proof (Rmax_l (w + p) k) as Ml. pose proof (Rmax_r (w + p) k) as Mr.
  fold q in Ml, Mr.
  pose proof (exp_pos (w + p - q)) as H1.
  pose proof (exp_pos (k - q)) as H2.
  assert (L1 : exp (w + p - q) <= 1) by (apply exp_le_1; lra).
  assert (L2 : exp (k - q) <= 1) by (apply exp_le_1; lra).
  set (e1 := exp (w + p - q)) in *. set (e2 := exp (k - q)) in *.
  repeat split; try assumption; nra.
Qed.

Variables (C j : nat) (w u : vec).
Hypothesis Hj : (j < C)%nat.
Hypothesis Hw : length w = C.
Hypothesis Hu : length u = C.

Lemma channels7 (k v aa bb pp : vec) :
  length k = C -> length v = C -> channels C [aa; bb; pp] ->
  channels C [u; k; v; aa; bb; pp] /\ channels C [w; k; v; aa; bb; pp].
Proof.
  intros Hk Hv H. unfold channels in *.
  repeat (apply Forall_cons_iff in H as [? H]).
  split; repeat apply Forall_cons; assumption.
Qed.

(** Along the rows: every output lies between the bounds of the values,
    and the state keeps the invariant. *)
Lemma wkv_rows_between (lo hi : R) (k : mat) :
  forall (v : mat) (aa bb pp : vec),
    Forall (fun r => length r = C) k ->
    Forall (fun r => length r = C) v ->
    channels C [aa; bb; pp] ->
    0 <= ch j bb -> lo * ch j bb <= ch j aa <= hi * ch j bb ->
    Forall (fun row => lo <= ch j row <= hi) v ->
    let '(outs, aa', bb', pp') := wkv_rows w u k v aa bb pp in
    Forall (fun row => lo <= ch j row <= hi) outs
    /\ channels C [aa'; bb'; pp']
    /\ 0 <= ch j bb' /\ lo * ch j bb' <= ch j aa' <= hi * ch j bb'.
Proof.
  induction k as [|kk k IH]; intros v aa bb pp Fk Fv Hs Hb Ha Hv.
  - cbn [wkv_rows]. auto.
  - destruct v as [|vv v]; [cbn [wkv_rows]; auto|].
    cbn [wkv_rows].
    apply Forall_cons_iff in Fk as [Lk Fk].
    apply Forall_cons_iff in Fv as [Lv Fv].
    apply Forall_cons_iff in Hv as [Hvv Hv].
    destruct (@channels7 _ _ _ _ _ Lk Lv Hs) as [Ho Hn].
    pose proof (ch_wkv_out Ho Hj) as Eo.
    pose proof (ch_wkv_next Hn Hj) as En.
    destruct (wkv_next w kk vv aa bb pp) as [[aa1 bb1] pp1].
    destruct En as [En Hs1].
    pose proof (@next1_between (ch j w) (ch j kk) (ch j vv) (ch j aa)
                  (ch j bb) (ch j pp) lo hi Hb Ha Hvv) as Hnb.
    rewrite <- En in Hnb. destruct Hnb as [Hb1 Ha1].
    specialize (IH v aa1 bb1 pp1 Fk Fv Hs1 (Rlt_le _ _ Hb1) Ha1 Hv).
    destruct (wkv_rows w u k v aa1 bb1 pp1) as [[[outs a2] b2] p2].
    destruct IH as (Fo & Hs2 & Hb2 & Ha2).
    repeat split; try assumption; try (apply Ha2).
    apply Forall_cons; [|exact Fo].
    rewrite Eo. apply out1_between; assumption.
Qed.

(** Along the rows: the denominator accumulator stays positive and grows
    by at most one per row. *)
Lemma wkv_rows_bounded (k : mat) :
  forall (v : mat) (aa bb pp : vec),
    Forall (fun r => length r = C) k ->
    Forall (fun r => length r = C) v ->
    length k = length v ->
    channels C [aa; bb; pp] ->
    0 <= ch j bb ->
    let '(outs, aa', bb', pp') := wkv_rows w u k v aa bb pp in
    channels C [aa'; bb'; pp']
    /\ 0 <= ch j bb' <= ch j bb + INR (length k)
    /\ (0 < ch j bb \/ k <> [] -> 0 < ch j bb').
Proof.
  induction k as [|kk k IH]; intros v aa bb pp Fk Fv Hl Hs Hb.
  - cbn [wkv_rows length INR]. repeat split; try assumption; try lra.
    intros [H | H]; [exact H | congruence].
  - destruct v as [|vv v]; [discriminate|].
    cbn [wkv_rows].
    apply Forall_cons_iff in Fk as [Lk Fk].
    apply Forall_cons_iff in Fv as [Lv Fv].
    destruct (@channels7 _ _ _ _ _ Lk Lv Hs) as [Ho Hn].
    pose proof (ch_wkv_next Hn Hj) as En.
    destruct (wkv_next w kk vv aa bb pp) as [[aa1 bb1] pp1].
    destruct En as [En Hs1].
    pose proof (@next1_bounded (ch j w) (ch j kk) (ch j vv) (ch j aa)
                  (ch j bb) (ch j pp) Hb) as Hnb.
    rewrite <- En in Hnb. destruct Hnb as [[Hb1 Hb1'] _].
    assert (Hl' : length k = length v) by (simpl in Hl; lia).
    specialize (IH v aa1 bb1 pp1 Fk Fv Hl' Hs1 (Rlt_le _ _ Hb1)).
    destruct (wkv_rows w u k v aa1 bb1 pp1) as [[[outs a2] b2] p2].
    destruct IH as (Hs2 & [Hb2 Hb2'] & Hpos).
    change (length (kk :: k)) with (S (length k)). rewrite S_INR.
    repeat split; try assumption; try lra.
Qed.

End WkvBounds.


(** X2 -- the loop of [att_seq] (lines 525-540), channel by channel: when
    the state satisfies [0 <= bb] and [lo * bb <= aa <= hi * bb] (as the
    fresh state of zeros does for any bounds) and every value [v[t]] lies
    in [[lo, hi]], every row the loop writes into its buffer lies in
    [[lo, hi]] and the state it leaves satisfies the same condition: the
    attention output before gating is a weighted average of the values
    seen so far, and its denominator is never zero. *)
Theorem X2_wkv_output_is_weighted_average (C j : nat) (lo hi : R)
  (t_decay t_first : Tensor.vec) (k v buf : Tensor.mat)
  (aa bb pp : Tensor.vec) :
  (j < C)%nat ->
  Wkv.channels C [t_decay; t_first; aa; bb; pp] ->
  Forall (fun r => length r = C) k ->
  Forall (fun r => length r = C) v ->
  length k = length buf -> length v = length buf ->
  (0 <= Wkv.ch j bb)%R ->
  (lo * Wkv.ch j bb <= Wkv.ch j aa <= hi * Wkv.ch j bb)%R ->
  Forall (fun row => (lo <= Wkv.ch j row <= hi)%R) v ->
  let '(outs, aa', bb', pp') :=
    Engine.wkv_loop t_decay t_first k v (seq 0 (length buf))
      (buf, aa, bb, pp) in
  Forall (fun row => (lo <= Wkv.ch j row <= hi)%R) outs
  /\ (0 <= Wkv.ch j bb')%R
  /\ (lo * Wkv.ch j bb' <= Wkv.ch j aa' <= hi * Wkv.ch j bb')%R.
Proof.
  intros Hj Hs Fk Fv Lk Lv Hb Ha Hv.
  rewrite (wkv_loop_rows t_decay t_first k v buf aa bb pp Lk Lv).
  unfold Wkv.channels in Hs.
  apply Forall_cons_iff in Hs as [Hw Hs].
  apply Forall_cons_iff in Hs as [Hu Hs].
  pose proof (@wkv_rows_between C j t_decay t_first Hj Hw Hu lo hi
                k v aa bb pp Fk Fv Hs Hb Ha Hv) as H.
  destruct (Engine.wkv_rows t_decay t_first k v aa bb pp)
    as [[[outs a] b] p].
  destruct H as (H1 & _ & H2 & H3). auto.
Qed.

Lemma X2_wkv_output_is_weighted_average_witness :
  let '(outs, aa', bb', pp') :=
    (Engine.wkv_loop [-1] [0] [[0]; [1]] [[2]; [3]] (seq 0 2)
       ([[0]; [0]], [0], [0], [- 10 ^ 30]))%R in
  Forall (fun row => (2 <= Wkv.ch 0 row <= 3)%R) outs
  /\ (0 <= Wkv.ch 0 bb')%R
  /\ (2 * Wkv.ch 0 bb' <= Wkv.ch 0 aa' <= 3 * Wkv.ch 0 bb')%R.
Proof.
  apply (@X2_wkv_output_is_weighted_average 1 0 2 3 [-1] [0]
           [[0]; [1]] [[2]; [3]] [[0]; [0]] [0] [0] [- 10 ^ 30])%R.
  - lia.
  - repeat apply Forall_cons; try reflexivity. apply Forall_nil.
  - repeat apply Forall_cons; try reflexivity. apply Forall_nil.
  - repeat apply Forall_cons; try reflexivity. apply Forall_nil.
  - reflexivity.
  - reflexivity.
  - unfold Wkv.ch; simpl; lra.
  - unfold Wkv.ch; simpl; lra.
  - repeat apply Forall_cons; try (unfold Wkv.ch; simpl; lra).
    apply Forall_nil.
Defined.

(** X3 -- the same loop never lets its accumulators run away: every
    exponential of the state advance has a non-positive argument, so
    that, for a state with [0 <= bb], the denominator accumulator of the
    state it leaves is at least 0, at most [bb] plus the number of rows,
    and positive once a row has been consumed. *)
Theorem X3_wkv_denominator_is_bounded (C j : nat)
  (t_decay t_first : Tensor.vec) (k v buf : Tensor.mat)
  (aa bb pp : Tensor.vec) :
  (j < C)%nat ->
  Wkv.channels C [t_decay; t_first; aa; bb; pp] ->
  Forall (fun r => length r = C) k ->
  Forall (fun r => length r = C) v ->
  length k = length buf -> length v = length buf ->
  (0 <= Wkv.ch j bb)%R ->
  let '(outs, aa', bb', pp') :=
    Engine.wkv_loop t_decay t_first k v (seq 0 (length buf))
      (buf, aa, bb, pp) in
  (0 <= Wkv.ch j bb' <= Wkv.ch j bb + INR (length buf))%R
  /\ (buf <> [] -> 0 < Wkv.ch j bb')%R.
Proof.
  intros Hj Hs Fk Fv Lk Lv Hb.
  rewrite (wkv_loop_rows t_decay t_first k v buf aa bb pp Lk Lv).
  unfold Wkv.channels in Hs.
  apply Forall_cons_iff in Hs as [Hw Hs].
  apply Forall_cons_iff in Hs as [Hu Hs].
  assert (Lkv : length k = length v) by congruence.
  pose proof (@wkv_rows_bounded C j t_decay t_first Hj Hw Hu
                k v aa bb pp Fk Fv Lkv Hs Hb) as H.
  destruct (Engine.wkv_rows t_decay t_first k v aa bb pp)
    as [[[outs a] b] p].
  destruct H as (_ & H2 & H3). rewrite <- Lk. split; [exact H2|].
  intros Hne. apply H3. right. intros ->. destruct buf; [congruence|].
  discriminate.
Qed.

Lemma X3_wkv_denominator_is_bounded_witness :
  let '(outs, aa', bb', pp') :=
    (Engine.wkv_loop [-1] [0] [[0]; [1]] [[2]; [3]] (seq 0 2)
       ([[0]; [0]], [0], [0], [- 10 ^ 30]))%R in
  (0 <= Wkv.ch 0 bb' <= Wkv.ch 0 [0%R] + INR 2)%R
  /\ ([[0]; [0]]%R <> [] -> 0 < Wkv.ch 0 bb')%R.
Proof.
  apply (@X3_wkv_denominator_is_bounded 1 0 [-1] [0]
           [[0]; [1]] [[2]; [3]] [[0]; [0]] [0] [0] [- 10 ^ 30])%R.
  - lia.
  - repeat apply Forall_cons; try reflexivity. apply Forall_nil.
  - repeat apply Forall_cons; try reflexivity. apply Forall_nil.
  - repeat apply Forall_cons; try reflexivity. apply Forall_nil.
  - reflexivity.
  - reflexivity.
  - unfold Wkv.ch; simpl; lra.
Defined.


(* ================================================================== *)
(** * Further properties: [forward]                                     *)
(* ================================================================== *)

Section ForwardRows.

Import Py Tensor Quant Engine.
Local Open Scope nat_scope.

Variable eps : R.
Variable self : RWKV.
Hypothesis Hok : model_ok self = true.

Local Abbreviation step := (stack_one eps self 0 (blocks (w self))).
Local Abbreviation emb := (emb_weight (w self)).

Lemma map_accum_app {X Y S} (f : X -> S -> Y * S) (xs ys : list X) :
  forall s,
    map_accum f (xs ++ ys) s
    = let '(a, s1) := map_accum f xs s in
      let '(b, s2) := map_accum f ys s1 in
      (a ++ b, s2).
Proof.
  induction xs as [|x xs IH]; intros s.
  - cbn [app map_accum]. destruct (map_accum f ys s). reflexivity.
  - cbn [app map_accum]. destruct (f x s) as [y s1]. rewrite IH.
    destruct (map_accum f xs s1) as [a s2].
    destruct (map_accum f ys s2) as [b s3]. reflexivity.
Qed.

Lemma length_rows_state (x : mat) :
  forall cs, length (snd (map_accum step x cs)) = length cs.
Proof.
  induction x as [|r x IH]; intros cs; [reflexivity|].
  cbn [map_accum].
  pose proof (length_stack_one eps self (blocks (w self)) 0 r cs) as H1.
  destruct (step r cs) as [y cs1]. cbn [snd] in H1.
  specialize (IH cs1). destruct (map_accum step x cs1) as [ys cs2].
  cbn [snd] in *. congruence.
Qed.

Lemma length_flatten (cs : list cell) : length (flatten cs) = length cs * 5.
Proof.
  induction cs as [|[[[[s0 s1] s2] s3] s4] cs IH]; [reflexivity|].
  change (flatten ((s0, s1, s2, s3, s4) :: cs))
    with ([s0; s1; s2; s3; s4] ++ flatten cs).
  rewrite length_app, IH. simpl. lia.
Qed.

Lemma lookup_rows_Forall2 (tokens : list Z) (x : mat) :
  Forall2 (fun t r => getitem emb t = Ok r) tokens x ->
  lookup_rows emb tokens = Ok x.
Proof.
  induction 1 as [|t r tokens x Hr _ IH]; [reflexivity|].
  cbn [lookup_rows]. rewrite Hr, IH. reflexivity.
Qed.

Lemma Forall2_rows_length (tokens : list Z) (x : mat) :
  Forall2 (fun t r => getitem emb t = Ok r) tokens x ->
  length x = length tokens.
Proof. intros H. symmetry. apply (Forall2_length H). Qed.

(** [forward] as the layer stack applied along the embedded rows, for
    both code paths and both values of [full_output]. *)
Lemma forward_rows (tokens : list Z) (x : mat) (cs : list cell)
  (post : list vec) (full_output : bool) :
  tokens <> [] ->
  Forall2 (fun t r => getitem emb t = Ok r) tokens x ->
  length cs = n_layer self ->
  forward eps self tokens (Some (flatten cs ++ post)) full_output
  = let '(y, cs') := map_accum step x cs in
    Ok (head eps self
          (if (1 <? length tokens) then Seq y else One (last_row y))
          full_output,
        flatten cs' ++ post).
Proof.
  intros Hne HF Hlen.
  destruct tokens as [|t [|t' tokens]]; [congruence| |].
  - inversion HF as [|? r ? x' Hr HF']; subst. inversion HF'; subst.
    rewrite (@forward_one_ok eps self t r cs post full_output Hok Hr Hlen).
    cbn [map_accum length Nat.ltb Nat.leb].
    destruct (step r cs) as [y cs']. reflexivity.
  - assert (Hlt : 1 < length (t :: t' :: tokens)) by (simpl; lia).
    assert (Hx : x <> []) by (inversion HF; discriminate).
    rewrite (@forward_seq_ok eps self _ x cs post full_output Hok Hlt
               (lookup_rows_Forall2 HF) Hx Hlen).
    rewrite stack_interchange.
    apply Nat.ltb_lt in Hlt. rewrite Hlt. reflexivity.
Qed.

Lemma head_last (y : mat) (full_output : bool) (n : nat) :
  y <> [] ->
  head eps self (if (1 <? n) then Seq y else One (last_row y)) false
  = head eps self (One (last_row y)) false.
Proof. intros Hy. destruct (1 <? n); reflexivity. Qed.

End ForwardRows.


Section ForwardComposition.

Import Py Tensor Quant Engine.
Local Open Scope nat_scope.

Variable eps : R.
Variable self : RWKV.
Hypothesis Hok : model_ok self = true.

Local Abbreviation step := (stack_one eps self 0 (blocks (w self))).
Local Abbreviation emb := (emb_weight (w self)).

Lemma tokens_ok_app (a b : list Z) :
  tokens_ok self (a ++ b) = true ->
  tokens_ok self a = true /\ tokens_ok self b = true.
Proof.
  unfold tokens_ok. rewrite forallb_app. apply andb_prop.
Qed.

Lemma last_row_app (a b : mat) :
  b <> [] -> last_row (a ++ b) = last_row b.
Proof.
  intros Hb. unfold last_row. induction a as [|r a IH]; [reflexivity|].
  cbn [app]. destruct (a ++ b) eqn:E; [|exact IH].
  apply app_eq_nil in E as [_ ->]. congruence.
Qed.

(** Two calls on the parts of a token list, from cells. *)
Lemma forward_chunks (t1 t2 : list Z) (cs : list cell) (post : list vec) :
  t1 <> [] -> t2 <> [] ->
  tokens_ok self (t1 ++ t2) = true ->
  length cs = n_layer self ->
  exists out1 state1 out state',
    forward eps self t1 (Some (flatten cs ++ post)) false
    = Ok (out1, state1)
    /\ forward eps self t2 (Some state1) false = Ok (out, state')
    /\ forward eps self (t1 ++ t2) (Some (flatten cs ++ post)) false
       = Ok (out, state').
Proof.
  intros H1 H2 Htok Hlen.
  destruct (tokens_ok_app _ _ Htok) as [Ht1 Ht2].
  destruct (lookup_rows_ok self t1 Ht1) as (x1 & _ & F1).
  destruct (lookup_rows_ok self t2 Ht2) as (x2 & _ & F2).
  assert (F : Forall2 (fun t r => getitem emb t = Ok r) (t1 ++ t2)
                (x1 ++ x2)) by (apply Forall2_app; assumption).
  assert (H12 : t1 ++ t2 <> []) by (destruct t1; [congruence|discriminate]).
  assert (Hx2 : x2 <> []).
  { destruct t2; [congruence|]. inversion F2. discriminate. }
  rewrite (@forward_rows eps self Hok t1 x1 cs post false H1 F1 Hlen).
  rewrite (@forward_rows eps self Hok (t1 ++ t2) (x1 ++ x2) cs post false
             H12 F Hlen).
  rewrite map_accum_app.
  pose proof (length_rows_state eps self x1 cs) as Hl1.
  destruct (map_accum step x1 cs) as [y1 cs1]. cbn [snd] in Hl1.
  assert (Hlen1 : length cs1 = n_layer self) by congruence.
  eexists. exists (flatten cs1 ++ post).
  rewrite (@forward_rows eps self Hok t2 x2 cs1 post false H2 F2 Hlen1).
  pose proof (map_accum_nonempty step cs1 Hx2) as Hy2.
  destruct (map_accum step x2 cs1) as [y2 cs2]. cbn [fst] in Hy2.
  do 2 eexists. split; [reflexivity|]. split; [reflexivity|].
  f_equal. f_equal.
  assert (Hy : y1 ++ y2 <> [])
    by (destruct y1; [exact Hy2 | discriminate]).
  rewrite (@head_last eps self (y1 ++ y2) false _ Hy).
  rewrite (@head_last eps self y2 false _ Hy2).
  rewrite last_row_app by exact Hy2. reflexivity.
Qed.

(** The scores of one row through the final normalization and the
    output projection. *)
Lemma head_seq_rows (y : mat) :
  head eps self (Seq y) true
  = Seq (map (fun r => final_scores (head eps self (One r) false)) y).
Proof.
  unfold head. cbn [negb].
  destruct (head_weight (w self)) as [hw|q]; cbn [final_scores].
  - unfold matmat. rewrite map_map. reflexivity.
  - unfold mm8_seq, mm8_one, matmat. rewrite map_map. reflexivity.
Qed.

Lemma firstn_Forall2 {X Y} (P : X -> Y -> Prop) (n : nat) (a : list X)
  (b : list Y) :
  Forall2 P a b -> Forall2 P (firstn n a) (firstn n b).
Proof.
  intros H. revert n. induction H; intros [|n]; simpl; auto.
Qed.

Lemma last_firstn_nth {X} (l : list X) (t : nat) (d : X) :
  t < length l -> last (firstn (S t) l) d = nth t l d.
Proof.
  revert t. induction l as [|a l IH]; intros [|t] H; simpl in *;
    try lia.
  - destruct l; reflexivity.
  - rewrite <- (IH t) by lia.
    destruct l as [|b l]; [simpl in H; lia|]. reflexivity.
Qed.

(** A sequence call with [full_output] against the call on a prefix. *)
Lemma forward_prefix (tokens : list Z) (cs : list cell) (post : list vec)
  (t : nat) :
  1 < length tokens -> t < length tokens ->
  tokens_ok self tokens = true ->
  length cs = n_layer self ->
  exists rows state' state_t,
    forward eps self tokens (Some (flatten cs ++ post)) true
    = Ok (Seq rows, state')
    /\ length rows = length tokens
    /\ forward eps self (firstn (S t) tokens) (Some (flatten cs ++ post))
         false
       = Ok (One (nth t rows []), state_t).
Proof.
  intros Hlt Ht Htok Hlen.
  destruct (lookup_rows_ok self tokens Htok) as (x & _ & F).
  assert (Hne : tokens <> []) by (destruct tokens; [simpl in Hlt; lia|
                                                    discriminate]).
  rewrite (@forward_rows eps self Hok tokens x cs post true Hne F Hlen).
  apply Nat.ltb_lt in Hlt. rewrite Hlt.
  assert (Hp : firstn (S t) tokens <> [])
    by (destruct tokens; [congruence | discriminate]).
  rewrite (@forward_rows eps self Hok (firstn (S t) tokens) (firstn (S t) x)
             cs post false Hp (firstn_Forall2 (S t) F) Hlen).
  pose proof (Forall2_length F) as HL.
  replace (map_accum step x cs)
    with (map_accum step (firstn (S t) x ++ skipn (S t) x) cs)
    by (rewrite firstn_skipn; reflexivity).
  rewrite map_accum_app.
  pose proof (length_map_accum step (firstn (S t) x) cs) as Hl1.
  destruct (map_accum step (firstn (S t) x) cs) as [y1 cs1].
  cbn [fst] in Hl1.
  assert (Hy1 : y1 <> []).
  { intros ->. symmetry in Hl1. rewrite length_firstn in Hl1.
    apply Nat.ltb_lt in Hlt. cbn [length] in Hl1. lia. }
  pose proof (length_map_accum step (skipn (S t) x) cs1) as Hl2.
  destruct (map_accum step (skipn (S t) x) cs1) as [y2 cs2].
  cbn [fst] in Hl2.
  rewrite head_seq_rows.
  rewrite (@head_last eps self y1 false _ Hy1).
  do 3 eexists. split; [reflexivity|]. split.
  - rewrite length_map, length_app, Hl1, Hl2, <- length_app.
    rewrite firstn_skipn. congruence.
  - f_equal. f_equal.
    assert (Hlen1 : length y1 = S t).
    { rewrite Hl1, length_firstn. lia. }
    set (G := fun r : vec => final_scores (head eps self (One r) false)).
    rewrite (nth_indep _ [] (G []))
      by (rewrite length_map, length_app; lia).
    rewrite map_nth, app_nth1 by lia.
    rewrite (head_one eps self (last_row y1) false).
    unfold G. do 4 f_equal. unfold last_row.
    rewrite <- (firstn_all y1) at 1. rewrite Hlen1.
    apply last_firstn_nth. lia.
Qed.

Lemma getitem_raises {X} (l : list X) (i : Z) (e : exn) :
  getitem l i = Raise e -> e = IndexError.
Proof.
  unfold getitem. cbv zeta.
  destruct (_ <? 0)%Z; [congruence|].
  destruct (nth_error _ _); congruence.
Qed.

Lemma lookup_rows_fails (tokens : list Z) :
  tokens_ok self tokens = false ->
  lookup_rows emb tokens = Raise IndexError.
Proof.
  induction tokens as [|t tokens IH]; [discriminate|].
  unfold tokens_ok. cbn [forallb lookup_rows]. intros H.
  destruct (getitem emb t) as [r|e] eqn:Er.
  - cbn [is_ok andb] in H. fold (tokens_ok self tokens) in H.
    cbn [bind]. rewrite (IH H). reflexivity.
  - apply getitem_raises in Er. subst e. reflexivity.
Qed.

End ForwardComposition.









(* ================================================================== *)
(** * Further properties: the strategy planner                          *)
(* ================================================================== *)

(** X7 -- [is_compatible] is symmetric and transitive: it does not
    matter which of two strategies is asked, and strategies compatible
    with a common one are compatible with each other. *)
Theorem X7_is_compatible_is_an_equivalence (S T U : Strategy.RWKVStrategy) :
  Strategy.is_compatible S T = Strategy.is_compatible T S
  /\ (Strategy.is_compatible S T = true ->
      Strategy.is_compatible T U = true ->
      Strategy.is_compatible S U = true).
Proof.
  split.
  - destruct (Strategy.is_compatible S T) eqn:E1;
      destruct (Strategy.is_compatible T S) eqn:E2; try reflexivity.
    + apply is_compatible_iff in E1 as [A B].
      assert (Strategy.is_compatible T S = true) as E
        by (apply is_compatible_iff; split; congruence).
      congruence.
    + apply is_compatible_iff in E2 as [A B].
      assert (Strategy.is_compatible S T = true) as E
        by (apply is_compatible_iff; split; congruence).
      congruence.
  - intros H1 H2.
    apply is_compatible_iff in H1 as [A1 B1].
    apply is_compatible_iff in H2 as [A2 B2].
    apply is_compatible_iff. split; congruence.
Qed.

Lemma X7_is_compatible_is_an_equivalence_witness :
  Strategy.is_compatible Strategy.strategy_on_cpu Strategy.strategy_on_cuda
  = Strategy.is_compatible Strategy.strategy_on_cuda Strategy.strategy_on_cpu
  /\ Strategy.is_compatible Strategy.strategy_on_cpu Strategy.strategy_on_cpu
     = true.
Proof.
  destruct (X7_is_compatible_is_an_equivalence Strategy.strategy_on_cpu
              Strategy.strategy_on_cuda Strategy.strategy_on_cpu)
    as [H1 H2].
  split; [exact H1|]. apply H2; reflexivity.
Defined.



Section PlannerResult.

Import Py Strategy Planned.
Local Open Scope string_scope.
Local Open Scope Z_scope.

Lemma getitem_0 {X} (l : list X) (a : X) :
  getitem l 0 = Ok a -> exists l', l = a :: l'.
Proof.
  destruct l as [|b l]; [discriminate|].
  intros H. change (getitem (b :: l) 0) with (Ok b) in H.
  injection H as ->. eauto.
Qed.

Lemma parse_dtype_ok (si si' : seg) :
  parse_dtype si = Ok si' -> words si' = words si /\ parsed si'.
Proof.
  unfold parse_dtype. intros H.
  apply bind_ok in H as (si1 & _ & H).
  assert (G : forall a x : dtype,
             float_dtype a = true -> x = a \/ x = uint8 ->
             Ok (mkSeg (words si) (Some [a; x])) = Ok si' ->
             words si' = words si /\ parsed si').
  { intros a x Ha Hx E. injection E as <-. split; [reflexivity|].
    exists a, x. auto. }
  destruct (startswith si1 "fp32");
    [|destruct (startswith si1 "fp16");
      [|destruct (startswith si1 "bf16")]];
    destruct (endswith si1 "i8");
    try change (getitem [float32] 0) with (Ok float32) in H;
    try change (getitem [float16] 0) with (Ok float16) in H;
    try change (getitem [bfloat16] 0) with (Ok bfloat16) in H;
    cbn [bind app] in H;
    try (refine (G _ _ _ _ H); [reflexivity | auto]);
    try discriminate.
  destruct (getitem (list_ascii_of_string si1) 0); discriminate.
Qed.

Lemma map_words_setitem (l : list seg) (i : nat) (si si' : seg) :
  nth_error l i = Some si -> words si' = words si ->
  map words (setitem l i si') = map words l.
Proof.
  revert i. induction l as [|a l IH]; intros [|i] H Hw; simpl in *;
    try discriminate.
  - injection H as ->. rewrite Hw. reflexivity.
  - f_equal. apply IH; assumption.
Qed.

Lemma getitem_nth_error {X} (l : list X) (i : nat) (a : X) :
  getitem l (Z.of_nat i) = Ok a -> nth_error l i = Some a.
Proof.
  rewrite getitem_nat. destruct (nth_error l i); congruence.
Qed.

(** One turn of the first loop: segment [i] is parsed, the other
    segments and the plan entries other than [i] are left alone, and a
    [break] means that the counts cover every layer. *)
Lemma alloc_body_ok (ta : Z) (i : nat) (st st' : locals) (brk : bool) :
  alloc_body ta i st = Ok (st', brk) ->
  map words (l_s st') = map words (l_s st)
  /\ length (l_s st') = length (l_s st)
  /\ length (l_plan st') = length (l_plan st)
  /\ (exists si, nth_error (l_s st') i = Some si /\ parsed si)
  /\ (forall k, k <> i -> nth_error (l_s st') k = nth_error (l_s st) k)
  /\ (forall k, k <> i -> nth_error (l_plan st') k = nth_error (l_plan st) k)
  /\ (brk = true -> ta <= l_allocated st').
Proof.
  unfold alloc_body. intros H.
  apply bind_ok in H as (si & Hsi & H).
  apply bind_ok in H as (si' & Hp & H).
  apply getitem_nth_error in Hsi.
  destruct (@parse_dtype_ok _ _ Hp) as [Hw Hparsed].
  assert (Hi : (i < length (l_s st))%nat)
    by (apply nth_error_Some; congruence).
  assert (A : map words (setitem (l_s st) i si') = map words (l_s st))
    by (apply (@map_words_setitem _ _ _ _ Hsi Hw)).
  assert (B : nth_error (setitem (l_s st) i si') i = Some si')
    by (apply nth_error_setitem_eq; exact Hi).
  assert (B' : forall k, k <> i ->
                 nth_error (setitem (l_s st) i si') k = nth_error (l_s st) k)
    by (intros k Hk; apply nth_error_setitem_neq; congruence).
  assert (P' : forall p k, k <> i ->
                 nth_error (setitem (l_plan st) i p) k
                 = nth_error (l_plan st) k)
    by (intros p k Hk; apply nth_error_setitem_neq; congruence).
  destruct (2 <? Z.of_nat (length (words si'))).
  - apply bind_ok in H as (ss & _ & H).
    destruct (negb (startswith ss "*")); [discriminate|].
    apply bind_ok in H as ([p stream_i'] & _ & H).
    destruct (l_allocated st + p >=? ta) eqn:Hge;
      injection H as <- <-; cbn [l_s l_plan l_allocated];
      rewrite ?length_setitem;
      repeat split; try assumption; try (eexists; split; eassumption);
      try (apply P'); try discriminate;
      try (intros _; apply Z.geb_le in Hge; lia).
  - injection H as <- <-. cbn [l_s l_plan l_allocated].
    rewrite ?length_setitem.
    repeat split; try assumption; try (eexists; split; eassumption);
      try discriminate.
Qed.

(** The first loop from segment [i0] on: the segments up to some [b] are
    parsed; when the loop stopped before the last segment the counts
    cover every layer and the plan entries from [b] on are untouched. *)
Lemma alloc_loop_ok (ta : Z) (m : nat) :
  forall (i0 : nat) (st st' : locals),
    alloc_loop ta (seq i0 m) st = Ok st' ->
    map words (l_s st') = map words (l_s st)
    /\ length (l_s st') = length (l_s st)
    /\ length (l_plan st') = length (l_plan st)
    /\ (forall k, (k < i0)%nat ->
                  nth_error (l_s st') k = nth_error (l_s st) k)
    /\ exists b, (i0 <= b <= i0 + m)%nat
         /\ (forall k, (i0 <= k < b)%nat ->
               exists si, nth_error (l_s st') k = Some si /\ parsed si)
         /\ ((b < i0 + m)%nat ->
             (i0 < b)%nat /\ ta <= l_allocated st'
             /\ forall k, (b <= k)%nat ->
                  nth_error (l_plan st') k = nth_error (l_plan st) k).
Proof.
  induction m as [|m IH]; intros i0 st st' H.
  - injection H as <-. repeat split; try reflexivity.
    exists i0. repeat split; try lia.
  - cbn [seq alloc_loop] in H.
    apply bind_ok in H as ([st1 brk] & Hb & H).
    destruct (@alloc_body_ok _ _ _ _ _ Hb)
      as (W1 & L1 & P1 & (si & Hsi & Hps) & S1 & Q1 & Hbrk).
    destruct brk.
    + injection H as <-.
      repeat split; try assumption.
      * intros k Hk. apply S1. lia.
      * exists (S i0). split; [lia|]. split.
        -- intros k Hk. assert (k = i0) by lia. subst k. eauto.
        -- intros _. split; [lia|]. split; [auto|].
           intros k Hk. apply Q1. lia.
    + destruct (IH (S i0) st1 st' H)
        as (W2 & L2 & P2 & S2 & b & Hb2 & Hpar & Hstop).
      repeat split; try congruence.
      * intros k Hk. rewrite S2 by lia. apply S1. lia.
      * exists b. split; [lia|]. split.
        -- intros k Hk. destruct (Nat.eq_dec k i0) as [->|Hne].
           ++ rewrite S2 by lia. eauto.
           ++ apply Hpar. lia.
        -- intros Hlt. destruct Hstop as (Hb3 & Hal & Hpl); [lia|].
           split; [lia|]. split; [exact Hal|].
           intros k Hk. rewrite Hpl by exact Hk. apply Q1. lia.
Qed.

End PlannerResult.


Section PlannerPlan.

Import Py Strategy Planned.
Local Open Scope string_scope.
Local Open Scope Z_scope.

Lemma share_loop_ok (ta : Z) (idx : list nat) :
  forall st st',
    share_loop ta idx st = Ok st' ->
    l_s st' = l_s st /\ l_stream_i st' = l_stream_i st
    /\ length (l_plan st') = length (l_plan st).
Proof.
  induction idx as [|i idx IH]; intros st st' H.
  - injection H as <-. auto.
  - cbn [share_loop] in H.
    apply bind_ok in H as (p & _ & H).
    destruct (p =? 0).
    + apply bind_ok in H as (q & _ & H).
      destruct (IH _ _ H) as (A & B & C). cbn [l_s l_stream_i l_plan] in *.
      rewrite length_setitem in C. auto.
    + apply (IH _ _ H).
Qed.

Lemma place_rest_length (ta : Z) (st : locals) (plan1 : list Z) (sc : Z) :
  place_rest ta st = Ok (plan1, sc) ->
  length plan1 = length (l_plan st).
Proof.
  unfold place_rest. intros H.
  destruct (l_stream_i st <? 0).
  - apply bind_ok in H as (st1 & H1 & H).
    assert (L : length (l_plan st1) = length (l_plan st)).
    { destruct ((l_free_slots st >? 0) && (ta >? l_allocated st)).
      - apply (share_loop_ok _ _ _ H1).
      - injection H1 as <-. reflexivity. }
    destruct (ta >? l_allocated st1).
    + apply bind_ok in H as (last & _ & H). injection H as <- _.
      rewrite length_setitem. exact L.
    + injection H as <- _. exact L.
  - destruct (ta >? l_allocated st).
    + apply bind_ok in H as (cur & _ & H). injection H as <- _.
      apply length_setitem.
    + injection H as <- _. reflexivity.
Qed.

(** Once the counts cover every layer nothing is added to the plan. *)
Lemma place_rest_covered (ta : Z) (st : locals) :
  ta <= l_allocated st -> place_rest ta st = Ok (l_plan st, 0).
Proof.
  intros H. unfold place_rest.
  assert (E : (ta >? l_allocated st) = false).
  { rewrite Z.gtb_ltb. apply Z.ltb_ge. exact H. }
  destruct (l_stream_i st <? 0).
  - rewrite E, andb_false_r. cbn [bind]. rewrite E. reflexivity.
  - rewrite E. reflexivity.
Qed.

(** The running totals of lines 137-143. *)
Lemma report_loop_ok (s : list seg) (si sc : Z) (m : nat) :
  forall (i : nat) (plan plan2 : list Z) (chunks c : string),
    report_loop s si sc (seq i m) plan chunks = Ok (plan2, c) ->
    length plan2 = length plan
    /\ (forall k, (k < i)%nat -> nth_error plan2 k = nth_error plan k)
    /\ (forall k, (i <= k < i + m)%nat ->
          exists p, nth_error plan k = Some p
            /\ nth_error plan2 k
               = Some (p + match k with
                           | O => 0
                           | S k' => nth k' plan2 0
                           end)).
Proof.
  induction m as [|m IH]; intros i plan plan2 chunks c H.
  - injection H as <- _. repeat split; try reflexivity. intros k Hk. lia.
  - cbn [seq report_loop] in H.
    apply bind_ok in H as (ss & _ & H).
    apply bind_ok in H as (dev & _ & H).
    apply bind_ok in H as (ty & _ & H).
    apply bind_ok in H as (p & Hp & H).
    apply bind_ok in H as (prev & Hprev & H).
    apply getitem_nth_error in Hp.
    assert (Hi : (i < length plan)%nat)
      by (apply nth_error_Some; congruence).
    destruct (IH _ _ _ _ _ H) as (L & Hlow & Hhigh).
    rewrite length_setitem in L.
    split; [exact L|]. split.
    + intros k Hk. rewrite Hlow by lia.
      apply nth_error_setitem_neq. lia.
    + intros k Hk. destruct (Nat.eq_dec k i) as [->|Hne].
      * exists p. split; [exact Hp|].
        rewrite Hlow by lia. rewrite nth_error_setitem_eq by exact Hi.
        f_equal. f_equal.
        destruct i as [|i'].
        -- injection Hprev as <-. reflexivity.
        -- replace (Z.of_nat (S i') - 1) with (Z.of_nat i') in Hprev by lia.
           apply getitem_nth_error in Hprev.
           assert (E : nth_error plan2 i' = Some prev).
           { rewrite Hlow by lia.
             rewrite nth_error_setitem_neq by lia. exact Hprev. }
           symmetry. apply (nth_error_nth _ _ _ E).
      * destruct (Hhigh k) as (q & Hq & Hq2); [lia|].
        rewrite nth_error_setitem_neq in Hq by lia. eauto.
Qed.

(** Entries of the plan that are 0 repeat the running total before
    them. *)
Lemma report_loop_flat (s : list seg) (si sc : Z) (plan plan2 : list Z)
  (chunks c : string) (b : nat) :
  report_loop s si sc (seq 0 (length plan)) plan chunks = Ok (plan2, c) ->
  (0 < b)%nat ->
  (forall k, (b <= k < length plan)%nat -> nth_error plan k = Some 0) ->
  forall k, (b <= k < length plan)%nat ->
            nth k plan2 0 = nth (b - 1) plan2 0.
Proof.
  intros H Hb Hz.
  destruct (@report_loop_ok _ _ _ _ _ _ _ _ _ H) as (_ & _ & Hhigh).
  intros k. induction k as [|k IH]; intros Hk; [lia|].
  destruct (Hhigh (S k)) as (p & Hp & Hp2); [lia|].
  rewrite Hz in Hp by lia. injection Hp as <-.
  rewrite (nth_error_nth _ _ _ Hp2).
  destruct (Nat.eq_dec (S k) b) as [E|E].
  - subst b. replace (S k - 1)%nat with k by lia. lia.
  - rewrite <- IH by lia. lia.
Qed.

(** The segment [find_slot] takes the slot of: the first one whose
    running total exceeds [n]. *)
Lemma find_slot_ok (s : list seg) (plan : list Z) (si sc n : Z) (m : nat) :
  forall (i0 : nat) (d : slot),
    find_slot s plan si sc n (seq i0 m) = Ok (Some d) ->
    exists i seg p,
      (i0 <= i < i0 + m)%nat
      /\ nth_error s i = Some seg /\ nth_error plan i = Some p /\ n < p
      /\ (forall k q, (i0 <= k < i)%nat -> nth_error plan k = Some q ->
                      q <= n)
      /\ getitem (words seg) 0 = Ok (device d)
      /\ seg1_at seg 0 = Ok (atype d) /\ seg1_at seg 1 = Ok (wtype d).
Proof.
  induction m as [|m IH]; intros i0 d H; [discriminate|].
  cbn [seq find_slot] in H.
  apply bind_ok in H as (p & Hp & H).
  apply getitem_nth_error in Hp.
  destruct (n <? p) eqn:Hlt.
  - apply bind_ok in H as (seg & Hseg & H).
    apply bind_ok in H as (dev & Hdev & H).
    apply bind_ok in H as (a & Ha & H).
    apply bind_ok in H as (w & Hw & H).
    injection H as <-. cbn [device atype wtype].
    apply getitem_nth_error in Hseg. apply Z.ltb_lt in Hlt.
    exists i0, seg, p. repeat split; try assumption; try lia.
  - destruct (IH _ _ H) as (i & seg & q & Hi & A & B & C & D & E).
    exists i, seg, q. repeat split; try assumption; try lia; try apply E.
    intros k r Hk Hr. destruct (Nat.eq_dec k i0) as [->|Hne].
    + rewrite Hp in Hr. injection Hr as <-. apply Z.ltb_ge in Hlt. lia.
    + apply (D k r); [lia | exact Hr].
Qed.

Lemma strategy_loop_ok (s : list seg) (plan : list Z) (si sc : Z)
  (ns : list nat) :
  forall (chunks c : string) (l : list (option slot)),
    strategy_loop s plan si sc ns chunks = Ok (l, c) ->
    Forall2 (fun n o =>
               exists d, o = Some d
                 /\ find_slot s plan si sc (Z.of_nat n)
                      (seq 0 (length s)) = Ok (Some d)) ns l.
Proof.
  induction ns as [|n ns IH]; intros chunks c l H.
  - injection H as <- _. constructor.
  - cbn [strategy_loop] in H.
    apply bind_ok in H as (o & Ho & H).
    apply bind_ok in H as (ch & Hch & H).
    apply bind_ok in H as ([l' c'] & Hl & H). injection H as <- _.
    constructor; [|apply (IH _ _ _ Hl)].
    destruct o as [d|]; [eauto | discriminate].
Qed.

Lemma parsed_types (seg : seg) :
  parsed seg ->
  exists a, float_dtype a = true /\ seg1_at seg 0 = Ok (TyD a)
            /\ (seg1_at seg 1 = Ok (TyD a) \/ seg1_at seg 1 = Ok (TyD uint8)).
Proof.
  intros (a & x & Ht & Ha & Hx). exists a. split; [exact Ha|].
  unfold seg1_at, seg1. rewrite Ht. cbn [bind].
  split; [reflexivity|].
  change (getitem [a; x] 1) with (Ok x). cbn [bind].
  destruct Hx as [-> | ->]; auto.
Qed.

End PlannerPlan.


Section PlannerTheorems.

Import Py Strategy Planned.
Local Open Scope string_scope.
Local Open Scope Z_scope.

Lemma device_of_words (l l0 : list seg) (i : nat) (seg : seg) (dev : string) :
  map words l = map words l0 ->
  nth_error l i = Some seg ->
  getitem (words seg) 0 = Ok dev ->
  In dev (flat_map (fun si => match words si with
                              | d :: _ => [d]
                              | [] => []
                              end) l0).
Proof.
  intros Hw Hn Hd.
  assert (E : nth_error (map words l0) i = Some (words seg)).
  { rewrite <- Hw. apply map_nth_error. exact Hn. }
  apply nth_error_In in E. apply in_map_iff in E as (s0 & Hs0 & Hin).
  apply in_flat_map. exists s0. split; [exact Hin|].
  rewrite Hs0. apply getitem_0 in Hd as (l' & ->). left. reflexivity.
Qed.

Lemma Forall2_In_r {X Y} (P : X -> Y -> Prop) (a : list X) (b : list Y)
  (y : Y) :
  Forall2 P a b -> In y b -> exists x, In x a /\ P x y.
Proof.
  induction 1 as [|x0 y0 a b Hxy _ IH]; intros Hin; [contradiction|].
  destruct Hin as [<- | Hin].
  - exists x0. split; [left; reflexivity | exact Hxy].
  - destruct (IH Hin) as (x & Hx & Hp). exists x. split; [right|]; auto.
Qed.

(** What [__init__] has established when it returns. *)
Lemma init_ok (s : string) (n : Z) (r : RWKVStrategy) :
  init s n = Ok r ->
  n_layer r = n /\ strategy_string r = strip s
  /\ length (strategy r) = Z.to_nat (n + 1)
  /\ length (plan r) = length (segments (strip s))
  /\ Forall (fun o => exists d, o = Some d
                        /\ In (device d) (devices s) /\ well_typed d)
            (strategy r).
Proof.
  unfold init. cbv zeta. intros H.
  set (s0 := segments (strip s)) in *.
  apply bind_ok in H as (st & Hst & H).
  apply bind_ok in H as ([plan1 sc] & Hpl & H).
  apply bind_ok in H as ([plan2 chunks] & Hrep & H).
  apply bind_ok in H as ([strat chunks'] & Hstr & H).
  injection H as <-. cbn [n_layer strategy_string strategy plan].
  destruct (@alloc_loop_ok (n + 1) (length s0) 0 _ _ Hst)
    as (W & Ls & Lp & _ & b & Hb & Hpar & Hstop).
  cbn [l_s l_plan] in W, Ls, Lp, Hstop. rewrite repeat_length in Lp.
  pose proof (@place_rest_length _ _ _ _ Hpl) as L1. rewrite Lp in L1.
  destruct (@report_loop_ok _ _ _ _ _ _ _ _ _ Hrep) as (L2 & _ & _).
  pose proof (@strategy_loop_ok _ _ _ _ _ _ _ _ Hstr) as F.
  repeat split; try reflexivity.
  - rewrite <- (Forall2_length F). apply length_seq.
  - congruence.
  - apply Forall_forall. intros o Ho.
    destruct (@Forall2_In_r _ _ _ _ _ o F Ho) as (k & _ & d & -> & Hf).
    destruct (@find_slot_ok _ _ _ _ _ _ _ _ Hf)
      as (i & seg & p & Hi & Hseg & Hp & Hlt & Hfirst & Hdev & Ha & Hw).
    exists d. split; [reflexivity|]. split.
    + apply (@device_of_words _ _ _ _ _ W Hseg Hdev).
    + assert (Hparsed : parsed seg).
      { destruct (Nat.lt_ge_cases i b) as [Hib | Hib].
        - destruct (Hpar i) as (seg' & Hs' & Hps); [lia|].
          rewrite Hseg in Hs'. injection Hs' as <-. exact Hps.
        - exfalso. rewrite Ls in Hi.
          destruct Hstop as (Hb0 & Hal & Hzero); [lia|].
          rewrite (@place_rest_covered _ _ Hal) in Hpl.
          injection Hpl as <- <-.
          assert (Hz : forall k, (b <= k < length (l_plan st))%nat ->
                                 nth_error (l_plan st) k = Some 0).
          { intros k1 Hk1. rewrite Hzero by lia.
            apply nth_error_repeat. lia. }
          rewrite <- Lp in Hrep.
          pose proof (@report_loop_flat _ _ _ _ _ _ _ _ Hrep Hb0 Hz i) as Hflat.
          assert (Hlt1 : (b - 1 < length plan2)%nat) by lia.
          apply nth_error_Some in Hlt1.
          destruct (nth_error plan2 (b - 1)) as [q|] eqn:Eq; [|congruence].
          pose proof (Hfirst (b - 1)%nat q ltac:(lia) Eq) as Hq.
          rewrite (nth_error_nth _ _ _ Hp) in Hflat.
          rewrite (nth_error_nth _ _ _ Eq) in Hflat.
          specialize (Hflat ltac:(lia)). lia. }
      destruct (@parsed_types _ Hparsed) as (a & Hfa & Ha0 & Ha1).
      exists a. rewrite Ha0 in Ha. injection Ha as <-.
      split; [reflexivity|]. split; [exact Hfa|].
      destruct Ha1 as [E | E]; rewrite E in Hw; injection Hw as <-; auto.
Qed.

End PlannerTheorems.

(** X8 -- whenever [RWKVStrategy(descriptor, n_layer)] returns, the
    strategy it built holds exactly [n_layer + 1] entries, none of them
    [None], each placed on a device named by a segment of the
    descriptor; it records [n_layer] and the stripped descriptor, and
    its plan has one running total per segment. *)
Theorem X8_planner_fills_every_layer (descriptor : string) (n_layer : Z)
  (r : Strategy.RWKVStrategy) :
  Strategy.init descriptor n_layer = Py.Ok r ->
  Strategy.n_layer r = n_layer
  /\ Strategy.strategy_string r = Py.strip descriptor
  /\ length (Strategy.strategy r) = Z.to_nat (n_layer + 1)
  /\ length (Strategy.plan r)
     = length (Strategy.segments (Py.strip descriptor))
  /\ Forall (fun o => exists d, o = Some d
                        /\ In (Strategy.device d)
                              (Planned.devices descriptor))
            (Strategy.strategy r).
Proof.
  intros H. destruct (@init_ok _ _ _ H) as (A & B & C & D & E).
  repeat split; try assumption.
  eapply Forall_impl; [|exact E].
  intros o (d & Ho & Hd & _). eauto.
Qed.

Lemma X8_planner_fills_every_layer_witness :
  exists r,
    Strategy.init "cpu fp32 *2 -> cuda fp16 *3+" 4 = Py.Ok r
    /\ Strategy.n_layer r = 4%Z
    /\ length (Strategy.strategy r) = 5%nat
    /\ Forall (fun o => exists d, o = Some d
                          /\ In (Strategy.device d) ["cpu"; "cuda"]%string)
              (Strategy.strategy r).
Proof.
  assert (H : exists r, Strategy.init "cpu fp32 *2 -> cuda fp16 *3+" 4
                        = Py.Ok r)
    by (eexists; vm_compute; reflexivity).
  destruct H as [r H]. exists r. split; [exact H|].
  destruct (@X8_planner_fills_every_layer _ _ _ H) as (A & _ & C & _ & E).
  repeat split; assumption.
Defined.

(** X9 -- whenever [RWKVStrategy(descriptor, n_layer)] returns, every
    layer's activation dtype is one of [float32], [float16],
    [bfloat16], and its weight dtype is that same dtype or [uint8]: a
    slot is only ever taken from a segment whose dtype word the first
    loop has parsed, also when that loop stopped early. *)
Theorem X9_planner_assigns_torch_dtypes (descriptor : string) (n_layer : Z)
  (r : Strategy.RWKVStrategy) :
  Strategy.init descriptor n_layer = Py.Ok r ->
  Forall (fun o => exists d, o = Some d /\ Planned.well_typed d)
         (Strategy.strategy r).
Proof.
  intros H. destruct (@init_ok _ _ _ H) as (_ & _ & _ & _ & E).
  eapply Forall_impl; [|exact E].
  intros o (d & Ho & _ & Hd). eauto.
Qed.

Lemma X9_planner_assigns_torch_dtypes_witness :
  exists r,
    Strategy.init "cuda fp16i8 *1 -> cpu fp32" 4 = Py.Ok r
    /\ Forall (fun o => exists d, o = Some d /\ Planned.well_typed d)
              (Strategy.strategy r).
Proof.
  assert (H : exists r, Strategy.init "cuda fp16i8 *1 -> cpu fp32" 4
                        = Py.Ok r)
    by (eexists; vm_compute; reflexivity).
  destruct H as [r H]. exists r. split; [exact H|].
  apply (@X9_planner_assigns_torch_dtypes _ _ _ H).
Defined.


(* ================================================================== *)
(** * Further properties: strings, [str] and [int]                      *)
(* ================================================================== *)

Section StringFacts.

Import Py Chars.
Local Open Scope string_scope.

Lemma append_nil_r (s : string) : s ++ "" = s.
Proof. induction s as [|c s IH]; simpl; [reflexivity | now rewrite IH]. Qed.

Lemma append_assoc (a b c : string) : (a ++ b) ++ c = a ++ (b ++ c).
Proof. induction a as [|x a IH]; simpl; [reflexivity | now rewrite IH]. Qed.

Lemma rev_onto_app (s acc : string) : rev_onto s acc = srev s ++ acc.
Proof.
  unfold srev. revert acc. induction s as [|c s IH]; intros acc; simpl.
  - reflexivity.
  - rewrite IH, (IH (String c "")), append_assoc. reflexivity.
Qed.

Lemma srev_cons (c : ascii) (s : string) :
  srev (String c s) = srev s ++ String c "".
Proof. unfold srev at 1. simpl. apply rev_onto_app. Qed.

Lemma srev_app (a b : string) : srev (a ++ b) = srev b ++ srev a.
Proof.
  induction a as [|c a IH]; simpl.
  - symmetry. apply append_nil_r.
  - rewrite !srev_cons, IH, append_assoc. reflexivity.
Qed.

Lemma srev_involutive (s : string) : srev (srev s) = s.
Proof.
  induction s as [|c s IH]; [reflexivity|].
  rewrite srev_cons, srev_app, IH. reflexivity.
Qed.

Lemma all_chars_app (P : ascii -> bool) (a b : string) :
  all_chars P (a ++ b) = all_chars P a && all_chars P b.
Proof.
  induction a as [|c a IH]; simpl; [reflexivity|].
  rewrite IH, andb_assoc. reflexivity.
Qed.

Lemma all_chars_srev (P : ascii -> bool) (s : string) :
  all_chars P (srev s) = all_chars P s.
Proof.
  induction s as [|c s IH]; [reflexivity|].
  rewrite srev_cons, all_chars_app, IH. simpl.
  rewrite andb_true_r. apply andb_comm.
Qed.

Lemma all_chars_weaken (P Q : ascii -> bool) (s : string) :
  (forall c, P c = true -> Q c = true) ->
  all_chars P s = true -> all_chars Q s = true.
Proof.
  intros HPQ. induction s as [|c s IH]; simpl; [reflexivity|].
  intros H. apply andb_true_iff in H as [H1 H2].
  rewrite (HPQ _ H1), (IH H2). reflexivity.
Qed.

(** ** [strip] *)

Lemma lstrip_idem (s : string) : lstrip (lstrip s) = lstrip s.
Proof.
  induction s as [|c s IH]; [reflexivity|].
  simpl. destruct (isspace c) eqn:E; [exact IH|].
  simpl. rewrite E. reflexivity.
Qed.

Lemma lstrip_nospace (s : string) :
  all_chars (fun c => negb (isspace c)) s = true -> lstrip s = s.
Proof.
  destruct s as [|c s]; [reflexivity|]. simpl.
  intros H. apply andb_true_iff in H as [H _].
  destruct (isspace c); [discriminate | reflexivity].
Qed.

Lemma strip_nospace (s : string) :
  all_chars (fun c => negb (isspace c)) s = true -> strip s = s.
Proof.
  intros H. unfold strip, rstrip.
  rewrite (lstrip_nospace _ H), lstrip_nospace.
  - apply srev_involutive.
  - rewrite all_chars_srev. exact H.
Qed.

Lemma lstrip_app_solid (u : string) (c : ascii) :
  isspace c = false ->
  exists u', lstrip (u ++ String c "") = u' ++ String c "".
Proof.
  intros Hc. induction u as [|a u IH]; simpl.
  - rewrite Hc. exists "". reflexivity.
  - destruct (isspace a); [exact IH|].
    exists (String a u). reflexivity.
Qed.

Lemma rstrip_cons_solid (c : ascii) (t : string) :
  isspace c = false -> exists t', rstrip (String c t) = String c t'.
Proof.
  intros Hc. unfold rstrip. rewrite srev_cons.
  destruct (@lstrip_app_solid (srev t) c Hc) as (u' & ->).
  rewrite srev_app. simpl. eexists. reflexivity.
Qed.

Lemma rstrip_idem (s : string) : rstrip (rstrip s) = rstrip s.
Proof.
  unfold rstrip. rewrite srev_involutive, lstrip_idem. reflexivity.
Qed.

Lemma lstrip_head (s : string) :
  lstrip s = "" \/ exists c t, lstrip s = String c t /\ isspace c = false.
Proof.
  induction s as [|c s IH]; [left; reflexivity|].
  simpl. destruct (isspace c) eqn:E; [exact IH|].
  right. exists c, s. split; [reflexivity | exact E].
Qed.

Lemma strip_idem (s : string) : strip (strip s) = strip s.
Proof.
  unfold strip.
  destruct (lstrip_head s) as [-> | (c & t & -> & Hc)]; [reflexivity|].
  destruct (@rstrip_cons_solid c t Hc) as (t' & E).
  rewrite E. cbn [lstrip]. rewrite Hc, <- E. apply rstrip_idem.
Qed.

Lemma lacks_lstrip (c : ascii) (s : string) :
  lacks c s = true -> lacks c (lstrip s) = true.
Proof.
  unfold lacks. induction s as [|a s IH]; [reflexivity|].
  intros H. simpl. destruct (isspace a); [|exact H].
  simpl in H. apply andb_true_iff in H as [_ H]. apply IH. exact H.
Qed.

Lemma lacks_strip (c : ascii) (s : string) :
  lacks c s = true -> lacks c (strip s) = true.
Proof.
  intros H. unfold strip, rstrip.
  unfold lacks. rewrite all_chars_srev. apply lacks_lstrip.
  unfold lacks. rewrite all_chars_srev. apply lacks_lstrip. exact H.
Qed.

(** ** [str] and [int] on integers *)

Lemma digit_of (d : Z) :
  (0 <= d < 10)%Z ->
  digit_val (ascii_of_nat (48 + Z.to_nat d)) = Some d
  /\ Re.is_digit (ascii_of_nat (48 + Z.to_nat d)) = true.
Proof.
  intros H.
  assert (d = 0 \/ d = 1 \/ d = 2 \/ d = 3 \/ d = 4 \/ d = 5 \/ d = 6
          \/ d = 7 \/ d = 8 \/ d = 9)%Z as E by lia.
  repeat (destruct E as [-> | E]; [split; reflexivity|]).
  subst d. split; reflexivity.
Qed.

Lemma int_digits_digit (prev : bool) (a d : Z) (rest : string) :
  (0 <= d < 10)%Z ->
  int_digits prev a (String (ascii_of_nat (48 + Z.to_nat d)) rest)
  = int_digits true (10 * a + d) rest.
Proof.
  intros H. cbn [int_digits].
  destruct (digit_of H) as [-> _]. reflexivity.
Qed.

Lemma pos_digits_spec (fuel : nat) :
  forall (n : Z) (acc : string),
    (0 <= n < 2 ^ Z.of_nat (S fuel))%Z ->
    exists ds m,
      pos_digits (S fuel) n acc = ds ++ acc
      /\ all_chars Re.is_digit ds = true
      /\ ds <> ""
      /\ forall prev a rest,
           int_digits prev a (ds ++ rest)
           = int_digits true (a * m + n) rest.
Proof.
  assert (Hone : forall n acc, (0 <= n < 10)%Z ->
            exists ds m,
              String (ascii_of_nat (48 + Z.to_nat (n mod 10))) acc = ds ++ acc
              /\ all_chars Re.is_digit ds = true
              /\ ds <> ""
              /\ forall prev a rest,
                   int_digits prev a (ds ++ rest)
                   = int_digits true (a * m + n) rest).
  { intros n acc Hn. rewrite (Z.mod_small n 10) by lia.
    exists (String (ascii_of_nat (48 + Z.to_nat n)) ""), 10%Z.
    split; [reflexivity|]. split.
    - cbn [all_chars]. destruct (digit_of Hn) as [_ ->]. reflexivity.
    - split; [discriminate|]. intros prev a rest.
      change (String (ascii_of_nat (48 + Z.to_nat n)) "" ++ rest)
        with (String (ascii_of_nat (48 + Z.to_nat n)) rest).
      rewrite (int_digits_digit prev a rest Hn). f_equal. lia. }
  induction fuel as [|fuel IH]; intros n acc Hn.
  - cbn [pos_digits].
    assert (n < 10)%Z as Hlt by (change (2 ^ Z.of_nat 1)%Z with 2%Z in Hn; lia).
    apply Z.ltb_lt in Hlt as Hb. rewrite Hb. apply Hone. lia.
  - change (pos_digits (S (S fuel)) n acc)
      with (let d := ascii_of_nat (48 + Z.to_nat (n mod 10)) in
            if (n <? 10)%Z then String d acc
            else pos_digits (S fuel) (n / 10) (String d acc)).
    cbv zeta. destruct (n <? 10)%Z eqn:Hb.
    + apply Z.ltb_lt in Hb. apply Hone. lia.
    + apply Z.ltb_ge in Hb.
      assert (Hq : (0 <= n / 10 < 2 ^ Z.of_nat (S fuel))%Z).
      { split; [apply Z.div_pos; lia|].
        replace (Z.of_nat (S (S fuel))) with (Z.succ (Z.of_nat (S fuel)))
          in Hn by lia.
        rewrite Z.pow_succ_r in Hn by lia.
        apply Z.div_lt_upper_bound; lia. }
      destruct (IH (n / 10)%Z
                  (String (ascii_of_nat (48 + Z.to_nat (n mod 10))) acc) Hq)
        as (ds & m & E & Hd & Hne & Hev).
      assert (Hr : (0 <= n mod 10 < 10)%Z) by (apply Z.mod_pos_bound; lia).
      exists (ds ++ String (ascii_of_nat (48 + Z.to_nat (n mod 10))) ""),
             (10 * m)%Z.
      split; [rewrite E, append_assoc; reflexivity|]. split.
      * rewrite all_chars_app, Hd. cbn [all_chars andb].
        destruct (digit_of Hr) as [_ ->]. reflexivity.
      * split; [destruct ds; discriminate|].
        intros prev a rest. rewrite append_assoc.
        change (String (ascii_of_nat (48 + Z.to_nat (n mod 10))) "" ++ rest)
          with (String (ascii_of_nat (48 + Z.to_nat (n mod 10))) rest).
        rewrite Hev, (int_digits_digit true _ rest Hr). f_equal.
        pose proof (Z.div_mod n 10). lia.
Qed.

(** [str] of a natural number: decimal digits that [int] reads back. *)
Lemma str_of_nonneg (n : Z) :
  (0 <= n)%Z ->
  exists c ds,
    pos_digits (S (Z.to_nat (Z.log2 n))) n "" = String c ds
    /\ all_chars Re.is_digit (String c ds) = true
    /\ int_digits false 0 (String c ds) = Some n.
Proof.
  intros Hn.
  assert (H : (0 <= n < 2 ^ Z.of_nat (S (Z.to_nat (Z.log2 n))))%Z).
  { split; [exact Hn|].
    replace (Z.of_nat (S (Z.to_nat (Z.log2 n)))) with (Z.succ (Z.log2 n))
      by (pose proof (Z.log2_nonneg n); lia).
    destruct (Z.eq_dec n 0) as [->|Hz]; [reflexivity|].
    apply Z.log2_spec. lia. }
  destruct (@pos_digits_spec _ n "" H) as (ds & m & E & Hd & Hne & Hev).
  rewrite append_nil_r in E.
  destruct ds as [|c ds]; [contradiction|].
  exists c, ds. split; [exact E|]. split; [exact Hd|].
  specialize (Hev false 0%Z ""). rewrite append_nil_r in Hev.
  rewrite Hev. reflexivity.
Qed.

Lemma digit_solid (c : ascii) :
  Re.is_digit c = true ->
  isspace c = false /\ Ascii.eqb c "|" = false /\ Ascii.eqb c "." = false
  /\ Ascii.eqb c "-" = false /\ Ascii.eqb c "+" = false.
Proof.
  destruct c as [[] [] [] [] [] [] [] []]; intros H;
    try discriminate H; repeat split.
Qed.

Lemma digits_nospace (s : string) :
  all_chars Re.is_digit s = true ->
  all_chars (fun c => negb (isspace c)) s = true.
Proof.
  apply all_chars_weaken. intros c H.
  destruct (digit_solid c H) as (-> & _). reflexivity.
Qed.

Lemma digits_lack (x : ascii) (s : string) :
  Re.is_digit x = false ->
  all_chars Re.is_digit s = true -> lacks x s = true.
Proof.
  intros Hx. apply all_chars_weaken. intros c H.
  destruct (Ascii.eqb_spec c x) as [->|]; [congruence | reflexivity].
Qed.

(** [int(str(n)) == n] for every integer. *)
Lemma int_str_of_int (n : Z) : int (str_of_int n) = Ok n.
Proof.
  unfold str_of_int. destruct (n <? 0)%Z eqn:Hneg.
  - apply Z.ltb_lt in Hneg.
    destruct (@str_of_nonneg (- n)%Z ltac:(lia)) as (c & ds & -> & Hd & Hev).
    unfold int. rewrite strip_nospace.
    + rewrite Hev. f_equal. lia.
    + change (all_chars (fun c => negb (isspace c)) (String "-" (String c ds)))
        with (all_chars (fun c => negb (isspace c)) (String c ds)).
      apply digits_nospace. exact Hd.
  - apply Z.ltb_ge in Hneg.
    destruct (@str_of_nonneg n Hneg) as (c & ds & -> & Hd & Hev).
    unfold int. rewrite strip_nospace by (apply digits_nospace; exact Hd).
    assert (Hc : Re.is_digit c = true).
    { simpl in Hd. apply andb_true_iff in Hd as [Hc _]. exact Hc. }
    destruct (digit_solid c Hc) as (_ & _ & _ & Hm & Hp).
    assert (E : (let '(neg, body) :=
                   match String c ds with
                   | String "-" r => (true, r)
                   | String "+" r => (false, r)
                   | _ => (false, String c ds)
                   end in
                 match int_digits false 0 body with
                 | Some n0 => Ok (if neg then (- n0)%Z else n0)
                 | None => Raise (ValueError "invalid literal for int() with base 10")
                 end)
                = match int_digits false 0 (String c ds) with
                  | Some n0 => Ok n0
                  | None => Raise (ValueError "invalid literal for int() with base 10")
                  end).
    { clear - Hm Hp.
      destruct c as [[] [] [] [] [] [] [] []];
        try discriminate Hm; try discriminate Hp; reflexivity. }
    rewrite E, Hev. reflexivity.
Qed.

(** [str(n)] holds digits and a sign only. *)
Lemma str_of_int_lacks (x : ascii) (n : Z) :
  Re.is_digit x = false -> Ascii.eqb x "-" = false ->
  lacks x (str_of_int n) = true.
Proof.
  intros Hx Hm. unfold str_of_int. destruct (n <? 0)%Z eqn:Hneg.
  - apply Z.ltb_lt in Hneg.
    destruct (@str_of_nonneg (- n)%Z ltac:(lia)) as (c & ds & -> & Hd & _).
    unfold lacks. cbn [all_chars]. rewrite Ascii.eqb_sym, Hm.
    apply (@digits_lack _ _ Hx Hd).
  - apply Z.ltb_ge in Hneg.
    destruct (@str_of_nonneg n Hneg) as (c & ds & -> & Hd & _).
    apply (@digits_lack _ _ Hx Hd).
Qed.

End StringFacts.


(* ================================================================== *)
(** * Further properties: saving and reloading converted weights        *)
(* ================================================================== *)

Section SplitFacts.

Import Py Chars.
Local Open Scope string_scope.

Lemma prefix_char (x c : ascii) (s : string) :
  String.prefix (String x "") (String c s) = Ascii.eqb c x.
Proof.
  simpl. destruct (ascii_dec x c) as [->|Hn].
  - rewrite Ascii.eqb_refl. destruct s; reflexivity.
  - destruct (Ascii.eqb_spec c x); [congruence | reflexivity].
Qed.

Lemma split_aux_piece (x : ascii) (a cur rest : string) :
  lacks x a = true ->
  split_aux (String x "") 0 cur (a ++ rest)
  = split_aux (String x "") 0 (srev a ++ cur) rest.
Proof.
  revert cur. induction a as [|c a IH]; intros cur H; [reflexivity|].
  unfold lacks in H. simpl in H. apply andb_true_iff in H as [Hc Ha].
  apply negb_true_iff in Hc.
  change (String c a ++ rest) with (String c (a ++ rest)).
  cbn [split_aux]. rewrite prefix_char, Hc.
  rewrite (IH (String c cur) Ha), srev_cons, append_assoc. reflexivity.
Qed.

(** [(a + x + rest).split(x)] when [x] is not in [a]. *)
Lemma split_cut (x : ascii) (a rest : string) :
  lacks x a = true ->
  split (a ++ String x rest) (String x "") = a :: split rest (String x "").
Proof.
  intros H. unfold split. rewrite (@split_aux_piece x a "" (String x rest) H).
  cbn [split_aux]. rewrite prefix_char, Ascii.eqb_refl.
  rewrite append_nil_r, srev_involutive. reflexivity.
Qed.

(** [a.split(x)] when [x] is not in [a]. *)
Lemma split_whole (x : ascii) (a : string) :
  lacks x a = true -> split a (String x "") = [a].
Proof.
  intros H. unfold split.
  rewrite <- (append_nil_r a) at 1.
  rewrite (@split_aux_piece x a "" "" H).
  cbn [split_aux]. rewrite append_nil_r, srev_involutive. reflexivity.
Qed.

End SplitFacts.

Section PatternAlphabet.

Import Py Re Chars.
Local Open Scope string_scope.

Lemma dead_not_nullable (b : bool) (r : re) :
  dead r = true -> nullable b r = false.
Proof.
  induction r; simpl; intros H; try discriminate; auto.
  - apply orb_true_iff in H as [H|H];
      [rewrite (IHr1 H) | rewrite (IHr2 H), andb_false_r]; reflexivity.
  - apply andb_true_iff in H as [H1 H2].
    rewrite (IHr1 H1), (IHr2 H2). reflexivity.
Qed.

Lemma dead_deriv (b : bool) (c : ascii) (r : re) :
  dead r = true -> dead (deriv b c r) = true.
Proof.
  induction r; simpl; intros H; try discriminate; auto.
  - apply orb_true_iff in H.
    destruct (nullable b r1) eqn:N; simpl.
    + destruct H as [H|H].
      * rewrite (dead_not_nullable b r1 H) in N. discriminate.
      * rewrite H, (IHr2 H), orb_true_r. reflexivity.
    + destruct H as [H|H]; [rewrite (IHr1 H) | rewrite H, orb_true_r];
        reflexivity.
  - apply andb_true_iff in H as [H1 H2].
    rewrite (IHr1 H1), (IHr2 H2). reflexivity.
  - rewrite (IHr H). reflexivity.
Qed.

Lemma dead_prune (r : re) : dead r = true -> dead (prune r) = true.
Proof.
  induction r; simpl; intros H; try discriminate; auto.
  - rewrite H. reflexivity.
  - apply andb_true_iff in H as [H1 H2]. rewrite H1. auto.
Qed.

Lemma dead_fullmatch (s : string) :
  forall (b : bool) (r : re),
    dead r = true -> fullmatch_from b r s = false.
Proof.
  induction s as [|c s IH]; intros b r H; simpl.
  - apply dead_not_nullable, H.
  - apply IH, dead_prune, dead_deriv, H.
Qed.

Lemma avoids_deriv_dead (b : bool) (c : ascii) (r : re) :
  avoids c r = true -> dead (deriv b c r) = true.
Proof.
  induction r; simpl; intros H; auto.
  - apply negb_true_iff in H. rewrite H. reflexivity.
  - apply negb_true_iff in H. rewrite H. reflexivity.
  - apply andb_true_iff in H as [H1 H2].
    destruct (nullable b r1); simpl;
      rewrite (IHr1 H1); try rewrite (IHr2 H2); reflexivity.
  - apply andb_true_iff in H as [H1 H2].
    rewrite (IHr1 H1), (IHr2 H2). reflexivity.
  - rewrite (IHr H). reflexivity.
  - rewrite (IHr H). reflexivity.
Qed.

Lemma avoids_deriv (x : ascii) (b : bool) (c : ascii) (r : re) :
  avoids x r = true -> avoids x (deriv b c r) = true.
Proof.
  induction r; simpl; intros H; auto.
  - destruct (Ascii.eqb c0 c); reflexivity.
  - destruct (is_digit c); reflexivity.
  - apply andb_true_iff in H as [H1 H2].
    destruct (nullable b r1); simpl;
      rewrite (IHr1 H1), H2; try rewrite (IHr2 H2); reflexivity.
  - apply andb_true_iff in H as [H1 H2].
    rewrite (IHr1 H1), (IHr2 H2). reflexivity.
  - rewrite (IHr H), H. reflexivity.
  - rewrite (IHr H), H. reflexivity.
Qed.

Lemma avoids_prune (x : ascii) (r : re) :
  avoids x r = true -> avoids x (prune r) = true.
Proof.
  induction r; simpl; intros H; auto.
  - apply andb_true_iff in H as [H1 H2].
    destruct (dead r1 || dead r2); [reflexivity|].
    simpl. rewrite (IHr1 H1), H2. reflexivity.
  - apply andb_true_iff in H as [H1 H2].
    destruct (dead r1); [auto|]. destruct (dead r2); [auto|].
    simpl. rewrite (IHr1 H1), (IHr2 H2). reflexivity.
Qed.

(** A subject the expression matches holds no character the expression
    avoids. *)
Lemma avoids_fullmatch (x : ascii) (s : string) :
  forall (b : bool) (r : re),
    avoids x r = true -> fullmatch_from b r s = true -> lacks x s = true.
Proof.
  induction s as [|c s IH]; intros b r Hr H; [reflexivity|].
  unfold lacks. cbn [all_chars]. simpl in H.
  destruct (Ascii.eqb_spec c x) as [->|Hc].
  - rewrite dead_fullmatch in H; [discriminate|].
    apply dead_prune, avoids_deriv_dead, Hr.
  - simpl. apply (IH false (prune (deriv b c r))); [|exact H].
    apply avoids_prune, avoids_deriv, Hr.
Qed.

Lemma prefix_char_inv (x : ascii) (v : string) :
  String.prefix (String x "") v = true -> exists u, v = String x u.
Proof.
  destruct v as [|c v]; simpl; [discriminate|].
  destruct (ascii_dec x c) as [->|]; [eauto | discriminate].
Qed.

Lemma slice_to_m1_snoc (t : string) (x : ascii) :
  slice_to_m1 (t ++ String x "") = t.
Proof.
  induction t as [|c t IH]; [reflexivity|].
  change (String c t ++ String x "") with (String c (t ++ String x "")).
  cbn [slice_to_m1]. rewrite IH.
  destruct t; reflexivity.
Qed.

Lemma re_match_lacks (x : ascii) (r : re) (s : string) :
  avoids x r = true -> Ascii.eqb (ascii_of_nat 10) x = false ->
  re_match r s = true -> lacks x s = true.
Proof.
  intros Hr Hx H. unfold re_match in H.
  apply orb_true_iff in H as [H|H].
  - apply (@avoids_fullmatch x s true r Hr H).
  - apply andb_true_iff in H as [He H]. unfold endswith in He.
    apply prefix_char_inv in He as (u & Hu).
    assert (E : s = srev u ++ String (ascii_of_nat 10) "").
    { rewrite <- (srev_involutive s), Hu, srev_cons. reflexivity. }
    rewrite E in H |- *. rewrite slice_to_m1_snoc in H.
    pose proof (@avoids_fullmatch x (srev u) true r Hr H) as L.
    unfold lacks in L |- *. rewrite all_chars_app, L.
    cbn [all_chars andb]. rewrite Hx. reflexivity.
Qed.

(** No descriptor the validation pattern accepts holds the separator of
    the marker. *)
Lemma accepted_lacks_bar (s : string) :
  re_match STRATEGY_REGEX s = true -> lacks "|" s = true.
Proof. apply re_match_lacks; reflexivity. Qed.

End PatternAlphabet.

Section DictFacts.

Import Py Loader Preconvert.
Local Open Scope string_scope.

Lemma get_set (w : checkpoint) (k : string) (v : value) :
  get (set w k v) k = Some v.
Proof.
  induction w as [|[k' v'] w IH]; simpl.
  - rewrite String.eqb_refl. reflexivity.
  - destruct (String.eqb k' k) eqn:E; simpl; rewrite E; [reflexivity | exact IH].
Qed.

Lemma del_set (w : checkpoint) (k : string) (v : value) :
  del (set w k v) k = del w k.
Proof.
  induction w as [|[k' v'] w IH]; simpl.
  - rewrite String.eqb_refl. reflexivity.
  - destruct (String.eqb k' k) eqn:E; simpl; rewrite E;
      [reflexivity | rewrite IH; reflexivity].
Qed.

Lemma del_absent (w : checkpoint) (k : string) :
  get w k = None -> del w k = w.
Proof.
  induction w as [|[k' v'] w IH]; simpl; [reflexivity|].
  destruct (String.eqb k' k); [discriminate|].
  intros H. rewrite (IH H). reflexivity.
Qed.

Lemma keys_set_absent (w : checkpoint) (k : string) (v : value) :
  get w k = None -> keys (set w k v) = (keys w ++ [k])%list.
Proof.
  unfold keys. induction w as [|[k' v'] w IH]; simpl; [reflexivity|].
  destruct (String.eqb k' k); [discriminate|].
  intros H. simpl. rewrite (IH H). reflexivity.
Qed.

Lemma init_strip (s : string) (n : Z) :
  Strategy.init (strip s) n = Strategy.init s n.
Proof. unfold Strategy.init. rewrite strip_idem. reflexivity. Qed.

(** The marker [save_preconverted] writes splits back into its three
    fields. *)
Lemma marker_fields (s : string) (n : Z) (S : Strategy.RWKVStrategy) :
  Re.re_match Re.STRATEGY_REGEX (strip s) = true ->
  Strategy.init s n = Ok S ->
  startswith (marker S) "1|" = true
  /\ split (marker S) "|" = ["1"; str_of_int n; strip s]
  /\ int (str_of_int n) = Ok n
  /\ Strategy.init (strip s) n = Ok S.
Proof.
  intros Hre HS.
  destruct (@init_ok _ _ _ HS) as (Hn & Hs & _).
  unfold marker. rewrite Hn, Hs, strip_idem.
  change (str_of_int RWKV_PRECONVERT_FORMAT) with "1".
  split.
  { unfold startswith. cbn [append]. simpl.
    destruct (str_of_int n ++ String "|" (strip s)); reflexivity. }
  split.
  - transitivity
      (split ("1" ++ String "|" (str_of_int n ++ String "|" (strip s))) "|");
      [reflexivity|].
    rewrite (@split_cut "|" "1" _ eq_refl).
    rewrite (@split_cut "|" (str_of_int n) (strip s)
               (@str_of_int_lacks "|" n eq_refl eq_refl)).
    rewrite (@split_whole "|" (strip s) (@accepted_lacks_bar _ Hre)).
    reflexivity.
  - split; [apply int_str_of_int|]. rewrite init_strip. exact HS.
Qed.

End DictFacts.

(** X10 -- weights written by [save_preconverted] carry a marker that
    the loader reads back: for a strategy [S] built from a descriptor
    the validation pattern accepts, the saved dict is the caller's dict
    plus the marker; reloading it under the same descriptor gives [S]
    back with the dict as it was before saving and the preconverted
    flag set; reloading it under any other accepted descriptor [t]
    succeeds exactly when the strategy of [t] is compatible with [S],
    and raises the [ValueError] naming both strategies otherwise.  A
    format other than ['pt'] is refused before anything is written. *)
Theorem X10_saved_weights_reload_under_their_strategy (s t : string)
  (n n' : Z) (S T : Strategy.RWKVStrategy) (w : Loader.checkpoint) :
  Re.re_match Re.STRATEGY_REGEX (Py.strip s) = true ->
  Strategy.init s n = Py.Ok S ->
  Re.re_match Re.STRATEGY_REGEX t = true ->
  Strategy.init t n' = Py.Ok T ->
  Loader.get w "preconverted_for_strategy" = None ->
  (forall format, format <> "pt"%string ->
     Preconvert.save_preconverted w S format
     = Py.Raise (Py.ValueError (Preconvert.invalid_format_msg format)))
  /\ exists w1,
       Preconvert.save_preconverted w S "pt" = Py.Ok (Some w1)
       /\ Loader.keys w1
          = (Loader.keys w ++ ["preconverted_for_strategy"%string])%list
       /\ Loader.choose_strategy (Py.strip s) n w1 = Py.Ok (S, w, true)
       /\ Loader.choose_strategy t n' w1
          = if Strategy.is_compatible T S
            then Py.Ok (T, w, true)
            else Py.Raise (Py.ValueError
                   (Loader.incompatible_strategy_msg S n T n')).
Proof.
  intros Hre HS Hret HT Hw. split.
  - intros format Hf. unfold Preconvert.save_preconverted.
    cbn [existsb Preconvert.valid_formats].
    destruct (String.eqb_spec format "pt"); [contradiction | reflexivity].
  - eexists. split; [reflexivity|].
    destruct (@marker_fields _ _ _ Hre HS) as (Hv & Hsp & Hint & Hinit).
    assert (Hlit : forall u, Re.re_match Re.STRATEGY_REGEX u = true ->
                     String.eqb u "preconverted" = false).
    { intros u Hu. destruct (String.eqb_spec u "preconverted") as [->|];
        [vm_compute in Hu; discriminate | reflexivity]. }
    split; [apply keys_set_absent, Hw|]. split.
    + rewrite (@choose_strategy_preconverted _ _ _ _ _ _ _ _ _ _
                 (get_set _ _ _) Hv Hsp Hint Hinit (Hlit _ Hre) Hinit).
      rewrite del_set, (del_absent _ _ Hw).
      assert (Hc : Strategy.is_compatible S S = true)
        by (apply is_compatible_iff; split; reflexivity).
      rewrite Hc. reflexivity.
    + rewrite (@choose_strategy_preconverted _ _ _ _ _ _ _ _ _ _
                 (get_set _ _ _) Hv Hsp Hint Hinit (Hlit _ Hret) HT).
      rewrite del_set, (del_absent _ _ Hw).
      unfold Loader.incompatible_strategy_msg. reflexivity.
Qed.

Lemma X10_saved_weights_reload_under_their_strategy_witness :
  exists S T w1,
    Strategy.init "cpu fp32" 1 = Py.Ok S
    /\ Strategy.init "cuda fp32" 1 = Py.Ok T
    /\ Preconvert.save_preconverted (Loader.fresh_checkpoint 1) S "pt"
       = Py.Ok (Some w1)
    /\ Loader.choose_strategy "cpu fp32" 1 w1
       = Py.Ok (S, Loader.fresh_checkpoint 1, true)
    /\ Loader.choose_strategy "cuda fp32" 1 w1
       = if Strategy.is_compatible T S
         then Py.Ok (T, Loader.fresh_checkpoint 1, true)
         else Py.Raise (Py.ValueError
                (Loader.incompatible_strategy_msg S 1 T 1)).
Proof.
  assert (HS : exists S, Strategy.init "cpu fp32" 1 = Py.Ok S)
    by (eexists; vm_compute; reflexivity).
  assert (HT : exists T, Strategy.init "cuda fp32" 1 = Py.Ok T)
    by (eexists; vm_compute; reflexivity).
  destruct HS as [S HS]. destruct HT as [T HT].
  destruct (@X10_saved_weights_reload_under_their_strategy
              "cpu fp32" "cuda fp32" 1 1 S T (Loader.fresh_checkpoint 1)
              eq_refl HS eq_refl HT eq_refl)
    as (_ & w1 & Hsave & _ & Hsame & Hother).
  exists S, T, w1. repeat split; assumption.
Defined.

